(** * sfrog: a shallow embedding of the crawl engine

    The first part follows the layout of the Python package:

    - [Py]          the [str] methods the code relies on, and exceptions;
    - [UrlParse]    the parts of [urllib.parse] (CPython 3.11) used by
                    [sfrog/utils/url_tools.py];
    - [UrlTools]    [sfrog/utils/url_tools.py];
    - [Sitemap]     [sfrog/crawler/sitemap.py];
    - [Fetcher]     [sfrog/crawler/fetcher.py];
    - [Parser]      [sfrog/crawler/parser.py];
    - [Robots]      [sfrog/crawler/robots.py];
    - [Manager]     [sfrog/crawler/manager.py], as a transition system
                    whose steps are the atomic sections of the cooperative
                    workers, with [ManagerSpec] for its invariants;
    - [Duplicates]  [sfrog/analysis/duplicates.py];
    - [ParserSpec], [SitemapSpec], [FetcherSpec], [CrawlSpec], [Grouping]
                    what the parsers return, what the parse gate reads,
                    the books the manager keeps and the grouping of pages,
                    for the later proofs;
    - [CsvExporter] [sfrog/exporters/csv_exporter.py];
    - [SeoChecks]   [sfrog/analysis/seo_checks.py];
    - [Config]      [sfrog/utils/config.py], with the overrides of the
                    [crawl] command of [sfrog/cli.py];
    - [Fixture]     a two-page site with stand-ins for the libraries.

    The second part holds the proofs, one module of facts per module of
    code, and the concrete runs on the fixture site.

    Python [str] values are modelled by [string]; letter case is
    modelled for the ASCII letters, every other character being left as
    it is. Libraries outside the package (the XML and
    HTML parsers, [yarl], [urljoin], the robots parser, [hashlib]) enter
    as type classes of the operations the code calls. *)

From Stdlib Require Import String Ascii ZArith List Bool Lia.
From Stdlib Require PrimFloat.
From stdpp Require Import gmap strings list.

Open Scope string_scope.
Open Scope list_scope.

(** ** Python values shared by all modules *)

Module Py.

(** Exceptions that can cross a function boundary in this code base. *)
Inductive exn : Type :=
  | ValueError
  | AttributeError
  | TypeError
  | ExpatError
  | OtherError.

(** The outcome of a call: a returned value or a raised exception. *)
Inductive result (A : Type) : Type :=
  | Ok (a : A)
  | Raise (e : exn).
Arguments Ok {A} a.
Arguments Raise {A} e.

Definition bind {A B} (r : result A) (k : A -> result B) : result B :=
  match r with
  | Ok a => k a
  | Raise e => Raise e
  end.

(** [try: r except Exception: d] *)
Definition except_all {A} (r : result A) (d : A) : A :=
  match r with
  | Ok a => a
  | Raise _ => d
  end.

Definition returns {A} (r : result A) : Prop := exists a, r = Ok a.

(** *** Characters *)

Definition code (c : ascii) : nat := nat_of_ascii c.

Definition between (lo hi : nat) (c : ascii) : bool :=
  (lo <=? code c)%nat && (code c <=? hi)%nat.

Definition is_upper (c : ascii) : bool := between 65 90 c.
Definition is_lower (c : ascii) : bool := between 97 122 c.
Definition is_digit (c : ascii) : bool := between 48 57 c.
(** [c.isascii() and c.isalpha()] *)
Definition is_ascii_alpha (c : ascii) : bool := is_upper c || is_lower c.
Definition is_ascii_char (c : ascii) : bool := (code c <? 128)%nat.

(** [c.lower()] on ASCII; other characters are left alone. *)
Definition lower_char (c : ascii) : ascii :=
  if is_upper c then ascii_of_nat (code c + 32) else c.

(** *** Strings *)

Fixpoint str_all (p : ascii -> bool) (s : string) : bool :=
  match s with
  | "" => true
  | String a s' => p a && str_all p s'
  end.

(** [s.isascii()] *)
Definition isascii (s : string) : bool := str_all is_ascii_char s.

(** [s.lower()] *)
Fixpoint lower (s : string) : string :=
  match s with
  | "" => ""
  | String a s' => String (lower_char a) (lower s')
  end.

(** [c in s] for a one-character [c] *)
Fixpoint contains (c : ascii) (s : string) : bool :=
  match s with
  | "" => false
  | String a s' => Ascii.eqb a c || contains c s'
  end.

(** [s[:n]] and [s[n:]] for [n >= 0] *)
Fixpoint take (n : nat) (s : string) : string :=
  match n, s with
  | S n', String a s' => String a (take n' s')
  | _, _ => ""
  end.

Fixpoint drop (n : nat) (s : string) : string :=
  match n, s with
  | S n', String _ s' => drop n' s'
  | _, _ => s
  end.

(** [s[i:j]] for [0 <= i] and [0 <= j] *)
Definition slice (i j : nat) (s : string) : string := drop i (take j s).

(** [s[:-1]] *)
Fixpoint drop_last (s : string) : string :=
  match s with
  | "" => ""
  | String a s' => match s' with "" => "" | _ => String a (drop_last s') end
  end.

(** [s.find(c)]; [None] stands for Python's [-1]. *)
Fixpoint find (c : ascii) (s : string) : option nat :=
  match s with
  | "" => None
  | String a s' => if Ascii.eqb a c then Some 0%nat else option_map S (find c s')
  end.

(** [s.find(c, start)] for [start >= 0] *)
Definition find_from (c : ascii) (s : string) (start : nat) : option nat :=
  option_map (Nat.add start) (find c (drop start s)).

(** [s.rfind(c)] *)
Fixpoint rfind (c : ascii) (s : string) : option nat :=
  match s with
  | "" => None
  | String a s' =>
      match rfind c s' with
      | Some i => Some (S i)
      | None => if Ascii.eqb a c then Some 0%nat else None
      end
  end.

(** [s.lstrip(chars)] where [chars] is given by its membership test *)
Fixpoint lstrip (p : ascii -> bool) (s : string) : string :=
  match s with
  | "" => ""
  | String a s' => if p a then lstrip p s' else s
  end.

Fixpoint rstrip (p : ascii -> bool) (s : string) : string :=
  match s with
  | "" => ""
  | String a s' =>
      match rstrip p s' with
      | "" => if p a then "" else String a ""
      | r => String a r
      end
  end.

(** [s.strip()]: whitespace on both ends *)
Definition is_space (c : ascii) : bool :=
  between 9 13 c || between 28 32 c.
Definition strip (s : string) : string := rstrip is_space (lstrip is_space s).

(** [s.replace(c, "")] for a one-character [c] *)
Fixpoint remove (c : ascii) (s : string) : string :=
  match s with
  | "" => ""
  | String a s' => if Ascii.eqb a c then remove c s' else String a (remove c s')
  end.

(** [s.startswith(p)] *)
Definition startswith (p s : string) : bool := String.prefix p s.

(** [s.partition(c)]: [(before, found, after)] with [found] telling whether
    the separator occurs; without it the result is [(s, "", "")]. *)
Definition partition (c : ascii) (s : string) : string * bool * string :=
  match find c s with
  | Some i => (take i s, true, drop (S i) s)
  | None => (s, false, "")
  end.

(** [s.rpartition(c)]; without the separator the result is [("", "", s)]. *)
Definition rpartition (c : ascii) (s : string) : string * bool * string :=
  match rfind c s with
  | Some i => (take i s, true, drop (S i) s)
  | None => ("", false, s)
  end.

(** [sub in s] for strings *)
Fixpoint has_substring (sub s : string) : bool :=
  String.prefix sub s ||
  match s with
  | "" => false
  | String _ s' => has_substring sub s'
  end.

(** [s in l] for a list of strings *)
Definition in_list (s : string) (l : list string) : bool :=
  existsb (String.eqb s) l.

(** [a != c], as a test on [a] *)
Definition differs (c : ascii) (a : ascii) : bool := negb (Ascii.eqb a c).

(** Truthiness of a string: [bool(s)]. *)
Definition truthy (s : string) : bool :=
  match s with "" => false | _ => true end.

End Py.

(** Sequencing of calls that may raise: the first exception ends the block. *)
Notation "'let*' x ':=' r 'in' k" := (Py.bind r (fun x => k))
  (at level 10, x pattern, r at level 100, k at level 200, only parsing).

(** ** urllib.parse (CPython 3.11) *)

Module UrlParse.
Import Py.

(** What the model takes from the Python runtime without looking inside:
    the validation of a bracketed host ([_check_bracketed_host], built on
    [ipaddress]) and the NFKC test of [_checknetloc], which is consulted
    for a netloc with non-ASCII characters only. [true] means that no
    [ValueError] is raised. *)
Class Runtime : Type := {
  bracketed_host_ok : string -> bool;
  nfkc_netloc_ok : string -> bool
}.

Definition uses_netloc : list string :=
  [""; "ftp"; "http"; "gopher"; "nntp"; "telnet";
   "imap"; "wais"; "file"; "mms"; "https"; "shttp";
   "snews"; "prospero"; "rtsp"; "rtspu"; "rsync";
   "svn"; "svn+ssh"; "sftp"; "nfs"; "git"; "git+ssh";
   "ws"; "wss"].

Definition uses_params : list string :=
  [""; "ftp"; "hdl"; "prospero"; "http"; "imap";
   "https"; "shttp"; "rtsp"; "rtspu"; "sip"; "sips";
   "mms"; "sftp"; "tel"].

(** [c in scheme_chars] *)
Definition scheme_char (c : ascii) : bool :=
  is_lower c || is_upper c || is_digit c ||
  Ascii.eqb c "+" || Ascii.eqb c "-" || Ascii.eqb c ".".

(** [c in _WHATWG_C0_CONTROL_OR_SPACE] *)
Definition c0_control_or_space (c : ascii) : bool := (code c <=? 32)%nat.

Definition TAB : ascii := "009".
Definition LF : ascii := "010".
Definition CR : ascii := "013".

(** [for b in _UNSAFE_URL_BYTES_TO_REMOVE: url = url.replace(b, "")] *)
Definition remove_unsafe (url : string) : string :=
  remove LF (remove CR (remove TAB url)).

Definition min_delim (delim : nat) (wdelim : option nat) : nat :=
  match wdelim with
  | Some w => Nat.min delim w
  | None => delim
  end.

Definition _splitnetloc (url : string) (start : nat) : string * string :=
  let delim := String.length url in
  let delim := min_delim delim (find_from "/" url start) in
  let delim := min_delim delim (find_from "?" url start) in
  let delim := min_delim delim (find_from "#" url start) in
  (slice start delim url, drop delim url).

(** The length of the authority that [_splitnetloc] cuts off [v]. *)
Definition authority_length (v : string) : nat :=
  min_delim (min_delim (min_delim (String.length v) (find "/" v)) (find "?" v))
    (find "#" v).

Definition _splitparams (url : string) : string * string :=
  if contains "/" url then
    match rfind "/" url with
    | Some r =>
        match find_from ";" url r with
        | None => (url, "")
        | Some i => (take i url, drop (S i) url)
        end
    | None => (url, "")
    end
  else
    match find ";" url with
    | Some i => (take i url, drop (S i) url)
    | None => (drop_last url, url)
    end.

Section WithRuntime.
Context {RT : Runtime}.

Definition _checknetloc (netloc : string) : result unit :=
  if negb (truthy netloc) || isascii netloc then Ok tt
  else if nfkc_netloc_ok netloc then Ok tt else Raise ValueError.

Definition _check_bracketed_host (hostname : string) : result unit :=
  if bracketed_host_ok hostname then Ok tt else Raise ValueError.

Definition _check_bracketed_netloc (netloc : string) : result unit :=
  let hostname_and_port := snd (rpartition "@" netloc) in
  let '(before_bracket, have_open_br, bracketed) := partition "[" hostname_and_port in
  if have_open_br then
    if truthy before_bracket then Raise ValueError
    else
      let '(hostname, _, port) := partition "]" bracketed in
      if truthy port && negb (startswith ":" port) then Raise ValueError
      else _check_bracketed_host hostname
  else
    let '(hostname, _, port) := partition ":" hostname_and_port in
    _check_bracketed_host hostname.

Record SplitResult : Type := mkSplit {
  s_scheme : string; s_netloc : string; s_path : string;
  s_query : string; s_fragment : string
}.

(** The scheme test of [urlsplit]:
    [i = url.find(':')], then [i > 0 and url[0].isascii() and
    url[0].isalpha()] and every character of [url[:i]] in [scheme_chars]. *)
Definition split_scheme (url : string) : string * string :=
  match find ":" url with
  | Some (S i') =>
      let i := S i' in
      if is_ascii_alpha (match url with String a _ => a | "" => Ascii.zero end)
         && str_all scheme_char (take i url)
      then (lower (take i url), drop (S i) url)
      else ("", url)
  | _ => ("", url)
  end.

(** The bracket checks of [urlsplit] on a netloc:
    [if (('[' in netloc and ']' not in netloc) or (']' in netloc and '['
    not in netloc)): raise ValueError] and
    [if '[' in netloc and ']' in netloc: _check_bracketed_netloc(netloc)]. *)
Definition check_brackets (netloc : string) : result unit :=
  if (contains "[" netloc && negb (contains "]" netloc))
     || (contains "]" netloc && negb (contains "[" netloc))
  then Raise ValueError
  else if contains "[" netloc && contains "]" netloc
       then _check_bracketed_netloc netloc
       else Ok tt.

(** [if url[:2] == '//': netloc, url = _splitnetloc(url, 2)] and the
    bracket checks that follow it. *)
Definition split_netloc (url : string) : result (string * string) :=
  if String.eqb (take 2 url) "//" then
    let '(netloc, url) := _splitnetloc url 2 in
    let* _ := check_brackets netloc in
    Ok (netloc, url)
  else Ok ("", url).

(** [if c in url: url, rest = url.split(c, 1)] *)
Definition split_once (c : ascii) (url : string) : string * string :=
  if contains c url then
    let '(u, _, r) := partition c url in (u, r)
  else (url, "").

(** [urlsplit(url)] with the default [scheme=''] and [allow_fragments=True] *)
Definition urlsplit (url : string) : result SplitResult :=
  let url := lstrip c0_control_or_space url in
  let url := remove_unsafe url in
  let '(scheme, url) := split_scheme url in
  let* (netloc, url) := split_netloc url in
  let '(url, fragment) := split_once "#" url in
  let '(url, query) := split_once "?" url in
  let* _ := _checknetloc netloc in
  Ok (mkSplit scheme netloc url query fragment).

Record ParseResult : Type := mkParse {
  scheme : string; netloc : string; path : string;
  params : string; query : string; fragment : string
}.

Definition urlparse (url : string) : result ParseResult :=
  let* sp := urlsplit url in
  let '(url, params) :=
    if in_list (s_scheme sp) uses_params && contains ";" (s_path sp)
    then _splitparams (s_path sp)
    else (s_path sp, "") in
  Ok (mkParse (s_scheme sp) (s_netloc sp) url params (s_query sp) (s_fragment sp)).

End WithRuntime.

Definition urlunsplit (scheme netloc url query fragment : string) : string :=
  let url :=
    if truthy netloc
       || (truthy scheme && in_list scheme uses_netloc
           && negb (String.eqb (take 2 url) "//"))
    then
      let url :=
        if truthy url && negb (String.eqb (take 1 url) "/")
        then "/" +:+ url else url in
      "//" +:+ netloc +:+ url
    else url in
  let url := if truthy scheme then scheme +:+ ":" +:+ url else url in
  let url := if truthy query then url +:+ "?" +:+ query else url in
  let url := if truthy fragment then url +:+ "#" +:+ fragment else url in
  url.

Definition urlunparse (scheme netloc url params query fragment : string) : string :=
  let url := if truthy params then url +:+ ";" +:+ params else url in
  urlunsplit scheme netloc url query fragment.

End UrlParse.

(** ** sfrog/utils/url_tools.py *)

Module UrlTools.
Import Py UrlParse.

(** [urllib.parse.urljoin] and the [yarl.URL] round trip
    [str(URL(joined).with_fragment(""))] are library code; both can raise
    on text they do not accept. *)
Class Resolver : Type := {
  urljoin : string -> string -> result string;
  yarl_with_fragment_empty : string -> result string
}.

(** [CANONICAL_SCHEME_RE.match(s)] for [re.compile(r"^https?$")]:
    [$] also matches just before a final newline. *)
Definition CANONICAL_SCHEME_RE_match (s : string) : bool :=
  in_list s ["http"; "https"; String.append "http" (String LF "");
             String.append "https" (String LF "")].

Section WithLibraries.
Context {RT : Runtime} {RS : Resolver}.

Definition normalize_url (base link : string) : result string :=
  let* joined := urljoin base link in
  yarl_with_fragment_empty joined.

Definition is_same_domain (url base : string) : result bool :=
  let* parsed_url := urlparse url in
  let* parsed_base := urlparse base in
  Ok (String.eqb (netloc parsed_url) (netloc parsed_base)).

Definition canonicalize (url : string) : result string :=
  let* parsed := urlparse url in
  let scheme :=
    if CANONICAL_SCHEME_RE_match (lower (scheme parsed))
    then lower (scheme parsed) else "http" in
  let netloc := lower (netloc parsed) in
  let path := if truthy (path parsed) then path parsed else "/" in
  let canonical := urlunparse scheme netloc path "" (query parsed) "" in
  Ok canonical.

Definition is_allowed_scheme (url : string) : result bool :=
  let* parsed := urlparse url in
  Ok (in_list (scheme parsed) ["http"; "https"; ""]).

End WithLibraries.

(** A path whose last segment carries no [;]: what [_splitparams] leaves
    untouched. *)
Definition last_segment_plain (p : string) : bool :=
  match rfind "/" p with
  | Some r => match find_from ";" p r with None => true | Some _ => false end
  | None => negb (contains ";" p)
  end.

(** The path of a canonical URL as [urlunsplit] writes it after an
    authority: [/] for an empty path, a leading [/] added to a relative one. *)
Definition rooted_path (p : string) : string :=
  if truthy p then
    if String.eqb (take 1 p) "/" then p else "/" +:+ p
  else "/".

(** A URL written out as [scheme://netloc/path?query], the query part only
    when there is a query. *)
Definition query_suffix (q : string) : string :=
  if truthy q then "?" +:+ q else "".
Definition assembled (s n p q : string) : string :=
  s +:+ ":" +:+ "//" +:+ n +:+ p +:+ query_suffix q.

(** [urlunsplit] writes [//netloc] in front of the path unless the netloc
    is empty and the path itself begins with [//]. *)
Definition authority_kept (n p : string) : bool :=
  truthy n || negb (String.eqb (take 2 p) "//").

(** The scheme a canonical URL is given. *)
Definition canonical_scheme (s : string) : string :=
  if in_list (lower s) ["http"; "https"] then lower s else "http".

End UrlTools.

(** ** sfrog/crawler/sitemap.py *)

Module Sitemap.
Import Py UrlParse UrlTools.

(** The values [xmltodict.parse] builds: an element without content is
    [None], one with text only is a [str], one with children or attributes
    is a [dict], and a repeated child tag is a [list]. *)
#[warnings="-register-all"]
Inductive xval : Type :=
  | XNone
  | XStr (s : string)
  | XDict (items : list (string * xval))
  | XList (l : list xval).

(** [xmltodict.parse(text)]: the document as a [dict] with the root tag as
    its only key, or an exception ([ExpatError] on malformed XML). *)
Class XmlToDict : Type := {
  xmltodict_parse : string -> result (list (string * xval))
}.

Fixpoint assoc {A} (k : string) (items : list (string * A)) : option A :=
  match items with
  | [] => None
  | (k', v) :: rest => if String.eqb k' k then Some v else assoc k rest
  end.

(** [v.get(k, default)]; only a [dict] has the method. *)
Definition xget (v : xval) (k : string) (default : xval) : result xval :=
  match v with
  | XDict items => Ok (match assoc k items with Some x => x | None => default end)
  | _ => Raise AttributeError
  end.

(** [isinstance(v, dict)] *)
Definition is_dict (v : xval) : bool :=
  match v with XDict _ => true | _ => false end.

(** [bool(v)] *)
Definition xtruthy (v : xval) : bool :=
  match v with
  | XNone => false
  | XStr s => truthy s
  | XDict items => match items with [] => false | _ => true end
  | XList l => match l with [] => false | _ => true end
  end.

(** [for x in v]: the sequence a [for] loop walks through. *)
Definition xiter (v : xval) : result (list xval) :=
  match v with
  | XList l => Ok l
  | XDict items => Ok (map (fun kv => XStr (fst kv)) items)
  | XStr s => Ok (map (fun c => XStr (String c "")) (list_ascii_of_string s))
  | XNone => Raise TypeError
  end.

Section WithLibraries.
Context {RT : Runtime} {RS : Resolver} {XD : XmlToDict}.

(** [normalize_url(base_url, loc)] for a truthy [loc]; [urljoin] rejects
    an argument that is not a [str]. *)
Definition normalize_loc (base_url : string) (loc : xval) : result string :=
  match loc with
  | XStr s => normalize_url base_url s
  | _ => Raise TypeError
  end.

(** The loop body shared by the two branches:
    [loc = entry.get("loc"); if loc: urls.append(normalize_url(base_url, loc))] *)
Fixpoint collect (base_url : string) (entries : list xval) (urls : list string)
  : result (list string) :=
  match entries with
  | [] => Ok urls
  | entry :: rest =>
      let* loc := xget entry "loc" XNone in
      if xtruthy loc then
        let* u := normalize_loc base_url loc in
        collect base_url rest (urls ++ [u])
      else collect base_url rest urls
  end.

(** One branch: [entries = data[root].get(child, [])], a lone [dict]
    wrapped in a list, then the loop. *)
Definition branch (base_url : string) (root : xval) (child : string)
  : result (list string) :=
  let* entries := xget root child (XList []) in
  let entries := if is_dict entries then XList [entries] else entries in
  let* seq := xiter entries in
  collect base_url seq [].

Definition parse_sitemap (base_url text : string) : result (list string) :=
  let* data := xmltodict_parse text in
  match assoc "urlset" data with
  | Some urlset => branch base_url urlset "url"
  | None =>
      match assoc "sitemapindex" data with
      | Some index => branch base_url index "sitemap"
      | None => Ok []
      end
  end.

End WithLibraries.

(** A [<url>] or [<sitemap>] element whose only child is [<loc>text</loc>]. *)
Definition loc_entry (loc : string) : xval := XDict [("loc", XStr loc)].

(** [v] is what the document holds under [urlset]/[url] or, without a
    [urlset], under [sitemapindex]/[sitemap]. *)
Definition entries_of (data : list (string * xval)) (v : xval) : Prop :=
  (exists items, assoc "urlset" data = Some (XDict items) /\
                 assoc "url" items = Some v) \/
  (exists items, assoc "urlset" data = None /\
                 assoc "sitemapindex" data = Some (XDict items) /\
                 assoc "sitemap" items = Some v).

(** The non-empty [loc] texts, normalized in document order. *)
Fixpoint normalized_locs `{Resolver} (base_url : string) (locs : list string)
  : result (list string) :=
  match locs with
  | [] => Ok []
  | loc :: rest =>
      if truthy loc then
        let* u := normalize_url base_url loc in
        let* us := normalized_locs base_url rest in
        Ok (u :: us)
      else normalized_locs base_url rest
  end.

End Sitemap.

(** ** sfrog/crawler/fetcher.py *)

Module Fetcher.
Import Py.

Record FetchResult : Type := mkFetchResult {
  url : string;
  status : option Z;
  headers : gmap string string;
  content : option string;
  elapsed : PrimFloat.float;
  redirected_url : option string;
  error : option string
}.

(** What [session.get(url, allow_redirects=True)] and [resp.read()] come
    back with. [resp_headers] lists [resp.headers.items()] in order, each
    name spelled as the multidict yields it. *)
Inductive Outcome : Type :=
  | Responded (resp_url : string) (resp_status : Z)
      (resp_headers : list (string * string)) (body : string)
      (seconds : PrimFloat.float)
  | TimedOut (seconds : PrimFloat.float)
  | ClientFailed (message : string) (seconds : PrimFloat.float)
  | Crashed (e : exn).

(** [{k: v for k, v in items}]: a plain [dict]; a later item replaces an
    earlier one under the very same key. *)
Definition dict_of_items (items : list (string * string)) : gmap string string :=
  foldl (fun d kv => <[fst kv := snd kv]> d) ∅ items.

Definition fetch (url : string) (o : Outcome) : result FetchResult :=
  match o with
  | Responded resp_url resp_status resp_headers body seconds =>
      let redirected_url :=
        if negb (String.eqb resp_url url) then Some resp_url else None in
      let headers := dict_of_items resp_headers in
      Ok (mkFetchResult url (Some resp_status) headers (Some body) seconds
            redirected_url None)
  | TimedOut seconds =>
      Ok (mkFetchResult url None ∅ None seconds None (Some "timeout"))
  | ClientFailed message seconds =>
      Ok (mkFetchResult url None ∅ None seconds None (Some message))
  | Crashed e => Raise e
  end.

(** [headers.get(name, "")] *)
Definition header_get (h : gmap string string) (name : string) : string :=
  default "" (h !! name).

End Fetcher.

(** ** sfrog/crawler/parser.py *)

Module Parser.
Import Py UrlParse UrlTools.

(** A node as [selectolax] shows it: [node.tag], [node.attributes] (an
    attribute without a value maps to [None]) and [node.text(strip=True)]. *)
Record Node : Type := mkNode {
  tag : string;
  attributes : list (string * option string);
  text : string
}.

(** [HTMLParser(html).css(selector)] *)
Class Selectolax : Type := {
  css : string -> string -> result (list Node)
}.

Record ParsedPage : Type := mkParsedPage {
  url : string;
  title : option string;
  meta_description : option string;
  canonical : option string;
  headings : list (string * string);
  internal_links : list string;
  external_links : list string;
  images : list string
}.

(** [node.attributes.get(name)] and [node.attributes.get(name, "")] *)
Definition attr (n : Node) (name : string) : option string :=
  match Sitemap.assoc name (attributes n) with
  | Some v => v
  | None => None
  end.

Definition attr_or_empty (n : Node) (name : string) : option string :=
  match Sitemap.assoc name (attributes n) with
  | Some v => v
  | None => Some ""
  end.

(** [v.lower() == s] where [v] may be [None], which has no [lower]. *)
Definition lower_is (v : option string) (s : string) : result bool :=
  match v with
  | Some x => Ok (String.eqb (lower x) s)
  | None => Raise AttributeError
  end.

Fixpoint _first_text (nodes : list Node) : option string :=
  match nodes with
  | [] => None
  | node :: rest => if truthy (text node) then Some (text node) else _first_text rest
  end.

Section WithLibraries.
Context {RT : Runtime} {RS : Resolver} {SX : Selectolax}.

Fixpoint find_meta_description (nodes : list Node) : result (option string) :=
  match nodes with
  | [] => Ok None
  | node :: rest =>
      let* hit := lower_is (attr_or_empty node "name") "description" in
      if hit then Ok (attr node "content") else find_meta_description rest
  end.

Fixpoint find_canonical (url : string) (nodes : list Node) : result (option string) :=
  match nodes with
  | [] => Ok None
  | node :: rest =>
      let* hit := lower_is (attr_or_empty node "rel") "canonical" in
      if hit then
        let* c := normalize_url url (default "" (attr_or_empty node "href")) in
        Ok (Some c)
      else find_canonical url rest
  end.

Definition collect_headings (nodes : list Node) : list (string * string) :=
  omap (fun node =>
          if truthy (text node) then Some (lower (tag node), text node) else None)
       nodes.

Fixpoint split_links (url base_url : string) (nodes : list Node)
    (internal external : list string) : result (list string * list string) :=
  match nodes with
  | [] => Ok (internal, external)
  | node :: rest =>
      match attr node "href" with
      | Some href =>
          if truthy href then
            let* normalized := normalize_url url href in
            let* same := is_same_domain normalized base_url in
            if same
            then split_links url base_url rest (internal ++ [normalized]) external
            else split_links url base_url rest internal (external ++ [normalized])
          else split_links url base_url rest internal external
      | None => split_links url base_url rest internal external
      end
  end.

Definition collect_images (nodes : list Node) : list string :=
  omap (fun node =>
          match attr node "alt" with
          | Some alt => if truthy alt then Some alt else None
          | None => None
          end) nodes.

Definition parse_html (url base_url html : string) : result ParsedPage :=
  let* titles := css html "title" in
  let title := _first_text titles in
  let* metas := css html "meta" in
  let* meta_description := find_meta_description metas in
  let* links := css html "link" in
  let* canonical := find_canonical url links in
  let* hs := css html "h1, h2, h3, h4, h5, h6" in
  let headings := collect_headings hs in
  let* anchors := css html "a" in
  let* (internal_links, external_links) := split_links url base_url anchors [] [] in
  let* imgs := css html "img" in
  let images := collect_images imgs in
  Ok (mkParsedPage url title meta_description canonical headings
        internal_links external_links images).

End WithLibraries.
End Parser.

(** ** sfrog/crawler/robots.py *)

Module Robots.
Import Py.

(** A parsed robots file: [robots.allowed(url, user_agent)]. *)
Definition RobotsObj : Type := string -> string -> result bool.

(** The optional [robots_txt_parser] import: [None] when it is missing,
    otherwise [Robots.parse]. *)
Class RobotsLib : Type := {
  Robots : option (string -> result RobotsObj)
}.

Record RobotsRules : Type := mkRobotsRules {
  user_agent : string;
  robots : option RobotsObj
}.

Section WithLibraries.
Context {RL : RobotsLib}.

Definition allows (self : RobotsRules) (url : string) : bool :=
  match Robots, robots self with
  | Some _, Some r => except_all (r url (user_agent self)) true
  | _, _ => true
  end.

Definition build_robots (user_agent : string) (text : option string) : RobotsRules :=
  let robots :=
    match text, Robots with
    | Some t, Some parse =>
        if truthy t then except_all (let* r := parse t in Ok (Some r)) None else None
    | _, _ => None
    end in
  mkRobotsRules user_agent robots.

End WithLibraries.
End Robots.

(** ** sfrog/crawler/manager.py *)

Module Manager.
Import Py UrlParse UrlTools.

Record PageData : Type := mkPageData {
  url : string;
  status : option Z;
  title : option string;
  meta_description : option string;
  canonical : option string;
  headings : list (string * string);
  internal_links : list string;
  external_links : list string;
  h1_count : nat;
  content_hash : option string;
  response_time : PrimFloat.float;
  redirect_target : option string;
  error : option string
}.

Record CrawlResult : Type := mkCrawlResult {
  r_pages : list PageData;
  r_edges : list (string * string);
  r_duplicate_map : gmap string (list string);
  r_broken_links : list PageData
}.

(** A frontier entry [(url, depth, source)]. *)
Definition Entry : Type := string * Z * option string.

Definition entry_url (e : Entry) : string := fst (fst e).
Definition entry_depth (e : Entry) : Z := snd (fst e).
Definition entry_source (e : Entry) : option string := snd e.

(** The rest of the platform: [hashlib.md5(b).hexdigest()],
    [b.decode("utf-8", errors="ignore")] and
    [str(URL(u).with_path(p))]. Byte strings are [string]s too. *)
Class Platform : Type := {
  md5_hexdigest : string -> string;
  decode_utf8_ignore : string -> string;
  yarl_with_path : string -> string -> result string
}.

(** The constructor arguments kept on [self]; [base_url] is already
    canonical. *)
Record Config : Type := mkConfig {
  base_url : string;
  max_depth : Z;
  threads : nat;
  user_agent : string;
  _progress_callback : option (PageData -> result unit)
}.

(** A worker task is suspended either in [queue.get()] or, inside
    [_process_url], in the fetch of the entry it took; an exception that
    leaves [_process_url] ends the task. The semaphore has as many permits
    as there are workers and never makes one wait. *)
Inductive Worker : Type :=
  | Waiting
  | Fetching (e : Entry)
  | Failed (ex : exn).

(** The mutable attributes of [self], and the worker tasks. *)
Record State : Type := mkState {
  queue : list Entry;
  visited : gset string;
  enqueued : gset string;
  edges : list (string * string);
  pages : list PageData;
  duplicate_map : gmap string (list string);
  broken_links : list PageData;
  robots : option Robots.RobotsRules;
  workers : list Worker
}.

Definition initial_state : State :=
  mkState [] ∅ ∅ [] [] ∅ [] None [].

Definition queue_put (e : Entry) (s : State) : State :=
  mkState (queue s ++ [e]) (visited s) (enqueued s) (edges s) (pages s)
    (duplicate_map s) (broken_links s) (robots s) (workers s).
Definition queue_pop (s : State) : State :=
  mkState (tail (queue s)) (visited s) (enqueued s) (edges s) (pages s)
    (duplicate_map s) (broken_links s) (robots s) (workers s).
Definition visited_add (u : string) (s : State) : State :=
  mkState (queue s) (visited s ∪ {[u]}) (enqueued s) (edges s) (pages s)
    (duplicate_map s) (broken_links s) (robots s) (workers s).
Definition enqueued_add (u : string) (s : State) : State :=
  mkState (queue s) (visited s) (enqueued s ∪ {[u]}) (edges s) (pages s)
    (duplicate_map s) (broken_links s) (robots s) (workers s).
Definition edges_append (e : string * string) (s : State) : State :=
  mkState (queue s) (visited s) (enqueued s) (edges s ++ [e]) (pages s)
    (duplicate_map s) (broken_links s) (robots s) (workers s).
Definition pages_append (p : PageData) (s : State) : State :=
  mkState (queue s) (visited s) (enqueued s) (edges s) (pages s ++ [p])
    (duplicate_map s) (broken_links s) (robots s) (workers s).
Definition broken_links_append (p : PageData) (s : State) : State :=
  mkState (queue s) (visited s) (enqueued s) (edges s) (pages s)
    (duplicate_map s) (broken_links s ++ [p]) (robots s) (workers s).
(** [bucket = self.duplicate_map.setdefault(h, []); bucket.append(u)] *)
Definition duplicate_map_append (h u : string) (s : State) : State :=
  mkState (queue s) (visited s) (enqueued s) (edges s) (pages s)
    (<[h := default [] (duplicate_map s !! h) ++ [u]]> (duplicate_map s))
    (broken_links s) (robots s) (workers s).
Definition set_robots (r : Robots.RobotsRules) (s : State) : State :=
  mkState (queue s) (visited s) (enqueued s) (edges s) (pages s)
    (duplicate_map s) (broken_links s) (Some r) (workers s).
Definition set_workers (ws : list Worker) (s : State) : State :=
  mkState (queue s) (visited s) (enqueued s) (edges s) (pages s)
    (duplicate_map s) (broken_links s) (robots s) ws.

(** What an atomic section does to the frontier and to [pages], kept as
    a trace next to the state. *)
Inductive Action : Type :=
  | Put (e : Entry)
  | Process (e : Entry)
  | Emit (e : Entry) (p : PageData).

(** Truthiness of the optional values the code tests with [if x:]. *)
Definition truthy_str (o : option string) : bool :=
  match o with Some x => truthy x | None => false end.
Definition truthy_int (o : option Z) : bool :=
  match o with Some z => negb (z =? 0)%Z | None => false end.

Definition option_ge (o : option Z) (n : Z) : bool :=
  match o with Some z => (n <=? z)%Z | None => false end.
Definition option_lt (o : option Z) (n : Z) : bool :=
  match o with Some z => (z <? n)%Z | None => false end.

Section WithLibraries.
Context {RT : Runtime} {RS : Resolver} {XD : Sitemap.XmlToDict}
        {SX : Parser.Selectolax} {RL : Robots.RobotsLib} {PF : Platform}.
Variable cfg : Config.

Definition _maybe_parse_html (url : string) (result : Fetcher.FetchResult)
  : option Parser.ParsedPage :=
  let content_type :=
    lower (strip (fst (fst (partition ";"
      (Fetcher.header_get (Fetcher.headers result) "Content-Type"))))) in
  if truthy content_type && negb (has_substring "html" content_type) then None
  else
    match Fetcher.content result with
    | Some body =>
        if truthy body then
          let html := decode_utf8_ignore body in
          except_all
            (let* parsed := Parser.parse_html url (base_url cfg) html in
             Ok (Some parsed))
            None
        else None
    | None => None
    end.

Definition _build_page (result : Fetcher.FetchResult)
    (parsed : option Parser.ParsedPage) (content_hash : option string) : PageData :=
  let headings :=
    match parsed with Some p => Parser.headings p | None => [] end in
  let h1_count :=
    length (filter (fun h => fst h = "h1") headings) in
  mkPageData
    (Fetcher.url result)
    (Fetcher.status result)
    (match parsed with Some p => Parser.title p | None => None end)
    (match parsed with Some p => Parser.meta_description p | None => None end)
    (match parsed with Some p => Parser.canonical p | None => None end)
    headings
    (match parsed with Some p => Parser.internal_links p | None => [] end)
    (match parsed with Some p => Parser.external_links p | None => [] end)
    h1_count
    content_hash
    (Fetcher.elapsed result)
    (Fetcher.redirected_url result)
    (Fetcher.error result).

(** [_prepare_seed_urls]: the loop over the sitemap's URLs. *)
Fixpoint seed_loop (urls : list string) (s : State) : result (State * list Action) :=
  match urls with
  | [] => Ok (s, [])
  | url :: rest =>
      let* same := is_same_domain url (base_url cfg) in
      if same && bool_decide (url ∉ enqueued s) then
        let e : Entry := (url, 0%Z, None) in
        let s := enqueued_add url (queue_put e s) in
        let* (s', acts) := seed_loop rest s in
        Ok (s', Put e :: acts)
      else seed_loop rest s
  end.

Definition _prepare_seed_urls (s : State) (robots_o sitemap_o : Fetcher.Outcome)
  : result (State * list Action) :=
  let e0 : Entry := (base_url cfg, 0%Z, None) in
  let s := enqueued_add (base_url cfg) (queue_put e0 s) in
  let* robots_url := yarl_with_path (base_url cfg) "/robots.txt" in
  let* robots_result := Fetcher.fetch robots_url robots_o in
  let text :=
    match Fetcher.content robots_result with
    | Some c => if truthy c then Some (decode_utf8_ignore c) else None
    | None => None
    end in
  let s := set_robots (Robots.build_robots (user_agent cfg) text) s in
  let* sitemap_url := yarl_with_path (base_url cfg) "/sitemap.xml" in
  let* sitemap_result := Fetcher.fetch sitemap_url sitemap_o in
  if truthy_int (Fetcher.status sitemap_result)
     && option_lt (Fetcher.status sitemap_result) 400
     && truthy_str (Fetcher.content sitemap_result)
  then
    let urls :=
      except_all
        (Sitemap.parse_sitemap (base_url cfg)
           (decode_utf8_ignore (default "" (Fetcher.content sitemap_result))))
        [] in
    let* (s', acts) := seed_loop urls s in
    Ok (s', Put e0 :: acts)
  else Ok (s, [Put e0]).

(** [self.robots and not self.robots.allows(url)] *)
Definition robots_denies (s : State) (url : string) : bool :=
  match robots s with
  | Some r => negb (Robots.allows r url)
  | None => false
  end.

(** [_process_url] from its first line to the point where it waits for
    the fetch. *)
Definition process_url_head (e : Entry) (s : State) : State * list Action * Worker :=
  let '(url, depth, source) := e in
  if bool_decide (url ∈ visited s) then (s, [], Waiting)
  else
    let s := visited_add url s in
    if robots_denies s url then (s, [Process e], Waiting)
    else if (max_depth cfg <? depth)%Z then (s, [Process e], Waiting)
    else
      let s :=
        match source with
        | Some src => if truthy src then edges_append (src, url) s else s
        | None => s
        end in
      (s, [Process e], Fetching e).

(** The loop over [parsed.internal_links]. *)
Fixpoint harvest (url : string) (depth : Z) (links : list string) (s : State)
  : State * list Action * result unit :=
  match links with
  | [] => (s, [], Ok tt)
  | link :: rest =>
      match is_allowed_scheme link with
      | Raise ex => (s, [], Raise ex)
      | Ok false => harvest url depth rest s
      | Ok true =>
          if bool_decide (link ∉ visited s) && bool_decide (link ∉ enqueued s) then
            match is_same_domain link (base_url cfg) with
            | Raise ex => (s, [], Raise ex)
            | Ok false => harvest url depth rest s
            | Ok true =>
                let e : Entry := (link, (depth + 1)%Z, Some url) in
                let s := enqueued_add link (queue_put e s) in
                let '(s', acts, r) := harvest url depth rest s in
                (s', Put e :: acts, r)
            end
          else harvest url depth rest s
      end
  end.

Definition worker_after (r : result unit) : Worker :=
  match r with Ok _ => Waiting | Raise ex => Failed ex end.

(** [if result.content:] the digest, the parse attempt and the bucket. *)
Definition digest_and_parse (url : string) (result : Fetcher.FetchResult) (s : State)
  : State * option string * option Parser.ParsedPage :=
  match Fetcher.content result with
  | Some body =>
      if truthy body then
        let content_hash := md5_hexdigest body in
        let parsed := _maybe_parse_html url result in
        let s :=
          if truthy content_hash
          then duplicate_map_append content_hash url s else s in
        (s, Some content_hash, parsed)
      else (s, None, None)
  | None => (s, None, None)
  end.

(** [self.pages.append(page)] and the [broken_links] test. *)
Definition record_page (page : PageData) (s : State) : State :=
  let s := pages_append page s in
  if truthy_int (status page) && option_ge (status page) 400
  then broken_links_append page s else s.

(** [if self._progress_callback: self._progress_callback(page)] *)
Definition notify (page : PageData) : result unit :=
  match _progress_callback cfg with
  | Some callback => callback page
  | None => Ok tt
  end.

(** [_process_url] from the return of the fetch to its end. *)
Definition process_url_tail (e : Entry) (o : Fetcher.Outcome) (s : State)
  : State * list Action * Worker :=
  let '(url, depth, source) := e in
  match Fetcher.fetch url o with
  | Raise ex => (s, [], Failed ex)
  | Ok result =>
      let '(s, content_hash, parsed) := digest_and_parse url result s in
      let page := _build_page result parsed content_hash in
      let s := record_page page s in
      match notify page with
      | Raise ex => (s, [Emit e page], Failed ex)
      | Ok _ =>
          match parsed with
          | None => (s, [Emit e page], Waiting)
          | Some pp =>
              let '(s', acts, r) :=
                harvest url depth (Parser.internal_links pp) s in
              (s', Emit e page :: acts, worker_after r)
          end
      end
  end.

(** The scheduler's choices: which waiting worker receives the head of
    the queue, and which pending fetch completes, with what. *)
Inductive Event : Type :=
  | Take (w : nat)
  | Fetched (w : nat) (o : Fetcher.Outcome).

Definition step (s : State) (ev : Event) : option (State * list Action) :=
  match ev with
  | Take w =>
      match workers s !! w, queue s with
      | Some Waiting, e :: _ =>
          let '(s', acts, wk) := process_url_head e (queue_pop s) in
          Some (set_workers (<[w := wk]> (workers s')) s', acts)
      | _, _ => None
      end
  | Fetched w o =>
      match workers s !! w with
      | Some (Fetching e) =>
          let '(s', acts, wk) := process_url_tail e o s in
          Some (set_workers (<[w := wk]> (workers s')) s', acts)
      | _ => None
      end
  end.

Fixpoint run (s : State) (evs : list Event) : option (State * list Action) :=
  match evs with
  | [] => Some (s, [])
  | ev :: rest =>
      match step s ev with
      | Some (s1, a1) =>
          match run s1 rest with
          | Some (s2, a2) => Some (s2, a1 ++ a2)
          | None => None
          end
      | None => None
      end
  end.

(** [crawl] up to some point of its execution: the seeding, the start of
    [threads] workers, and a schedule of events. *)
Definition crawl_prefix (robots_o sitemap_o : Fetcher.Outcome) (evs : list Event)
  : option (State * list Action) :=
  match _prepare_seed_urls initial_state robots_o sitemap_o with
  | Ok (s0, a0) =>
      match run (set_workers (replicate (threads cfg) Waiting) s0) evs with
      | Some (s, a) => Some (s, a0 ++ a)
      | None => None
      end
  | Raise _ => None
  end.

(** [queue.join()] returns: nothing queued, nothing taken and not yet
    marked done. *)
Definition is_fetching (w : Worker) : bool :=
  match w with Fetching _ => true | _ => false end.
Definition drained (s : State) : bool :=
  match queue s with
  | [] => negb (existsb is_fetching (workers s))
  | _ => false
  end.

(** [{k: v for k, v in m.items() if len(v) > 1}], as written in [crawl]. *)
Definition with_several_urls (m : gmap string (list string))
  : gmap string (list string) :=
  filter (fun kv => (1 <? length (snd kv))%nat) m.

(** The [CrawlResult] built on the last lines of [crawl]. *)
Definition crawl_result (s : State) : CrawlResult :=
  mkCrawlResult
    (pages s)
    (edges s)
    (with_several_urls (duplicate_map s))
    (broken_links s).

Definition crawl (robots_o sitemap_o : Fetcher.Outcome) (evs : list Event)
  : option CrawlResult :=
  match crawl_prefix robots_o sitemap_o evs with
  | Some (s, _) => if drained s then Some (crawl_result s) else None
  | None => None
  end.

End WithLibraries.

(** [CrawlManager(base_url, ...)]: the constructor canonicalizes. *)
Definition new `{Runtime} (base_url : string) (max_depth : Z) (threads : nat)
    (user_agent : string) (progress_callback : option (PageData -> result unit))
  : result Config :=
  let* b := canonicalize base_url in
  Ok (mkConfig b max_depth threads user_agent progress_callback).

(** Projections of a trace. *)
Definition put_urls (tr : list Action) : list string :=
  omap (fun a => match a with Put e => Some (entry_url e) | _ => None end) tr.
Definition processed_urls (tr : list Action) : list string :=
  omap (fun a => match a with Process e => Some (entry_url e) | _ => None end) tr.
Definition puts (tr : list Action) : list Entry :=
  omap (fun a => match a with Put e => Some e | _ => None end) tr.
Definition emitted (tr : list Action) : list (Entry * PageData) :=
  omap (fun a => match a with Emit e p => Some (e, p) | _ => None end) tr.

End Manager.

(** ** What the crawl manager is to maintain *)

Module ManagerSpec.
Import Py UrlParse UrlTools Manager.

(** The attributes of [self] that the two enqueueing loops leave alone. *)
Definition same_records (s s' : State) : Prop :=
  visited s' = visited s /\ edges s' = edges s /\ pages s' = pages s /\
  duplicate_map s' = duplicate_map s /\ broken_links s' = broken_links s /\
  robots s' = robots s /\ workers s' = workers s.

(** What a loop that enqueues did, read off its trace. *)
Definition enqueued_exactly (s s' : State) (acts : list Action) : Prop :=
  queue s' = queue s ++ puts acts /\
  enqueued s' = enqueued s ∪ list_to_set (put_urls acts) /\
  NoDup (put_urls acts) /\
  forall u, u ∈ put_urls acts -> u ∉ enqueued s.

Section WithLibraries.
Context {RT : Runtime} {RS : Resolver} {XD : Sitemap.XmlToDict}
        {SX : Parser.Selectolax} {RL : Robots.RobotsLib} {PF : Platform}.
Variable cfg : Config.

(** Every entry the harvesting loop enqueues is a link of the page, one
    level below the entry being processed and with its URL as source; it
    passed the scheme filter and the same-host test, and was neither
    visited nor enqueued. *)
Definition harvested (url : string) (depth : Z) (links : list string)
    (s : State) (a : Action) : Prop :=
  exists link, a = Put (link, (depth + 1)%Z, Some url) /\ link ∈ links /\
    is_allowed_scheme link = Ok true /\
    is_same_domain link (base_url cfg) = Ok true /\
    link ∉ visited s.

(** The first half of [_process_url]. *)
Inductive head_outcome (e : Entry) (s s' : State) : list Action -> Worker -> Prop :=
  | head_seen :
      entry_url e ∈ visited s -> s' = s ->
      head_outcome e s s' [] Waiting
  | head_skipped :
      entry_url e ∉ visited s ->
      s' = visited_add (entry_url e) s ->
      (robots_denies s' (entry_url e) = true \/
       (max_depth cfg < entry_depth e)%Z) ->
      head_outcome e s s' [Process e] Waiting
  | head_fetching :
      entry_url e ∉ visited s ->
      robots_denies (visited_add (entry_url e) s) (entry_url e) = false ->
      (entry_depth e <= max_depth cfg)%Z ->
      s' = match entry_source e with
           | Some src =>
               if truthy src
               then edges_append (src, entry_url e) (visited_add (entry_url e) s)
               else visited_add (entry_url e) s
           | None => visited_add (entry_url e) s
           end ->
      head_outcome e s s' [Process e] (Fetching e).

(** The page record and the bookkeeping done when a fetch has returned. *)
Definition recorded (e : Entry) (page : PageData) (s s1 : State) : Prop :=
  queue s1 = queue s /\ enqueued s1 = enqueued s /\ visited s1 = visited s /\
  edges s1 = edges s /\ robots s1 = robots s /\ workers s1 = workers s /\
  pages s1 = pages s ++ [page] /\ url page = entry_url e /\
  (duplicate_map s1 = duplicate_map s \/
   exists h, content_hash page = Some h /\
     duplicate_map s1 =
       <[h := default [] (duplicate_map s !! h) ++ [entry_url e]]> (duplicate_map s)).

(** The second half of [_process_url]. *)
Inductive tail_outcome (e : Entry) (s s' : State) : list Action -> Worker -> Prop :=
  | tail_crashed ex :
      s' = s -> tail_outcome e s s' [] (Failed ex)
  | tail_emitted page s1 links acts wk :
      recorded e page s s1 ->
      same_records s1 s' ->
      enqueued_exactly s1 s' acts ->
      Forall (harvested (entry_url e) (entry_depth e) links s1) acts ->
      (forall e', wk <> Fetching e') ->
      tail_outcome e s s' (Emit e page :: acts) wk.

(** One scheduler event, seen through the two halves of [_process_url]. *)
Inductive step_outcome (s s' : State) (acts : list Action) : Prop :=
  | step_take w e q s1 wk :
      workers s !! w = Some Waiting ->
      queue s = e :: q ->
      head_outcome e (queue_pop s) s1 acts wk ->
      s' = set_workers (<[w := wk]> (workers s1)) s1 ->
      step_outcome s s' acts
  | step_fetched w e s1 wk :
      workers s !! w = Some (Fetching e) ->
      tail_outcome e s s1 acts wk ->
      s' = set_workers (<[w := wk]> (workers s1)) s1 ->
      step_outcome s s' acts.

(** The frontier admits a URL once, and [enqueued] remembers it. *)
Definition frontier_inv (s : State) (tr : list Action) : Prop :=
  NoDup (put_urls tr) /\ forall u, u ∈ put_urls tr -> u ∈ enqueued s.

(** A URL passes the visited check once, and [visited] remembers it. *)
Definition visited_inv (s : State) (tr : list Action) : Prop :=
  NoDup (processed_urls tr) /\ forall u, u ∈ processed_urls tr -> u ∈ visited s.

(** No fetch is awaited, and no page emitted, beyond the depth limit. *)
Definition depth_inv (s : State) (tr : list Action) : Prop :=
  (forall w e, workers s !! w = Some (Fetching e) ->
     (entry_depth e <= max_depth cfg)%Z) /\
  (forall e p, (e, p) ∈ emitted tr -> (entry_depth e <= max_depth cfg)%Z).

(** Every URL of a bucket has its page. *)
Definition duplicates_inv (s : State) : Prop :=
  forall h urls u,
    duplicate_map s !! h = Some urls -> u ∈ urls ->
    exists p, p ∈ pages s /\ url p = u /\ content_hash p = Some h.

(** [pages] holds the emitted pages, in order. *)
Definition pages_inv (s : State) (tr : list Action) : Prop :=
  pages s = (emitted tr).*2.

(** All of them together. *)
Definition crawl_inv (s : State) (tr : list Action) : Prop :=
  frontier_inv s tr /\ visited_inv s tr /\ depth_inv s tr /\
  pages_inv s tr /\ duplicates_inv s.

End WithLibraries.
End ManagerSpec.

(** ** sfrog/analysis/duplicates.py *)

Module Duplicates.

Definition summarize_duplicates (duplicate_map : gmap string (list string))
  : gmap string (list string) :=
  filter (fun item => (1 <? length (snd item))%nat) duplicate_map.

Definition pages_by_hash (pages : list Manager.PageData) : gmap string (list string) :=
  let mapping :=
    foldl (fun m page =>
             match Manager.content_hash page with
             | Some h =>
                 if Py.truthy h
                 then <[h := default [] (m !! h) ++ [Manager.url page]]> m
                 else m
             | None => m
             end) ∅ pages in
  summarize_duplicates mapping.

End Duplicates.

(** ** What the HTML parser returns *)

Module ParserSpec.
Import Py UrlParse UrlTools Parser.

(** The [href] values the loop over [parser.css("a")] goes on with, after
    [if not href: continue]. *)
Definition hrefs (nodes : list Node) : list string :=
  omap (fun node =>
          match attr node "href" with
          | Some href => if truthy href then Some href else None
          | None => None
          end) nodes.

(** [is_same_domain(link, base_url)] as a test. *)
Definition on_host `{Runtime} (base_url link : string) : bool :=
  match is_same_domain link base_url with
  | Ok same => same
  | Raise _ => false
  end.

(** A [meta] or [link] element the loops pass by: the attribute is absent
    or has a value other than the one looked for. *)
Definition passed_by (name value : string) (node : Node) : Prop :=
  exists v, attr_or_empty node name = Some v /\ lower v <> value.

End ParserSpec.

(** ** Sitemap entries with further children *)

Module SitemapSpec.
Import Py Sitemap.

(** The text of the [loc] of a [<url>] or [<sitemap>] element that may
    have other children ([lastmod], [priority], ...): the empty text when
    there is no [loc] or an empty one; [None] for an entry that is no
    [dict] or whose [loc] is no text. *)
Definition loc_text (entry : xval) : option string :=
  match entry with
  | XDict items =>
      match assoc "loc" items with
      | None => Some ""
      | Some XNone => Some ""
      | Some (XStr s) => Some s
      | Some _ => None
      end
  | _ => None
  end.

End SitemapSpec.

(** ** What the parse gate reads off a header *)

Module FetcherSpec.
Import Py.

(** The media type that the gate of [_maybe_parse_html] takes from the
    value of a header: [value.split(";")[0].strip().lower()]. *)
Definition media_type (value : string) : string :=
  lower (strip (fst (fst (partition ";" value)))).

End FetcherSpec.

(** ** The books the crawl manager keeps

    Further invariants of [sfrog/crawler/manager.py]: how [broken_links],
    [duplicate_map], [edges], the queue and the two URL sets follow from
    the pages and the frontier entries. *)

Module CrawlSpec.
Import Py UrlParse UrlTools Manager.

(** [page.status and page.status >= 400] *)
Definition is_broken (page : PageData) : bool :=
  truthy_int (status page) && option_ge (status page) 400.

(** The body of the loop of [pages_by_hash]:
    [if not page.content_hash: continue] and
    [mapping.setdefault(page.content_hash, []).append(page.url)]. *)
Definition bucket_step (m : gmap string (list string)) (page : PageData)
  : gmap string (list string) :=
  match content_hash page with
  | Some h =>
      if truthy h then <[h := default [] (m !! h) ++ [url page]]> m else m
  | None => m
  end.

Definition hash_buckets (pages : list PageData) : gmap string (list string) :=
  foldl bucket_step ∅ pages.

(** The message and the elapsed time of a fetch that ended in
    [asyncio.TimeoutError] or [aiohttp.ClientError]. *)
Definition transport_error (o : Fetcher.Outcome)
  : option (string * PrimFloat.float) :=
  match o with
  | Fetcher.TimedOut seconds => Some ("timeout", seconds)
  | Fetcher.ClientFailed message seconds => Some (message, seconds)
  | _ => None
  end.

(** The page recorded for such a fetch. *)
Definition error_page (url message : string) (seconds : PrimFloat.float)
  : PageData :=
  mkPageData url None None None None [] [] [] 0 None seconds None (Some message).

(** The body a response carries, if there is one. *)
Definition body_of (o : Fetcher.Outcome) : option string :=
  match o with
  | Fetcher.Responded _ _ _ body _ => Some body
  | _ => None
  end.

Section WithLibraries.
Context {RT : Runtime} {RS : Resolver} {XD : Sitemap.XmlToDict}
        {SX : Parser.Selectolax} {RL : Robots.RobotsLib} {PF : Platform}.
Variable cfg : Config.

(** [broken_links] and [duplicate_map] are functions of [pages]. *)
Definition books_inv (s : State) : Prop :=
  broken_links s = filter (fun p => is_broken p = true) (pages s) /\
  duplicate_map s = hash_buckets (pages s).

(** A URL has one page at most; it is fetched by one worker at most, after
    it was marked visited and before its page is recorded. *)
Definition visits_inv (s : State) : Prop :=
  NoDup (map url (pages s)) /\
  (forall p, p ∈ pages s -> url p ∈ visited s) /\
  (forall w e, workers s !! w = Some (Fetching e) ->
     entry_url e ∈ visited s /\ entry_url e ∉ map url (pages s)) /\
  (forall w w' e e',
     workers s !! w = Some (Fetching e) ->
     workers s !! w' = Some (Fetching e') ->
     entry_url e = entry_url e' -> w = w').

(** The queue holds a URL once, and only URLs still to be visited;
    [enqueued] is [visited] together with the URLs in the queue. *)
Definition queue_inv (s : State) : Prop :=
  NoDup (map entry_url (queue s)) /\
  (forall u, u ∈ map entry_url (queue s) -> u ∉ visited s) /\
  (forall u, u ∈ enqueued s <-> u ∈ visited s \/ u ∈ map entry_url (queue s)).

(** The shape of a frontier entry: a seed at depth 0 without a source, or
    a link found on a page, one level below it. *)
Definition well_formed (e : Entry) : Prop :=
  (0 <= entry_depth e <= Z.max 0 (max_depth cfg + 1))%Z /\
  (entry_source e = None <-> entry_depth e = 0%Z) /\
  (entry_url e = base_url cfg \/
   is_same_domain (entry_url e) (base_url cfg) = Ok true).

(** Where the source of an entry comes from. *)
Definition sourced (s : State) (e : Entry) : Prop :=
  forall src, entry_source e = Some src ->
    src ∈ map url (pages s) /\ src <> entry_url e.

Definition entries_inv (s : State) (tr : list Action) : Prop :=
  (forall e, e ∈ puts tr -> well_formed e /\ sourced s e) /\
  (forall e, e ∈ queue s -> e ∈ puts tr) /\
  (forall w e, workers s !! w = Some (Fetching e) ->
     e ∈ puts tr /\ (entry_depth e <= max_depth cfg)%Z) /\
  (forall e p, (e, p) ∈ emitted tr -> e ∈ puts tr /\ url p = entry_url e).

(** An edge is the source and the URL of an entry that went to the fetch. *)
Definition edges_inv (s : State) (tr : list Action) : Prop :=
  NoDup (edges s).*2 /\
  forall src t, (src, t) ∈ edges s ->
    t ∈ visited s /\ src <> "" /\ exists d, (t, d, Some src) ∈ puts tr.

(** The seeding has built the robots rules from the body of the answer to
    [/robots.txt]; nothing replaces them later. *)
Definition robots_inv (robots_o : Fetcher.Outcome) (s : State) : Prop :=
  robots s =
    Some (Robots.build_robots (user_agent cfg)
            (match body_of robots_o with
             | Some c => if truthy c then Some (decode_utf8_ignore c) else None
             | None => None
             end)).

(** All of them together. *)
Definition books (robots_o : Fetcher.Outcome) (s : State) (tr : list Action)
  : Prop :=
  books_inv s /\ visits_inv s /\ queue_inv s /\ entries_inv s tr /\
  edges_inv s tr /\ robots_inv robots_o s.

End WithLibraries.
End CrawlSpec.

(** ** sfrog/exporters/csv_exporter.py *)

Module CsvExporter.
Import Py Manager.

(** The values a record holds under its keys. *)
Inductive pyval : Type :=
  | PNone
  | PStr (s : string)
  | PInt (z : Z)
  | PFloat (x : PrimFloat.float)
  | PList (l : list string).

Definition of_optional_str (o : option string) : pyval :=
  match o with Some s => PStr s | None => PNone end.
Definition of_optional_int (o : option Z) : pyval :=
  match o with Some z => PInt z | None => PNone end.

Definition EXPORT_COLUMNS : list string :=
  ["url"; "status"; "title"; "meta_description"; "h1_count";
   "internal_links"; "external_links"; "canonical"; "content_hash";
   "response_time"; "redirect_target"; "error"].

(** [list(dict.fromkeys(l))]: the keys of a dictionary filled in the order
    of [l]; a key that is set again keeps its place. *)
Definition fromkeys_list (l : list string) : list string :=
  foldl (fun keys k => if bool_decide (k ∈ keys) then keys else keys ++ [k]) [] l.

(** The record as a [dict] literal, in the order it is written. *)
Definition _page_to_record (page : PageData) : list (string * pyval) :=
  [("url", PStr (url page));
   ("status", of_optional_int (status page));
   ("title", of_optional_str (title page));
   ("meta_description", of_optional_str (meta_description page));
   ("h1_count", PInt (Z.of_nat (h1_count page)));
   ("internal_links", PList (fromkeys_list (internal_links page)));
   ("external_links", PList (fromkeys_list (external_links page)));
   ("canonical", of_optional_str (canonical page));
   ("content_hash", of_optional_str (content_hash page));
   ("response_time", PFloat (response_time page));
   ("redirect_target", of_optional_str (redirect_target page));
   ("error", of_optional_str (error page))].

(** The first occurrences of the elements of a list, in order. *)
Fixpoint first_occurrences (l : list string) : list string :=
  match l with
  | [] => []
  | x :: rest => x :: filter (fun y => y <> x) (first_occurrences rest)
  end.

End CsvExporter.

(** ** Grouping the pages by a field *)

Module Grouping.
Import Manager.

(** The URLs of the pages whose field has the value [key], in order. *)
Definition urls_with (field : PageData -> option string) (key : string)
    (pages : list PageData) : list string :=
  map url (filter (fun page => field page = Some key) pages).

(** A list or a count as a dictionary holds it: no entry for nothing. *)
Definition some_urls (urls : list string) : option (list string) :=
  match urls with [] => None | _ => Some urls end.
Definition some_count (n : nat) : option nat :=
  match n with 0 => None | S _ => Some n end.

End Grouping.

(** ** sfrog/analysis/seo_checks.py *)

Module SeoChecks.
Import Py Manager.

Record SEOIssues : Type := mkSEOIssues {
  missing_titles : list string;
  missing_meta : list string;
  duplicate_titles : gmap string (list string);
  duplicate_meta : gmap string (list string);
  multiple_h1 : list string;
  invalid_canonicals : list string
}.

(** What the loop of [analyze_seo] has in hand: the four lists of
    [issues] it appends to, the two counters and [canonical_seen]. *)
Record Scan : Type := mkScan {
  seen_missing_titles : list string;
  seen_missing_meta : list string;
  seen_multiple_h1 : list string;
  seen_invalid_canonicals : list string;
  title_counter : gmap string nat;
  meta_counter : gmap string nat;
  canonical_seen : gset string
}.

Definition start : Scan := mkScan [] [] [] [] ∅ ∅ ∅.

(** [counter[key] += 1] on a [Counter] *)
Definition count_up (counter : gmap string nat) (key : string) : gmap string nat :=
  <[key := S (default 0 (counter !! key))]> counter.

(** [if not page.title: ... else: title_counter[page.title] += 1] *)
Definition scan_title (page : PageData) (st : Scan) : Scan :=
  match title page with
  | Some t =>
      if truthy t then
        mkScan (seen_missing_titles st) (seen_missing_meta st)
          (seen_multiple_h1 st) (seen_invalid_canonicals st)
          (count_up (title_counter st) t) (meta_counter st) (canonical_seen st)
      else
        mkScan (seen_missing_titles st ++ [url page]) (seen_missing_meta st)
          (seen_multiple_h1 st) (seen_invalid_canonicals st)
          (title_counter st) (meta_counter st) (canonical_seen st)
  | None =>
      mkScan (seen_missing_titles st ++ [url page]) (seen_missing_meta st)
        (seen_multiple_h1 st) (seen_invalid_canonicals st)
        (title_counter st) (meta_counter st) (canonical_seen st)
  end.

Definition scan_meta (page : PageData) (st : Scan) : Scan :=
  match meta_description page with
  | Some d =>
      if truthy d then
        mkScan (seen_missing_titles st) (seen_missing_meta st)
          (seen_multiple_h1 st) (seen_invalid_canonicals st)
          (title_counter st) (count_up (meta_counter st) d) (canonical_seen st)
      else
        mkScan (seen_missing_titles st) (seen_missing_meta st ++ [url page])
          (seen_multiple_h1 st) (seen_invalid_canonicals st)
          (title_counter st) (meta_counter st) (canonical_seen st)
  | None =>
      mkScan (seen_missing_titles st) (seen_missing_meta st ++ [url page])
        (seen_multiple_h1 st) (seen_invalid_canonicals st)
        (title_counter st) (meta_counter st) (canonical_seen st)
  end.

(** [if page.h1_count > 1: issues.multiple_h1.append(page.url)] *)
Definition scan_h1 (page : PageData) (st : Scan) : Scan :=
  if (1 <? h1_count page)%nat then
    mkScan (seen_missing_titles st) (seen_missing_meta st)
      (seen_multiple_h1 st ++ [url page]) (seen_invalid_canonicals st)
      (title_counter st) (meta_counter st) (canonical_seen st)
  else st.

(** [if page.canonical:] the test against [canonical_seen], then
    [canonical_seen.add(page.canonical)]. *)
Definition scan_canonical (page : PageData) (st : Scan) : Scan :=
  match canonical page with
  | Some c =>
      if truthy c then
        let flagged :=
          if bool_decide (c ∈ canonical_seen st) && negb (String.eqb c (url page))
          then seen_invalid_canonicals st ++ [url page]
          else seen_invalid_canonicals st in
        mkScan (seen_missing_titles st) (seen_missing_meta st)
          (seen_multiple_h1 st) flagged
          (title_counter st) (meta_counter st) (canonical_seen st ∪ {[c]})
      else st
  | None => st
  end.

(** The body of [for page in pages_list]. *)
Definition scan_page (st : Scan) (page : PageData) : Scan :=
  scan_canonical page (scan_h1 page (scan_meta page (scan_title page st))).

(** [{key: [page.url for page in pages_list if field(page) == key]
      for key, count in counter.items() if count > 1}] *)
Definition duplicates_of (field : PageData -> option string)
    (pages_list : list PageData) (counter : gmap string nat)
  : gmap string (list string) :=
  map_imap (fun key count =>
              if (1 <? count)%nat
              then Some (map url (filter (fun page => field page = Some key)
                                    pages_list))
              else None) counter.

Definition analyze_seo (pages : list PageData) : SEOIssues :=
  let pages_list := pages in
  let st := foldl scan_page start pages_list in
  mkSEOIssues
    (seen_missing_titles st)
    (seen_missing_meta st)
    (duplicates_of title pages_list (title_counter st))
    (duplicates_of meta_description pages_list (meta_counter st))
    (seen_multiple_h1 st)
    (seen_invalid_canonicals st).

End SeoChecks.

(** ** sfrog/utils/config.py *)

Module Config.
Import Py.

(** The exceptions of this module, and of the libraries it calls. *)
Inductive exn : Type :=
  | FileNotFoundError
  | RuntimeError
  | ValueError
  | TypeError
  | LibraryError.

Inductive outcome (A : Type) : Type :=
  | Done (a : A)
  | Raised (e : exn).
Arguments Done {A} a.
Arguments Raised {A} e.

(** A value of a configuration: [None], a [bool], an [int], a [str], or
    anything else (a float, a list, a mapping), kept as it is written. *)
Inductive value : Type :=
  | VNone
  | VBool (b : bool)
  | VInt (z : Z)
  | VStr (s : string)
  | VOther (written : string).

(** A parsed document: a mapping, or something else of which only the
    truth value matters here. *)
Inductive document : Type :=
  | Mapping (m : gmap string value)
  | NoMapping (truth : bool).

(** The built-in conversions on the values this model does not look
    into, and the file system with the two parsers; [yaml_safe_load] is
    [None] when PyYAML is not installed. *)
Class Builtins : Type := {
  int_of_str : string -> outcome Z;
  int_of_other : string -> outcome Z;
  str_of_int : Z -> string;
  str_of_other : string -> string
}.

Class Files : Type := {
  path_exists : string -> bool;
  read_text : string -> outcome string;
  suffix : string -> string;
  yaml_safe_load : option (string -> outcome document);
  json_loads : string -> outcome document
}.

Definition DEFAULT_USER_AGENT : string := "sfrog/1.0 (+https://github.com/openai)".

Definition DEFAULT_CONFIG : gmap string value :=
  list_to_map
    [("max_depth", VInt 2); ("threads", VInt 10);
     ("user_agent", VStr DEFAULT_USER_AGENT); ("export", VStr "csv");
     ("timeout", VInt 20)].

Record RuntimeConfig : Type := mkRuntimeConfig {
  max_depth : Z;
  threads : Z;
  user_agent : string;
  export : string;
  timeout : Z;
  config_path : option string;
  extra : gmap string value
}.

(** [bool(document)] and [document or {}] *)
Definition document_truth (d : document) : bool :=
  match d with
  | Mapping m => negb (bool_decide (m = ∅))
  | NoMapping truth => truth
  end.
Definition or_empty (d : document) : document :=
  if document_truth d then d else Mapping ∅.

(** [v is not None] *)
Definition is_not_none (v : value) : bool :=
  match v with VNone => false | _ => true end.

(** [data.update(other)] *)
Definition update (data other : gmap string value) : gmap string value :=
  other ∪ data.

(** [data.get(key, default)] *)
Definition get (data : gmap string value) (key : string) (default : value)
  : value :=
  match data !! key with Some v => v | None => default end.

(** [DEFAULT_CONFIG[key]] for a key of the defaults. *)
Definition default_of (key : string) : value := get DEFAULT_CONFIG key VNone.

Section WithLibraries.
Context {BI : Builtins} {FS : Files}.

(** [int(v)] and [str(v)] *)
Definition py_int (v : value) : outcome Z :=
  match v with
  | VNone => Raised TypeError
  | VBool b => Done (if b then 1 else 0)%Z
  | VInt z => Done z
  | VStr s => int_of_str s
  | VOther w => int_of_other w
  end.

Definition py_str (v : value) : string :=
  match v with
  | VNone => "None"
  | VBool b => if b then "True" else "False"
  | VInt z => str_of_int z
  | VStr s => s
  | VOther w => str_of_other w
  end.

Definition load_config_file (path : string) : outcome (gmap string value) :=
  if negb (path_exists path) then Raised FileNotFoundError
  else
    match read_text path with
    | Raised e => Raised e
    | Done text =>
        let loaded :=
          if in_list (lower (suffix path)) [".yaml"; ".yml"] then
            match yaml_safe_load with
            | None => Raised RuntimeError
            | Some safe_load =>
                match safe_load text with
                | Raised e => Raised e
                | Done d => Done (or_empty d)
                end
            end
          else json_loads (if truthy text then text else "{}") in
        match loaded with
        | Raised e => Raised e
        | Done (Mapping m) => Done m
        | Done (NoMapping _) => Raised ValueError
        end
    end.

(** [data] once the file and the overrides have been merged in, with the
    path that was read. *)
Definition merged (config_file : option string)
    (overrides : option (gmap string value))
  : outcome (gmap string value * option string) :=
  let data := DEFAULT_CONFIG in
  let with_file :=
    match config_file with
    | Some file =>
        if truthy file then
          match load_config_file file with
          | Raised e => Raised e
          | Done file_data => Done (update data file_data, Some file)
          end
        else Done (data, None)
    | None => Done (data, None)
    end in
  match with_file with
  | Raised e => Raised e
  | Done (data, path) =>
      let data :=
        match overrides with
        | Some given =>
            if negb (bool_decide (given = ∅))
            then update data (filter (fun kv => is_not_none (snd kv) = true) given)
            else data
        | None => data
        end in
      Done (data, path)
  end.

Definition from_sources (config_file : option string)
    (overrides : option (gmap string value)) : outcome RuntimeConfig :=
  match merged config_file overrides with
  | Raised e => Raised e
  | Done (data, path) =>
      match py_int (get data "max_depth" (default_of "max_depth")) with
      | Raised e => Raised e
      | Done max_depth =>
          match py_int (get data "threads" (default_of "threads")) with
          | Raised e => Raised e
          | Done threads =>
              let user_agent :=
                py_str (get data "user_agent" (default_of "user_agent")) in
              let export := py_str (get data "export" (default_of "export")) in
              match py_int (get data "timeout" (default_of "timeout")) with
              | Raised e => Raised e
              | Done timeout =>
                  Done (mkRuntimeConfig max_depth threads user_agent export
                          timeout path
                          (filter (fun kv => fst kv ∉ dom DEFAULT_CONFIG) data))
              end
          end
      end
  end.

End WithLibraries.

(** What decides a key: an override other than [None], else the file,
    else the default. *)
Definition decisive (file_data overrides : gmap string value) (key : string)
  : option value :=
  match overrides !! key with
  | Some VNone | None =>
      match file_data !! key with
      | Some v => Some v
      | None => DEFAULT_CONFIG !! key
      end
  | Some v => Some v
  end.

(** [overrides = {"max_depth": max_depth, "threads": threads,
    "export": export}] in the [crawl] command of [sfrog/cli.py]. *)
Definition of_optional_int (o : option Z) : value :=
  match o with Some z => VInt z | None => VNone end.
Definition of_optional_str (o : option string) : value :=
  match o with Some s => VStr s | None => VNone end.
Definition crawl_overrides (max_depth threads : option Z) (export : option string)
  : gmap string value :=
  list_to_map
    [("max_depth", of_optional_int max_depth);
     ("threads", of_optional_int threads);
     ("export", of_optional_str export)].

End Config.

(** ** A small site for concrete runs

    [http://example.com/] links to [/b], which links back; the sitemap
    lists [/b] as well. Links on the fixture pages are absolute and carry
    no fragment, so that resolving and normalizing leave them unchanged. *)

Module Fixture.
Import Py UrlParse UrlTools.

Definition runtime : Runtime :=
  {| bracketed_host_ok := fun _ => true; nfkc_netloc_ok := fun _ => true |}.

Definition resolver : Resolver :=
  {| urljoin := fun _ link => Ok link;
     yarl_with_fragment_empty := fun u => Ok u |}.

Definition anchor (href : string) : Parser.Node :=
  Parser.mkNode "a" [("href", Some href)] "".

Definition selectolax : Parser.Selectolax :=
  {| Parser.css := fun html selector =>
       if String.eqb selector "a" then
         if String.eqb html "<a href=http://example.com/b>"
         then Ok [anchor "http://example.com/b"]
         else if String.eqb html "<a href=http://example.com/>"
         then Ok [anchor "http://example.com/"]
         else Ok []
       else Ok [] |}.

Definition xmltodict : Sitemap.XmlToDict :=
  {| Sitemap.xmltodict_parse := fun text =>
       if String.eqb text "<urlset><url><loc>http://example.com/b</loc></url></urlset>"
       then Ok [("urlset", Sitemap.XDict [("url", Sitemap.loc_entry "http://example.com/b")])]
       else if String.eqb text "<urlset><url><loc>ftp://example.com/x</loc></url></urlset>"
       then Ok [("urlset", Sitemap.XDict [("url", Sitemap.loc_entry "ftp://example.com/x")])]
       else Raise ExpatError |}.

Definition robots_lib : Robots.RobotsLib := {| Robots.Robots := None |}.

Definition platform : Manager.Platform :=
  {| Manager.md5_hexdigest := fun body => "md5-of-" +:+ body;
     Manager.decode_utf8_ignore := fun body => body;
     Manager.yarl_with_path := fun _ p => Ok ("http://example.com" +:+ p) |}.

Definition cfg (max_depth : Z) : Manager.Config :=
  Manager.mkConfig "http://example.com/" max_depth 2 "sfrog" None.

Definition html_headers : list (string * string) := [("Content-Type", "text/html")].

Definition not_found : Fetcher.Outcome :=
  Fetcher.Responded "http://example.com/robots.txt" 404 [] "" PrimFloat.zero.

Definition page (url body : string) : Fetcher.Outcome :=
  Fetcher.Responded url 200 html_headers body PrimFloat.zero.

Definition seed_page : Fetcher.Outcome :=
  page "http://example.com/" "<a href=http://example.com/b>".
Definition b_page : Fetcher.Outcome :=
  page "http://example.com/b" "<a href=http://example.com/>".

(** [/b] answering with the very bytes of the seed page. *)
Definition b_copy : Fetcher.Outcome :=
  page "http://example.com/b" "<a href=http://example.com/b>".

Definition ftp_sitemap : Fetcher.Outcome :=
  page "http://example.com/sitemap.xml"
    "<urlset><url><loc>ftp://example.com/x</loc></url></urlset>".

Definition schedule : list Manager.Event :=
  [Manager.Take 0; Manager.Fetched 0 seed_page;
   Manager.Take 1; Manager.Fetched 1 b_page].

Definition schedule_with_copy : list Manager.Event :=
  [Manager.Take 0; Manager.Fetched 0 seed_page;
   Manager.Take 1; Manager.Fetched 1 b_copy].

Definition crawl_prefix (max_depth : Z) (sitemap_o : Fetcher.Outcome)
    (evs : list Manager.Event) : option (Manager.State * list Manager.Action) :=
  @Manager.crawl_prefix runtime resolver xmltodict selectolax robots_lib platform
    (cfg max_depth) not_found sitemap_o evs.

Definition step (max_depth : Z) (s : Manager.State) (ev : Manager.Event)
  : option (Manager.State * list Manager.Action) :=
  @Manager.step runtime resolver selectolax robots_lib platform (cfg max_depth) s ev.

Definition crawl (max_depth : Z) (sitemap_o : Fetcher.Outcome)
    (evs : list Manager.Event) : option Manager.CrawlResult :=
  @Manager.crawl runtime resolver xmltodict selectolax robots_lib platform
    (cfg max_depth) not_found sitemap_o evs.

(** The state once the seed page has been fetched and harvested. *)
Definition after_seed_page (max_depth : Z) : Manager.State :=
  match crawl_prefix max_depth not_found
          [Manager.Take 0; Manager.Fetched 0 seed_page] with
  | Some (s, _) => s
  | None => Manager.initial_state
  end.

(** A PDF, answered with the header [Content-Type]. *)
Definition pdf_title : Fetcher.Outcome :=
  Fetcher.Responded "http://example.com/file.pdf" 200
    [("Content-Type", "application/pdf")] "%PDF-1.7" PrimFloat.zero.

(** [headers.get("Content-Type")] and [headers.get("content-type")] on the
    result of a fetch. *)
Definition lookup_both (o : Fetcher.Outcome) : option (option string * option string) :=
  match Fetcher.fetch "http://example.com/file.pdf" o with
  | Ok r => Some (Fetcher.headers r !! "Content-Type", Fetcher.headers r !! "content-type")
  | Raise _ => None
  end.

(** The URL tools on the fixture runtime. *)
Definition urlparse (url : string) := @UrlParse.urlparse runtime url.
Definition canonicalize (url : string) := @UrlTools.canonicalize runtime url.

(** A page with a title, a description, two headings and three anchors,
    and the same page with a [meta] element whose [name] has no value. *)
Definition home_html : string :=
  "<title>Home</title><meta name=Description content=Demo><H1>Welcome</H1><h2></h2><a href=http://example.com/b>b</a><a href=http://other.org/>o</a><a>none</a>".

Definition odd_html : string :=
  "<title>Home</title><meta name><H1>Welcome</H1>".

Definition selectolax_more : Parser.Selectolax :=
  {| Parser.css := fun html selector =>
       if String.eqb selector "title" then Ok [Parser.mkNode "title" [] "Home"]
       else if String.eqb selector "meta" then
         if String.eqb html odd_html
         then Ok [Parser.mkNode "meta" [("name", None)] ""]
         else Ok [Parser.mkNode "meta"
                    [("name", Some "Description"); ("content", Some "Demo")] ""]
       else if String.eqb selector "h1, h2, h3, h4, h5, h6" then
         Ok [Parser.mkNode "H1" [] "Welcome"; Parser.mkNode "h2" [] ""]
       else if String.eqb selector "a" then
         if String.eqb html home_html
         then Ok [anchor "http://example.com/b"; anchor "http://other.org/";
                  Parser.mkNode "a" [] "none"]
         else Ok []
       else Ok [] |}.

Definition parse_home : result Parser.ParsedPage :=
  @Parser.parse_html runtime resolver selectolax_more
    "http://example.com/" "http://example.com/" home_html.

(** Sitemaps as they are met: entries with [lastmod], one of them without
    a [loc], and a [urlset] without content. *)
Definition dated_sitemap : string :=
  "<urlset><url><loc>http://example.com/b</loc><lastmod>2024-01-01</lastmod></url><url><lastmod>2024-01-02</lastmod></url></urlset>".

Definition dated_entries : list Sitemap.xval :=
  [Sitemap.XDict [("loc", Sitemap.XStr "http://example.com/b");
                  ("lastmod", Sitemap.XStr "2024-01-01")];
   Sitemap.XDict [("lastmod", Sitemap.XStr "2024-01-02")]].

Definition xmltodict_more : Sitemap.XmlToDict :=
  {| Sitemap.xmltodict_parse := fun text =>
       if String.eqb text dated_sitemap
       then Ok [("urlset", Sitemap.XDict [("url", Sitemap.XList dated_entries)])]
       else if String.eqb text "<urlset/>"
       then Ok [("urlset", Sitemap.XNone)]
       else Raise ExpatError |}.

(** A robots library whose rules turn away every URL that contains the
    text of the file. *)
Definition strict_robots_lib : Robots.RobotsLib :=
  {| Robots.Robots :=
       Some (fun text => Ok (fun url _ => Ok (negb (has_substring text url)))) |}.

Definition robots_file : Fetcher.Outcome :=
  Fetcher.Responded "http://example.com/robots.txt" 200 [] "/b" PrimFloat.zero.

Definition crawl_prefix_with_robots (evs : list Manager.Event)
  : option (Manager.State * list Manager.Action) :=
  @Manager.crawl_prefix runtime resolver xmltodict selectolax strict_robots_lib
    platform (cfg 3) robots_file not_found evs.

(** The fixture site crawled without any worker. *)
Definition cfg_without_workers : Manager.Config :=
  Manager.mkConfig "http://example.com/" 3 0 "sfrog" None.

(** The state in which worker 0 waits for the seed page. *)
Definition fetching_seed : Manager.State :=
  match crawl_prefix 3 not_found [Manager.Take 0] with
  | Some (s, _) => s
  | None => Manager.initial_state
  end.

Definition seed_entry : Manager.Entry := ("http://example.com/", 0%Z, None).

(** A configuration file in JSON, an empty one in YAML, and conversions
    that know the numbers that occur. *)
Definition builtins : Config.Builtins :=
  {| Config.int_of_str := fun s =>
       if String.eqb s "5" then Config.Done 5%Z else Config.Raised Config.ValueError;
     Config.int_of_other := fun _ => Config.Raised Config.TypeError;
     Config.str_of_int := fun _ => "0";
     Config.str_of_other := fun w => w |}.

Definition settings : gmap string Config.value :=
  list_to_map
    [("threads", Config.VInt 4); ("export", Config.VStr "json");
     ("proxy", Config.VStr "http://localhost:3128")].

Definition files : Config.Files :=
  {| Config.path_exists := fun path =>
       String.eqb path "sfrog.json" || String.eqb path "empty.yaml";
     Config.read_text := fun path =>
       if String.eqb path "sfrog.json" then Config.Done "{...}"
       else Config.Done "";
     Config.suffix := fun path =>
       if String.eqb path "sfrog.json" then ".json" else ".YAML";
     Config.yaml_safe_load := Some (fun _ => Config.Done (Config.NoMapping false));
     Config.json_loads := fun text =>
       if String.eqb text "{...}" then Config.Done (Config.Mapping settings)
       else Config.Done (Config.NoMapping true) |}.

Definition from_sources (config_file : option string)
    (overrides : option (gmap string Config.value))
  : Config.outcome Config.RuntimeConfig :=
  @Config.from_sources builtins files config_file overrides.

(** A sitemap whose single entry has a [lastmod] next to its [loc], and
    the answer of a sitemap that is cut short. *)
Definition lone_sitemap : string :=
  "<urlset><url><loc>http://example.com/b</loc><lastmod>2024-01-01</lastmod></url></urlset>".

Definition lone_entry : Sitemap.xval :=
  Sitemap.XDict [("loc", Sitemap.XStr "http://example.com/b");
                 ("lastmod", Sitemap.XStr "2024-01-01")].

Definition xmltodict_lone : Sitemap.XmlToDict :=
  {| Sitemap.xmltodict_parse := fun text =>
       if String.eqb text lone_sitemap
       then Ok [("urlset", Sitemap.XDict [("url", lone_entry)])]
       else Raise ExpatError |}.

Definition cut_sitemap : Fetcher.Outcome :=
  page "http://example.com/sitemap.xml" "<urlset><url>".

(** [/b] answering 404 with a page of its own. *)
Definition b_gone : Fetcher.Outcome :=
  Fetcher.Responded "http://example.com/b" 404 html_headers
    "<a href=http://example.com/>" PrimFloat.zero.

Definition schedule_with_gone : list Manager.Event :=
  [Manager.Take 0; Manager.Fetched 0 seed_page;
   Manager.Take 1; Manager.Fetched 1 b_gone].

End Fixture.

(** * Properties of the string operations *)

Module PyFacts.
Import Py.

Lemma app_cons a s t : String a s +:+ t = String a (s +:+ t).
Proof. reflexivity. Qed.

Lemma app_nil_l s : "" +:+ s = s.
Proof. reflexivity. Qed.

Lemma app_nil_r s : s +:+ "" = s.
Proof. induction s as [|a s IH]; [done|]. by rewrite app_cons, IH. Qed.

Lemma app_assoc s t u : (s +:+ t) +:+ u = s +:+ (t +:+ u).
Proof. induction s as [|a s IH]; [done|]. by rewrite !app_cons, IH. Qed.

Lemma length_app s t : String.length (s +:+ t) = String.length s + String.length t.
Proof. induction s as [|a s IH]; [done|]. rewrite app_cons. simpl. by rewrite IH. Qed.

Lemma take_drop n s : take n s +:+ drop n s = s.
Proof.
  revert s. induction n as [|n IH]; intros [|a s]; simpl; try done.
  by rewrite app_cons, IH.
Qed.

Lemma take_app_length s t : take (String.length s) (s +:+ t) = s.
Proof.
  induction s as [|a s IH]; simpl.
  - by destruct t.
  - by rewrite ?app_cons, IH.
Qed.

Lemma drop_app_length s t : drop (String.length s) (s +:+ t) = t.
Proof. induction s as [|a s IH]; simpl; [by destruct t|]. by rewrite ?app_cons. Qed.

Lemma drop_drop n m s : drop n (drop m s) = drop (m + n) s.
Proof.
  revert s. induction m as [|m IH]; intros s; simpl; [done|].
  destruct s as [|a s]; [by destruct n|]. apply IH.
Qed.

Lemma take_all s : take (String.length s) s = s.
Proof. induction s as [|a s IH]; simpl; [done|]. by rewrite IH. Qed.

Lemma drop_all s : drop (String.length s) s = "".
Proof. induction s as [|a s IH]; simpl; done. Qed.

Lemma truthy_nonempty s : truthy s = true <-> s <> "".
Proof. destruct s; simpl; split; congruence. Qed.

Lemma truthy_app_l s t : truthy s = true -> truthy (s +:+ t) = true.
Proof. by destruct s. Qed.

(** *** Every character satisfies a test *)

Lemma str_all_app p s t : str_all p (s +:+ t) = str_all p s && str_all p t.
Proof.
  induction s as [|a s IH]; [done|]. rewrite app_cons. simpl.
  by rewrite IH, andb_assoc.
Qed.

Lemma str_all_take p n s : str_all p s = true -> str_all p (take n s) = true.
Proof.
  revert s. induction n as [|n IH]; intros [|a s]; simpl; try done.
  intros [? ?]%andb_true_iff. rewrite IH by done. by rewrite andb_true_r.
Qed.

Lemma str_all_drop p n s : str_all p s = true -> str_all p (drop n s) = true.
Proof.
  revert s. induction n as [|n IH]; intros [|a s]; simpl; try done.
  intros [? ?]%andb_true_iff. by apply IH.
Qed.

Lemma str_all_slice p i j s : str_all p s = true -> str_all p (slice i j s) = true.
Proof. intros H. unfold slice. by apply str_all_drop, str_all_take. Qed.

Lemma str_all_impl (p q : ascii -> bool) s :
  (forall c, p c = true -> q c = true) -> str_all p s = true -> str_all q s = true.
Proof.
  intros Hpq. induction s as [|a s IH]; simpl; [done|].
  intros [? ?]%andb_true_iff. by rewrite Hpq, IH.
Qed.

Lemma str_all_lstrip p q s : str_all p s = true -> str_all p (lstrip q s) = true.
Proof.
  induction s as [|a s IH]; simpl; [done|].
  intros H. destruct (q a); [|done]. apply andb_true_iff in H as [_ H]. by apply IH.
Qed.

Lemma str_all_remove p c s : str_all p s = true -> str_all p (remove c s) = true.
Proof.
  induction s as [|a s IH]; simpl; [done|].
  intros [Ha Hs]%andb_true_iff. destruct (Ascii.eqb a c); simpl; rewrite ?Ha; auto.
Qed.

Lemma str_all_lower p s :
  (forall c, p c = true -> p (lower_char c) = true) ->
  str_all p s = true -> str_all p (lower s) = true.
Proof.
  intros Hp. induction s as [|a s IH]; simpl; [done|].
  intros [? ?]%andb_true_iff. by rewrite Hp, IH.
Qed.

(** *** A character does not occur *)

Lemma lacks_iff c s : contains c s = false <-> str_all (differs c) s = true.
Proof.
  induction s as [|a s IH]; simpl; [done|]. unfold differs at 1.
  destruct (Ascii.eqb a c); simpl; [split; discriminate|exact IH].
Qed.

Lemma contains_app c s t : contains c (s +:+ t) = contains c s || contains c t.
Proof.
  induction s as [|a s IH]; [done|]. rewrite app_cons. simpl.
  by rewrite IH, orb_assoc.
Qed.

Lemma lacks_take c n s : contains c s = false -> contains c (take n s) = false.
Proof. rewrite !lacks_iff. apply str_all_take. Qed.


Lemma lacks_slice c i j s : contains c s = false -> contains c (slice i j s) = false.
Proof. rewrite !lacks_iff. apply str_all_slice. Qed.

Lemma lacks_lstrip c q s : contains c s = false -> contains c (lstrip q s) = false.
Proof. rewrite !lacks_iff. apply str_all_lstrip. Qed.

Lemma lacks_remove c d s : contains c s = false -> contains c (remove d s) = false.
Proof. rewrite !lacks_iff. apply str_all_remove. Qed.

Lemma remove_lacks c s : contains c (remove c s) = false.
Proof.
  induction s as [|a s IH]; simpl; [done|].
  destruct (Ascii.eqb a c) eqn:E; simpl; [done|]. by rewrite E.
Qed.

Lemma remove_id c s : contains c s = false -> remove c s = s.
Proof.
  induction s as [|a s IH]; simpl; [done|].
  destruct (Ascii.eqb a c); simpl; [discriminate|]. intros H. by rewrite IH.
Qed.

(** *** Searching *)

Lemma find_none c s : find c s = None <-> contains c s = false.
Proof.
  induction s as [|a s IH]; simpl; [done|].
  destruct (Ascii.eqb a c); simpl; [split; discriminate|].
  destruct (find c s); simpl; [split; [discriminate|]|tauto].
  intros H. apply IH in H. discriminate.
Qed.

Lemma find_some c s i :
  find c s = Some i ->
  contains c (take i s) = false /\ s = take i s +:+ String c (drop (S i) s).
Proof.
  revert i. induction s as [|a s IH]; simpl; [discriminate|]. intros i.
  destruct (Ascii.eqb a c) eqn:E.
  - intros H; inversion H; subst. apply Ascii.eqb_eq in E as ->.
    split; [done|]. simpl. by destruct s.
  - destruct (find c s) as [j|]; simpl; [|discriminate].
    intros H; inversion H; subst. destruct (IH j eq_refl) as [Hl Heq].
    change (take (S j) (String a s)) with (String a (take j s)).
    change (drop (S (S j)) (String a s)) with (drop (S j) s).
    rewrite app_cons, <- Heq. simpl. by rewrite E, Hl.
Qed.

Lemma find_app_lacks c s t :
  contains c s = false ->
  find c (s +:+ t) = option_map (Nat.add (String.length s)) (find c t).
Proof.
  induction s as [|a s IH]; simpl.
  - intros _. rewrite app_nil_l. by destruct (find c t).
  - destruct (Ascii.eqb a c) eqn:E; simpl; [discriminate|].
    intros H. rewrite IH by done. by destruct (find c t).
Qed.

Lemma find_here c t : find c (String c t) = Some 0.
Proof. simpl. by rewrite Ascii.eqb_refl. Qed.

Lemma find_from_app c s t :
  find_from c (s +:+ t) (String.length s)
  = option_map (Nat.add (String.length s)) (find c t).
Proof. unfold find_from. by rewrite drop_app_length. Qed.

Lemma drop_past_separator c s t : drop (S (String.length s)) (s +:+ String c t) = t.
Proof. induction s as [|a s IH]; simpl; [done|]. exact IH. Qed.

(** [s.partition(c)] at the first separator *)
Lemma partition_app c s t :
  contains c s = false -> partition c (s +:+ String c t) = (s, true, t).
Proof.
  intros H. unfold partition. rewrite find_app_lacks, find_here by done.
  cbn [option_map]. rewrite Nat.add_0_r, take_app_length.
  by rewrite drop_past_separator.
Qed.

Lemma partition_prefix c s before found after :
  partition c s = (before, found, after) ->
  contains c before = false /\
  (forall p, str_all p s = true ->
             str_all p before = true /\ str_all p after = true) /\
  (found = false -> before = s /\ after = "") /\
  (found = true -> s = before +:+ String c after).
Proof.
  unfold partition. destruct (find c s) as [i|] eqn:Hf.
  - intros [= <- <- <-]. destruct (find_some _ _ _ Hf) as [Hl Heq].
    split; [done|]. split; [|split; [discriminate|done]].
    intros p Hp.
    split; [exact (str_all_take p i s Hp)|exact (str_all_drop p (S i) s Hp)].
  - intros [= <- <- <-]. apply find_none in Hf.
    split; [done|]. split; [|split; [done|discriminate]].
    intros p Hp. done.
Qed.

End PyFacts.

(** * Properties of the URL tools *)

Module UrlFacts.
Import Py PyFacts UrlParse UrlTools.

(** *** Letter case *)

Lemma lower_char_cases a :
  lower_char a = a \/ (is_upper a = true /\ is_lower (lower_char a) = true).
Proof.
  destruct a as [[] [] [] [] [] [] [] []]; vm_compute; auto.
Qed.

Lemma lower_char_idem a : lower_char (lower_char a) = lower_char a.
Proof. destruct a as [[] [] [] [] [] [] [] []]; vm_compute; reflexivity. Qed.

Lemma lower_char_ascii a : is_ascii_char (lower_char a) = is_ascii_char a.
Proof. destruct a as [[] [] [] [] [] [] [] []]; vm_compute; reflexivity. Qed.

Lemma upper_lower_disjoint a : is_upper a = true -> is_lower a = false.
Proof.
  unfold is_upper, is_lower, between.
  intros [H1 H2]%andb_true_iff. apply Nat.leb_le in H1, H2.
  apply andb_false_iff. left. apply Nat.leb_gt. lia.
Qed.

(** [lower] neither creates nor removes a character that is not a letter. *)
Lemma lower_char_eqb c a :
  is_ascii_alpha c = false ->
  Ascii.eqb (lower_char a) c = Ascii.eqb a c.
Proof.
  unfold is_ascii_alpha. intros [Hu Hl]%orb_false_iff.
  destruct (lower_char_cases a) as [->|[Ha Hla]]; [done|].
  destruct (Ascii.eqb_spec (lower_char a) c) as [<-|_]; [congruence|].
  destruct (Ascii.eqb_spec a c) as [<-|_]; [congruence|done].
Qed.

Lemma contains_lower c s :
  is_ascii_alpha c = false -> contains c (lower s) = contains c s.
Proof.
  intros Hc. induction s as [|a s IH]; simpl; [done|].
  by rewrite lower_char_eqb, IH.
Qed.

Lemma find_lower c s :
  is_ascii_alpha c = false -> find c (lower s) = find c s.
Proof.
  intros Hc. induction s as [|a s IH]; simpl; [done|].
  by rewrite lower_char_eqb, IH.
Qed.

Lemma rfind_lower c s :
  is_ascii_alpha c = false -> rfind c (lower s) = rfind c s.
Proof.
  intros Hc. induction s as [|a s IH]; simpl; [done|].
  by rewrite lower_char_eqb, IH.
Qed.

Lemma take_lower n s : take n (lower s) = lower (take n s).
Proof.
  revert s. induction n as [|n IH]; intros [|a s]; simpl; try done.
  by rewrite IH.
Qed.

Lemma drop_lower n s : drop n (lower s) = lower (drop n s).
Proof.
  revert s. induction n as [|n IH]; intros [|a s]; simpl; try done.
Qed.

Lemma lower_idem s : lower (lower s) = lower s.
Proof.
  induction s as [|a s IH]; simpl; [done|]. by rewrite lower_char_idem, IH.
Qed.

Lemma truthy_lower s : truthy (lower s) = truthy s.
Proof. by destruct s. Qed.

Lemma isascii_lower s : isascii (lower s) = isascii s.
Proof.
  unfold isascii. induction s as [|a s IH]; simpl; [done|].
  by rewrite lower_char_ascii, IH.
Qed.

Lemma partition_lower c s :
  is_ascii_alpha c = false ->
  partition c (lower s)
  = (lower (fst (fst (partition c s))), snd (fst (partition c s)),
     lower (snd (partition c s))).
Proof.
  intros Hc. unfold partition. rewrite find_lower by done.
  destruct (find c s) as [i|]; simpl; [|done].
  rewrite take_lower. f_equal. exact (drop_lower (S i) s).
Qed.

Lemma rpartition_lower c s :
  is_ascii_alpha c = false ->
  rpartition c (lower s)
  = (lower (fst (fst (rpartition c s))), snd (fst (rpartition c s)),
     lower (snd (rpartition c s))).
Proof.
  intros Hc. unfold rpartition. rewrite rfind_lower by done.
  destruct (rfind c s) as [i|]; simpl; [|done].
  rewrite take_lower. f_equal. exact (drop_lower (S i) s).
Qed.

Lemma prefix_empty s : String.prefix "" s = true.
Proof. by destruct s. Qed.

Lemma startswith_colon p :
  startswith ":" p = match p with String a _ => Ascii.eqb a ":" | "" => false end.
Proof.
  destruct p as [|a p]; [done|]. unfold startswith.
  change (String.prefix ":" (String a p))
    with (match ascii_dec ":" a with
          | left _ => String.prefix "" p
          | right _ => false
          end).
  destruct (ascii_dec ":" a) as [<-|E].
  - by rewrite prefix_empty.
  - symmetry. apply Ascii.eqb_neq. congruence.
Qed.

Lemma startswith_colon_lower p : startswith ":" (lower p) = startswith ":" p.
Proof.
  rewrite !startswith_colon. destruct p as [|a p]; [done|]. simpl.
  by apply lower_char_eqb.
Qed.

(** *** The checks on a netloc survive lowering *)

Section Checks.
Context {RT : Runtime}.
Hypothesis host_check_ignores_case :
  forall h, bracketed_host_ok h = true -> bracketed_host_ok (lower h) = true.

Lemma check_bracketed_host_lower h :
  _check_bracketed_host h = Ok tt -> _check_bracketed_host (lower h) = Ok tt.
Proof.
  unfold _check_bracketed_host.
  destruct (bracketed_host_ok h) eqn:E; [|discriminate].
  by rewrite host_check_ignores_case.
Qed.

Lemma check_bracketed_netloc_lower n :
  _check_bracketed_netloc n = Ok tt -> _check_bracketed_netloc (lower n) = Ok tt.
Proof.
  unfold _check_bracketed_netloc.
  rewrite (rpartition_lower "@") by done. cbn [snd].
  set (hp := snd (rpartition "@" n)).
  rewrite (partition_lower "[") by done.
  destruct (partition "[" hp) as [[before have_open] bracketed]. cbn [fst snd].
  destruct have_open.
  - rewrite truthy_lower. destruct (truthy before); [done|].
    rewrite (partition_lower "]") by done.
    destruct (partition "]" bracketed) as [[hostname found] port]. cbn [fst snd].
    rewrite truthy_lower, startswith_colon_lower.
    destruct (truthy port && negb (startswith ":" port)); [done|].
    apply check_bracketed_host_lower.
  - rewrite (partition_lower ":") by done.
    destruct (partition ":" hp) as [[hostname found] port]. cbn [fst snd].
    apply check_bracketed_host_lower.
Qed.

Lemma check_brackets_lower n :
  check_brackets n = Ok tt -> check_brackets (lower n) = Ok tt.
Proof.
  unfold check_brackets. rewrite !contains_lower by done.
  destruct (_ || _); [done|].
  destruct (_ && _); [|done]. apply check_bracketed_netloc_lower.
Qed.

End Checks.

Lemma checknetloc_ascii `{Runtime} n : isascii n = true -> _checknetloc n = Ok tt.
Proof. intros H0. unfold _checknetloc. by rewrite H0, orb_true_r. Qed.

(** *** [_splitnetloc] *)

Lemma take_take d i s : d <= i -> take d (take i s) = take d s.
Proof.
  revert i s. induction d as [|d IH]; intros i s Hle; [by destruct i, s|].
  destruct i as [|i]; [lia|]. destruct s as [|a s]; [done|].
  simpl. rewrite IH by lia. done.
Qed.

Lemma drop_take k d s : drop k (take (k + d) s) = take d (drop k s).
Proof.
  revert s. induction k as [|k IH]; intros s; simpl.
  - by destruct (take d s).
  - destruct s as [|a s]; simpl; [by destruct d|]. apply IH.
Qed.

Lemma lacks_take_find c v d :
  (forall i, find c v = Some i -> d <= i) -> contains c (take d v) = false.
Proof.
  intros Hd. destruct (find c v) as [i|] eqn:Hf.
  - rewrite <- (take_take d i) by auto. apply lacks_take.
    by apply find_some in Hf as [? _].
  - apply lacks_take. by apply find_none.
Qed.

Lemma min_delim_shift D w :
  min_delim (2 + D) (option_map (Nat.add 2) w) = 2 + min_delim D w.
Proof. destruct w; simpl; lia. Qed.

Lemma splitnetloc_eq v :
  _splitnetloc (String "/" (String "/" v)) 2
  = (take (authority_length v) v, drop (authority_length v) v).
Proof.
  unfold _splitnetloc, find_from, slice.
  change (drop 2 (String "/" (String "/" v))) with v.
  change (String.length (String "/" (String "/" v))) with (2 + String.length v).
  rewrite !min_delim_shift. fold (authority_length v).
  rewrite drop_take. done.
Qed.

Lemma authority_lacks_delimiters v :
  let n := take (authority_length v) v in
  contains "/" n = false /\ contains "?" n = false /\ contains "#" n = false.
Proof.
  unfold authority_length.
  repeat split; apply lacks_take_find; intros i Hi; rewrite ?Hi;
    destruct (find "/" v), (find "?" v), (find "#" v); simpl;
    try discriminate; inversion Hi; subst; lia.
Qed.

Lemma authority_length_assembled n rest :
  contains "/" n = false -> contains "?" n = false -> contains "#" n = false ->
  authority_length (n +:+ String "/" rest) = String.length n.
Proof.
  intros H1 H2 H3. unfold authority_length.
  rewrite !find_app_lacks, length_app by done. rewrite find_here.
  destruct (find "?" (String "/" rest)), (find "#" (String "/" rest));
    simpl; lia.
Qed.

Lemma starts_with_slashes url :
  String.eqb (take 2 url) "//" = true ->
  url = String "/" (String "/" (drop 2 url)).
Proof.
  intros H. apply String.eqb_eq in H.
  rewrite <- (take_drop 2 url) at 1. rewrite H. done.
Qed.

(** *** The pieces [urlsplit] cuts a URL into *)

Lemma split_scheme_cases url :
  split_scheme url = ("", url) \/
  exists i, split_scheme url = (lower (take i url), drop (S i) url).
Proof.
  unfold split_scheme. destruct (find ":" url) as [[|i]|]; auto.
  destruct (_ && _); eauto.
Qed.

Lemma split_scheme_all p url scheme rest :
  (forall c, p c = true -> p (lower_char c) = true) ->
  split_scheme url = (scheme, rest) ->
  str_all p url = true ->
  str_all p scheme = true /\ str_all p rest = true.
Proof.
  intros Hp Hs Hall. destruct (split_scheme_cases url) as [E|[i E]];
    rewrite E in Hs; inversion Hs; subst.
  - done.
  - split; [by apply str_all_lower, str_all_take|].
    exact (str_all_drop p (S i) url Hall).
Qed.

Lemma split_once_spec c url a b :
  split_once c url = (a, b) ->
  contains c a = false /\
  (forall p, str_all p url = true -> str_all p a = true /\ str_all p b = true).
Proof.
  unfold split_once. destruct (contains c url) eqn:Hc.
  - destruct (partition c url) as [[u f] r] eqn:Hp.
    intros [= <- <-]. apply partition_prefix in Hp as (Hl & Hall & _). auto.
  - intros [= <- <-]. split; [done|]. intros p Hp. done.
Qed.

Lemma split_once_lacks c url : contains c url = false -> split_once c url = (url, "").
Proof. intros H. unfold split_once. by rewrite H. Qed.

Lemma split_once_app c a b :
  contains c a = false -> split_once c (a +:+ String c b) = (a, b).
Proof.
  intros H. unfold split_once.
  rewrite contains_app. simpl. rewrite Ascii.eqb_refl, orb_true_r.
  by rewrite partition_app.
Qed.

Section Split.
Context {RT : Runtime}.

Lemma split_netloc_spec url n rest :
  split_netloc url = Ok (n, rest) ->
  check_brackets n = Ok tt /\
  contains "/" n = false /\ contains "?" n = false /\ contains "#" n = false /\
  (forall p, str_all p url = true -> str_all p n = true /\ str_all p rest = true).
Proof.
  unfold split_netloc. destruct (String.eqb (take 2 url) "//") eqn:Hpre.
  - rewrite (starts_with_slashes _ Hpre), splitnetloc_eq.
    set (v := drop 2 url).
    destruct (check_brackets (take (authority_length v) v)) as [[]|] eqn:Hb;
      simpl; [|discriminate].
    intros [= <- <-]. split; [done|].
    destruct (authority_lacks_delimiters v) as (? & ? & ?).
    do 3 (split; [done|]).
    intros p Hall. simpl in Hall.
    apply andb_true_iff in Hall as [_ [_ Hall]%andb_true_iff].
    split; [by apply str_all_take|by apply str_all_drop].
  - intros [= <- <-]. repeat split; done.
Qed.

(** [urlsplit] step by step. *)
Lemma urlsplit_inv url sp :
  urlsplit url = Ok sp ->
  exists rest2 rest3 rest4,
    split_scheme (remove_unsafe (lstrip c0_control_or_space url))
      = (s_scheme sp, rest2) /\
    split_netloc rest2 = Ok (s_netloc sp, rest3) /\
    split_once "#" rest3 = (rest4, s_fragment sp) /\
    split_once "?" rest4 = (s_path sp, s_query sp) /\
    _checknetloc (s_netloc sp) = Ok tt.
Proof.
  unfold urlsplit.
  destruct (split_scheme _) as [scheme rest2] eqn:H1.
  destruct (split_netloc rest2) as [[n rest3]|] eqn:H2; simpl; [|discriminate].
  destruct (split_once "#" rest3) as [rest4 fragment] eqn:H3.
  destruct (split_once "?" rest4) as [path query] eqn:H4.
  destruct (_checknetloc n) as [[]|] eqn:H5; simpl; [|discriminate].
  intros [= <-]. simpl. eauto 10.
Qed.

(** Every component is made of characters of the URL, lowered in the
    scheme. *)
Lemma urlsplit_all p url sp :
  (forall c, p c = true -> p (lower_char c) = true) ->
  urlsplit url = Ok sp ->
  str_all p url = true ->
  str_all p (s_scheme sp) = true /\ str_all p (s_netloc sp) = true /\
  str_all p (s_path sp) = true /\ str_all p (s_query sp) = true.
Proof.
  intros Hp Hs Hall.
  apply urlsplit_inv in Hs as (r2 & r3 & r4 & H1 & H2 & H3 & H4 & _).
  assert (Hclean : str_all p (remove_unsafe (lstrip c0_control_or_space url)) = true).
  { unfold remove_unsafe. by do 3 apply str_all_remove; apply str_all_lstrip. }
  destruct (split_scheme_all p _ _ _ Hp H1 Hclean) as [Hsch Hr2].
  apply split_netloc_spec in H2 as (_ & _ & _ & _ & Hn).
  destruct (Hn p Hr2) as [Hnet Hr3].
  apply split_once_spec in H3 as [_ H3]. destruct (H3 p Hr3) as [Hr4 _].
  apply split_once_spec in H4 as [_ H4]. destruct (H4 p Hr4) as [Hpath Hq].
  done.
Qed.

(** No unsafe character is left in any component. *)
Lemma urlsplit_lacks_unsafe c url sp :
  c = TAB \/ c = LF \/ c = CR ->
  urlsplit url = Ok sp ->
  contains c (s_scheme sp) = false /\ contains c (s_netloc sp) = false /\
  contains c (s_path sp) = false /\ contains c (s_query sp) = false.
Proof.
  intros Hc Hs.
  apply urlsplit_inv in Hs as (r2 & r3 & r4 & H1 & H2 & H3 & H4 & _).
  assert (Hclean : str_all (differs c)
            (remove_unsafe (lstrip c0_control_or_space url)) = true).
  { apply lacks_iff. unfold remove_unsafe.
    destruct Hc as [-> | [-> | ->]].
    - do 2 apply lacks_remove. apply remove_lacks.
    - apply remove_lacks.
    - apply lacks_remove. apply remove_lacks. }
  assert (Hp : forall a, differs c a = true -> differs c (lower_char a) = true).
  { intros a. unfold differs. rewrite lower_char_eqb; [done|].
    by destruct Hc as [-> | [-> | ->]]. }
  destruct (split_scheme_all _ _ _ _ Hp H1 Hclean) as [Hsch Hr2].
  apply split_netloc_spec in H2 as (_ & _ & _ & _ & Hn).
  destruct (Hn _ Hr2) as [Hnet Hr3].
  apply split_once_spec in H3 as [_ H3]. destruct (H3 _ Hr3) as [Hr4 _].
  apply split_once_spec in H4 as [_ H4]. destruct (H4 _ Hr4) as [Hpath Hq].
  rewrite !lacks_iff. done.
Qed.

(** The delimiters each component is free of, and the checks the netloc
    has passed. *)
Lemma urlsplit_delimiters url sp :
  urlsplit url = Ok sp ->
  check_brackets (s_netloc sp) = Ok tt /\
  contains "/" (s_netloc sp) = false /\ contains "?" (s_netloc sp) = false /\
  contains "#" (s_netloc sp) = false /\
  contains "?" (s_path sp) = false /\ contains "#" (s_path sp) = false /\
  contains "#" (s_query sp) = false.
Proof.
  intros Hs.
  apply urlsplit_inv in Hs as (r2 & r3 & r4 & H1 & H2 & H3 & H4 & _).
  apply split_netloc_spec in H2 as (Hb & Hn1 & Hn2 & Hn3 & _).
  apply split_once_spec in H3 as [Hl4 _].
  apply split_once_spec in H4 as [Hlp Hall].
  apply lacks_iff in Hl4. destruct (Hall _ Hl4) as [Hp Hq].
  apply lacks_iff in Hp, Hq. done.
Qed.

End Split.

(** *** Writing a canonical URL and reading it back *)

Lemma rooted_path_rooted p : exists p', rooted_path p = String "/" p'.
Proof.
  unfold rooted_path. destruct p as [|a p]; simpl; [by exists ""|].
  destruct (Ascii.eqb_spec a "/") as [->|Hne].
  - exists p. by destruct p.
  - replace (String.eqb (String a (take 0 p)) "/") with false.
    + by exists (String a p).
    + symmetry. apply String.eqb_neq. destruct p; simpl; congruence.
Qed.

Lemma rooted_path_fixed p' : rooted_path (String "/" p') = String "/" p'.
Proof. unfold rooted_path. simpl. by destruct p'. Qed.

Lemma rooted_path_all p s :
  p "/"%char = true -> str_all p s = true -> str_all p (rooted_path s) = true.
Proof.
  intros Hslash Hs. unfold rooted_path.
  destruct (truthy s); [|simpl; by rewrite Hslash].
  destruct (String.eqb (take 1 s) "/"); [done|].
  simpl. by rewrite Hslash.
Qed.

Lemma query_suffix_all p q :
  p "?"%char = true -> str_all p q = true -> str_all p (query_suffix q) = true.
Proof.
  intros Hq Hs. unfold query_suffix. destruct (truthy q); [|done].
  simpl. by rewrite Hq.
Qed.

Lemma urlunparse_rooted s n path q :
  s = "http" \/ s = "https" ->
  truthy n = true \/
    String.eqb (take 2 (if truthy path then path else "/")) "//" = false ->
  urlunparse s n (if truthy path then path else "/") "" q ""
  = assembled s n (rooted_path path) q.
Proof.
  intros Hs Hcase. unfold urlunparse, urlunsplit, assembled, query_suffix.
  cbn [truthy].
  assert (Hnet : truthy s && in_list s uses_netloc = true)
    by (by destruct Hs as [-> | ->]).
  assert (Hcond : truthy n
            || truthy s && in_list s uses_netloc
               && negb (String.eqb (take 2 (if truthy path then path else "/")) "//")
            = true).
  { rewrite Hnet. destruct Hcase as [-> | ->]; [done|]. by rewrite orb_true_r. }
  rewrite Hcond.
  assert (Hroot : (if truthy (if truthy path then path else "/")
                      && negb (String.eqb (take 1 (if truthy path then path else "/")) "/")
                   then "/" +:+ (if truthy path then path else "/")
                   else (if truthy path then path else "/"))
                  = rooted_path path).
  { unfold rooted_path. destruct (truthy path) eqn:Hp; [|reflexivity].
    rewrite Hp. destruct (String.eqb (take 1 path) "/"); reflexivity. }
  rewrite Hroot.
  assert (Hscheme : truthy s = true) by (by destruct Hs as [-> | ->]).
  rewrite Hscheme.
  destruct (truthy q).
  - by rewrite !app_assoc.
  - by rewrite app_nil_r.
Qed.


Lemma splitparams_plain p :
  contains "/" p = true -> last_segment_plain p = true -> _splitparams p = (p, "").
Proof.
  intros Hslash. unfold last_segment_plain, _splitparams. rewrite Hslash.
  destruct (rfind "/" p) as [r|]; [|done].
  by destruct (find_from ";" p r).
Qed.

Lemma split_netloc_slashes `{Runtime} v :
  split_netloc (String "/" (String "/" v))
  = Py.bind (check_brackets (take (authority_length v) v))
      (fun _ => Ok (take (authority_length v) v, drop (authority_length v) v)).
Proof.
  unfold split_netloc.
  change (String.eqb (take 2 (String "/" (String "/" v))) "//") with true.
  cbv iota. by rewrite splitnetloc_eq.
Qed.

Section Assembled.
Context {RT : Runtime}.
Variables s n P q : string.
Hypothesis Hs : s = "http" \/ s = "https".
Hypothesis Hbrackets : check_brackets n = Ok tt.
Hypothesis Hnetloc : _checknetloc n = Ok tt.
Hypothesis Hn : contains "/" n = false /\ contains "?" n = false /\
                contains "#" n = false.
Hypothesis Hroot : exists P', P = String "/" P'.
Hypothesis Hpath : contains "?" P = false /\ contains "#" P = false.
Hypothesis Hquery : contains "#" q = false.
Hypothesis Hclean : forall c, c = TAB \/ c = LF \/ c = CR ->
  contains c n = false /\ contains c P = false /\ contains c q = false.

Lemma query_suffix_lacks c :
  Ascii.eqb "?" c = false -> contains c q = false ->
  contains c (query_suffix q) = false.
Proof.
  intros Hc Hq. unfold query_suffix. destruct (truthy q); [|done].
  change (contains c ("?" +:+ q)) with (Ascii.eqb "?" c || contains c q).
  by rewrite Hc.
Qed.

Lemma authority_part_clean :
  remove_unsafe ("//" +:+ n +:+ P +:+ query_suffix q)
  = "//" +:+ n +:+ P +:+ query_suffix q.
Proof.
  assert (Hl : forall c, c = TAB \/ c = LF \/ c = CR ->
            contains c ("//" +:+ n +:+ P +:+ query_suffix q) = false).
  { intros c Hc. destruct (Hclean c Hc) as (H1 & H2 & H3).
    rewrite !contains_app, H1, H2.
    rewrite query_suffix_lacks; [|by destruct Hc as [-> | [-> | ->]]|done].
    by destruct Hc as [-> | [-> | ->]]. }
  unfold remove_unsafe.
  rewrite (remove_id TAB) by auto. rewrite (remove_id CR) by auto.
  rewrite (remove_id LF) by auto. done.
Qed.

Lemma split_query_assembled : split_once "?" (P +:+ query_suffix q) = (P, q).
Proof.
  destruct Hpath as [Hp _]. unfold query_suffix.
  destruct q as [|a q']; simpl.
  - rewrite app_nil_r. by apply split_once_lacks.
  - by apply split_once_app.
Qed.

Lemma urlsplit_assembled :
  urlsplit (assembled s n P q) = Ok (mkSplit s n P q "").
Proof.
  destruct Hroot as [P' HP]. destruct Hn as (Hn1 & Hn2 & Hn3).
  destruct Hpath as [Hp1 Hp2].
  set (X := "//" +:+ n +:+ P +:+ query_suffix q).
  assert (Hscheme :
    split_scheme (remove_unsafe (lstrip c0_control_or_space (assembled s n P q)))
    = (s, X)).
  { assert (HX := authority_part_clean). fold X in HX.
    unfold assembled. fold X.
    destruct Hs as [-> | ->].
    - change (remove_unsafe (lstrip c0_control_or_space ("http" +:+ ":" +:+ X)))
        with ("http:" +:+ remove_unsafe X).
      rewrite HX. reflexivity.
    - change (remove_unsafe (lstrip c0_control_or_space ("https" +:+ ":" +:+ X)))
        with ("https:" +:+ remove_unsafe X).
      rewrite HX. reflexivity. }
  assert (Hsplit : split_netloc X = Ok (n, P +:+ query_suffix q)).
  { unfold X.
    change ("//" +:+ n +:+ P +:+ query_suffix q)
      with (String "/" (String "/" (n +:+ P +:+ query_suffix q))).
    rewrite split_netloc_slashes.
    replace (n +:+ P +:+ query_suffix q)
      with (n +:+ String "/" (P' +:+ query_suffix q)) by (by rewrite HP).
    rewrite authority_length_assembled by done.
    rewrite take_app_length, drop_app_length, Hbrackets, HP. reflexivity. }
  unfold urlsplit. rewrite Hscheme, Hsplit. simpl.
  rewrite (split_once_lacks "#").
  2:{ rewrite contains_app, Hp2. by apply query_suffix_lacks. }
  rewrite split_query_assembled, Hnetloc. reflexivity.
Qed.

Hypothesis Hplain : last_segment_plain P = true.

Lemma urlparse_assembled :
  urlparse (assembled s n P q) = Ok (mkParse s n P "" q "").
Proof.
  unfold urlparse. rewrite urlsplit_assembled.
  cbn [Py.bind s_scheme s_netloc s_path s_query s_fragment].
  destruct (in_list s uses_params && contains ";" P); [|done].
  rewrite splitparams_plain; [done| |done].
  destruct Hroot as [P' ->]. done.
Qed.

Hypothesis Hlower : lower n = n.
Hypothesis Hcase : truthy n = true \/ String.eqb (take 2 P) "//" = false.

Lemma canonicalize_assembled :
  canonicalize (assembled s n P q) = Ok (assembled s n P q).
Proof.
  unfold canonicalize. rewrite urlparse_assembled.
  cbn [Py.bind scheme netloc path params query fragment].
  assert (Hsch : (if CANONICAL_SCHEME_RE_match (lower s) then lower s else "http")
                 = s) by (by destruct Hs as [-> | ->]).
  rewrite Hsch, Hlower.
  destruct Hroot as [P' HP].
  assert (Htruthy : truthy P = true) by (by rewrite HP).
  replace (if truthy P then P else "/") with (if truthy P then P else "/") by done.
  assert (Hc' : truthy n = true \/
            String.eqb (take 2 (if truthy P then P else "/")) "//" = false)
    by (by rewrite Htruthy).
  rewrite (urlunparse_rooted s n P q Hs Hc').
  by rewrite HP, rooted_path_fixed.
Qed.

End Assembled.

(** *** [canonicalize] *)

Lemma str_all_drop_last p s : str_all p s = true -> str_all p (drop_last s) = true.
Proof.
  induction s as [|a s IH]; [done|]. intros [Ha Hs]%andb_true_iff.
  destruct s as [|b s]; [done|].
  change (drop_last (String a (String b s)))
    with (String a (drop_last (String b s))).
  simpl str_all at 1. rewrite Ha. by apply IH.
Qed.

Lemma splitparams_all p url :
  str_all p url = true -> str_all p (fst (_splitparams url)) = true.
Proof.
  intros H. unfold _splitparams. destruct (contains "/" url).
  - destruct (rfind "/" url) as [r|]; [|done].
    destruct (find_from ";" url r); [|done]. by apply str_all_take.
  - destruct (find ";" url); [by apply str_all_take|by apply str_all_drop_last].
Qed.

Lemma canonical_scheme_spec s :
  contains LF s = false ->
  (if CANONICAL_SCHEME_RE_match (lower s) then lower s else "http")
  = canonical_scheme s /\
  (canonical_scheme s = "http" \/ canonical_scheme s = "https").
Proof.
  intros Hlf. rewrite <- (contains_lower LF) in Hlf by done.
  unfold CANONICAL_SCHEME_RE_match, canonical_scheme, in_list.
  cbn [existsb].
  destruct (String.eqb_spec (lower s) "http") as [->|H1]; [auto|].
  destruct (String.eqb_spec (lower s) "https") as [->|H2]; [auto|].
  destruct (String.eqb_spec (lower s) ("http" +:+ String LF "")) as [E|H3].
  { rewrite E in Hlf. discriminate. }
  destruct (String.eqb_spec (lower s) ("https" +:+ String LF "")) as [E|H4].
  { rewrite E in Hlf. discriminate. }
  auto.
Qed.

Lemma rooted_path_plain p :
  last_segment_plain p = true -> last_segment_plain (rooted_path p) = true.
Proof.
  intros Hp. unfold rooted_path. destruct (truthy p); [|reflexivity].
  destruct (String.eqb (take 1 p) "/"); [done|].
  revert Hp. unfold last_segment_plain.
  change (rfind "/" ("/" +:+ p))
    with (match rfind "/" p with Some i => Some (S i) | None => Some 0 end).
  destruct (rfind "/" p) as [r|].
  - unfold find_from.
    change (drop (S r) ("/" +:+ p)) with (drop r p).
    by destruct (find ";" (drop r p)).
  - unfold find_from.
    change (find ";" (drop 0 ("/" +:+ p))) with (option_map S (find ";" p)).
    intros Hl%negb_true_iff. apply find_none in Hl. by rewrite Hl.
Qed.

Lemma rooted_path_kept n p :
  authority_kept n p = true ->
  truthy n = true \/ String.eqb (take 2 (rooted_path p)) "//" = false.
Proof.
  unfold authority_kept. destruct (truthy n); [by left|right].
  simpl in H. apply negb_true_iff in H.
  unfold rooted_path. destruct p as [|a p]; [reflexivity|]. cbn [truthy].
  destruct (String.eqb (take 1 (String a p)) "/") eqn:E; [done|].
  destruct (Ascii.eqb_spec a "/") as [->|Hne].
  - by destruct p.
  - apply String.eqb_neq. simpl. destruct p; congruence.
Qed.

Lemma authority_kept_default n p :
  authority_kept n p = true ->
  truthy n = true \/
    String.eqb (take 2 (if truthy p then p else "/")) "//" = false.
Proof.
  unfold authority_kept. destruct (truthy n); [by left|right].
  simpl in H. apply negb_true_iff in H. by destruct p.
Qed.

Section Canonical.
Context {RT : Runtime}.
Hypothesis host_check_ignores_case :
  forall h, bracketed_host_ok h = true -> bracketed_host_ok (lower h) = true.

Lemma urlparse_inv url p :
  urlparse url = Ok p ->
  exists sp,
    urlsplit url = Ok sp /\
    scheme p = s_scheme sp /\ netloc p = s_netloc sp /\
    query p = s_query sp /\ fragment p = s_fragment sp /\
    forall pr, str_all pr (s_path sp) = true -> str_all pr (path p) = true.
Proof.
  unfold urlparse. destruct (urlsplit url) as [sp|]; [|discriminate].
  cbn [Py.bind].
  destruct (in_list (s_scheme sp) uses_params && contains ";" (s_path sp)).
  - destruct (_splitparams (s_path sp)) as [u pa] eqn:E.
    intros [= <-]. exists sp. repeat split; try done.
    intros pr Hpr. cbn [path]. change u with (fst (u, pa)). rewrite <- E.
    by apply splitparams_all.
  - intros [= <-]. exists sp. repeat split; done.
Qed.

(** What [canonicalize] hands to [urlunparse], on every URL that
    [urlparse] accepts. *)
Lemma canonicalize_writes url p :
  urlparse url = Ok p ->
  canonicalize url
  = Ok (urlunparse (canonical_scheme (scheme p)) (lower (netloc p))
          (if truthy (path p) then path p else "/") "" (query p) "").
Proof.
  intros Hparse.
  destruct (urlparse_inv _ _ Hparse) as (sp & Hsplit & Hsch & _).
  destruct (urlsplit_lacks_unsafe LF _ _ (or_intror (or_introl eq_refl)) Hsplit)
    as (Hlf & _).
  rewrite <- Hsch in Hlf.
  destruct (canonical_scheme_spec _ Hlf) as [Hcs _].
  unfold canonicalize. rewrite Hparse. cbn [Py.bind]. by rewrite Hcs.
Qed.

(** The canonical URL, its parse, and its own canonical form, once the
    lowered netloc is known to pass [_checknetloc]. *)
Lemma canonicalize_parses_back url p :
  urlparse url = Ok p ->
  _checknetloc (lower (netloc p)) = Ok tt ->
  authority_kept (netloc p) (path p) = true ->
  last_segment_plain (path p) = true ->
  let c := assembled (canonical_scheme (scheme p)) (lower (netloc p))
             (rooted_path (path p)) (query p) in
  canonicalize url = Ok c /\
  urlparse c
  = Ok (mkParse (canonical_scheme (scheme p)) (lower (netloc p))
          (rooted_path (path p)) "" (query p) "") /\
  canonicalize c = Ok c.
Proof.
  intros Hparse Hck Hkept Hplain c.
  destruct (urlparse_inv _ _ Hparse) as (sp & Hsplit & Hsch & Hnet & Hq & _ & Hpath).
  destruct (urlsplit_delimiters _ _ Hsplit)
    as (Hbr & Hn1 & Hn2 & Hn3 & Hp1 & Hp2 & Hq1).
  assert (Hunsafe : forall ch, ch = TAB \/ ch = LF \/ ch = CR ->
            contains ch (scheme p) = false /\ contains ch (netloc p) = false /\
            contains ch (path p) = false /\ contains ch (query p) = false).
  { intros ch Hch.
    destruct (urlsplit_lacks_unsafe ch _ _ Hch Hsplit) as (H1 & H2 & H3 & H4).
    rewrite Hsch, Hnet, Hq. repeat split; try done.
    apply lacks_iff, Hpath, lacks_iff, H3. }
  destruct (canonical_scheme_spec (scheme p)) as [Hcs Hs];
    [apply (Hunsafe LF); auto|].
  assert (Hcanon : canonicalize url = Ok c).
  { unfold canonicalize. rewrite Hparse. cbn [Py.bind]. rewrite Hcs.
    assert (Hk := authority_kept_default _ _ Hkept).
    rewrite <- (truthy_lower (netloc p)) in Hk.
    by rewrite (urlunparse_rooted _ _ _ _ Hs Hk). }
  assert (Hbr' : check_brackets (lower (netloc p)) = Ok tt).
  { apply check_brackets_lower; [done|]. by rewrite Hnet. }
  assert (Hn : contains "/" (lower (netloc p)) = false /\
               contains "?" (lower (netloc p)) = false /\
               contains "#" (lower (netloc p)) = false).
  { rewrite !contains_lower, Hnet by done. done. }
  assert (Hp : contains "?" (rooted_path (path p)) = false /\
               contains "#" (rooted_path (path p)) = false).
  { split; apply lacks_iff, rooted_path_all; try done;
      apply Hpath, lacks_iff; done. }
  assert (Hqq : contains "#" (query p) = false) by (by rewrite Hq).
  assert (Hclean : forall ch, ch = TAB \/ ch = LF \/ ch = CR ->
            contains ch (lower (netloc p)) = false /\
            contains ch (rooted_path (path p)) = false /\
            contains ch (query p) = false).
  { intros ch Hch. destruct (Hunsafe ch Hch) as (_ & H2 & H3 & H4).
    rewrite contains_lower by (by destruct Hch as [-> | [-> | ->]]).
    repeat split; try done.
    apply lacks_iff, rooted_path_all; [by destruct Hch as [-> | [-> | ->]]|].
    by apply lacks_iff. }
  split; [exact Hcanon|]. split.
  - apply urlparse_assembled; auto using rooted_path_rooted, rooted_path_plain.
  - apply canonicalize_assembled;
      auto using rooted_path_rooted, rooted_path_plain, lower_idem,
        rooted_path_kept.
    destruct (rooted_path_kept _ _ Hkept) as [Ht|Ht]; [left|by right].
    by rewrite truthy_lower.
Qed.

(** On an ASCII URL the runtime is not asked about the netloc. *)
Lemma canonicalize_core url p :
  isascii url = true ->
  urlparse url = Ok p ->
  authority_kept (netloc p) (path p) = true ->
  last_segment_plain (path p) = true ->
  let c := assembled (canonical_scheme (scheme p)) (lower (netloc p))
             (rooted_path (path p)) (query p) in
  canonicalize url = Ok c /\
  urlparse c
  = Ok (mkParse (canonical_scheme (scheme p)) (lower (netloc p))
          (rooted_path (path p)) "" (query p) "") /\
  canonicalize c = Ok c.
Proof.
  intros Hascii Hparse. apply canonicalize_parses_back; [exact Hparse|].
  destruct (urlparse_inv _ _ Hparse) as (sp & Hsplit & _ & Hnet & _).
  apply checknetloc_ascii. rewrite isascii_lower, Hnet.
  apply (urlsplit_all is_ascii_char _ _
           (fun a H => eq_trans (lower_char_ascii a) H) Hsplit Hascii).
Qed.

End Canonical.

(** *** Where [urlparse] has already taken the params away *)






Section Claims.
Context {RT : Runtime}.
Hypothesis host_check_ignores_case :
  forall h, bracketed_host_ok h = true -> bracketed_host_ok (lower h) = true.
Hypothesis nfkc_check_ignores_case :
  forall n, nfkc_netloc_ok n = true -> nfkc_netloc_ok (lower n) = true.





End Claims.

(** The runtime is not consulted on URLs without brackets and with an
    ASCII netloc: the evaluations below hold whatever it is. *)
Lemma canonicalize_examples_any_runtime (RT : Runtime) :
  canonicalize "foo://a/b;c" = Ok "http://a/b;c" /\
  canonicalize "http://a/b;c" = Ok "http://a/b" /\
  canonicalize "foo" = Ok "http:///foo" /\
  canonicalize "////x" = Ok "http://x" /\
  canonicalize "http://x" = Ok "http://x/" /\
  canonicalize "http://[" = Raise ValueError /\
  is_allowed_scheme "ftp://example.com/x" = Ok false /\
  is_same_domain "ftp://example.com/x" "http://example.com/" = Ok true.
Proof. repeat split; vm_compute; reflexivity. Qed.



(** Text outside ASCII in the path comes through as it is. *)
Example canonicalize_keeps_other_text :
  Fixture.canonicalize "HTTP://Example.com/café" = Ok "http://example.com/café" /\
  Fixture.canonicalize "http://example.com/café" = Ok "http://example.com/café".
Proof. split; vm_compute; reflexivity. Qed.



End UrlFacts.

(** * Properties of the sitemap parser *)

Module SitemapFacts.
Import Py UrlParse UrlTools Sitemap.

Section WithLibraries.
Context {RT : Runtime} {RS : Resolver} {XD : XmlToDict}.

Lemma collect_loc_entries base_url locs :
  forall urls,
    collect base_url (map loc_entry locs) urls
    = (let* us := normalized_locs base_url locs in Ok (urls ++ us)).
Proof.
  induction locs as [|loc rest IH]; intros urls; simpl.
  - by rewrite app_nil_r.
  - destruct (truthy loc) eqn:Hloc; simpl; rewrite ?Hloc; [|apply IH].
    destruct (normalize_url base_url loc) as [u|e]; simpl; [|done].
    rewrite IH. destruct (normalized_locs base_url rest) as [us|e]; simpl; [|done].
    by rewrite <- app_assoc.
Qed.

Lemma branch_list base_url items child locs :
  assoc child items = Some (XList (map loc_entry locs)) ->
  branch base_url (XDict items) child = normalized_locs base_url locs.
Proof.
  intros H. unfold branch. simpl. rewrite H. simpl.
  rewrite collect_loc_entries.
  by destruct (normalized_locs base_url locs).
Qed.

Lemma branch_single base_url items child loc :
  assoc child items = Some (loc_entry loc) ->
  branch base_url (XDict items) child = normalized_locs base_url [loc].
Proof.
  intros H. unfold branch. simpl. rewrite H. simpl.
  destruct (truthy loc); simpl; [|done].
  by destruct (normalize_url base_url loc).
Qed.

Lemma parse_sitemap_entries base_url text data v :
  xmltodict_parse text = Ok data ->
  entries_of data v ->
  exists items child,
    assoc child items = Some v /\
    parse_sitemap base_url text = branch base_url (XDict items) child.
Proof.
  intros Hparse [(items & Hset & Hurl)|(items & Hnone & Hidx & Hmap)];
    unfold parse_sitemap; rewrite Hparse; simpl.
  - rewrite Hset. eauto.
  - rewrite Hnone, Hidx. eauto.
Qed.

End WithLibraries.

(** C7 as stated fails: on a document that is cut short the exception of
    the XML parser comes out of [parse_sitemap]; no list is returned. *)
Lemma parse_sitemap_raises_on_malformed_xml :
  @xmltodict_parse Fixture.xmltodict "<urlset><url>" = Raise ExpatError /\
  @parse_sitemap Fixture.resolver Fixture.xmltodict
    "http://example.com/" "<urlset><url>" = Raise ExpatError.
Proof. split; reflexivity. Qed.

End SitemapFacts.

(** * Properties of the fetcher *)

Module FetcherFacts.
Import Py UrlParse UrlTools Fetcher FetcherSpec.

Lemma dict_of_items_lookup items name value :
  dict_of_items items !! name = Some value -> (name, value) ∈ items.
Proof.
  induction items as [|[k v] items IH] using rev_ind; [done|].
  unfold dict_of_items in *. rewrite foldl_app, elem_of_app, list_elem_of_singleton.
  cbn [foldl fst snd].
  destruct (decide (k = name)) as [-> | Hne].
  - rewrite lookup_insert_eq. intros [= ->]. by right.
  - rewrite lookup_insert_ne by done. auto.
Qed.

Lemma dict_of_items_lookup_None items name :
  dict_of_items items !! name = None <-> name ∉ items.*1.
Proof.
  induction items as [|[k v] items IH] using rev_ind.
  - split; [intros _; apply not_elem_of_nil|done].
  - unfold dict_of_items in *. rewrite foldl_app, fmap_app, not_elem_of_app.
    cbn [foldl fst snd fmap list_fmap].
    rewrite list_elem_of_singleton.
    destruct (decide (k = name)) as [-> | Hne].
    + rewrite lookup_insert_eq. split; [done|]. by intros [_ H].
    + rewrite lookup_insert_ne by done. rewrite IH.
      split; [intros H; split; congruence|by intros [H _]].
Qed.

Section WithLibraries.
Context {RT : Runtime} {RS : Resolver} {SX : Parser.Selectolax}
        {PF : Manager.Platform}.
Variable cfg : Manager.Config.

(** C8 (amended): the [headers] of a fetch result are a plain [dict]: a
    name is found only in the very spelling in which
    [resp.headers.items()] carries it. The gate of [_maybe_parse_html]
    asks for [Content-Type] in that spelling: it declines to parse when
    the value found has a media type that is not empty and lacks [html],
    and goes on to the parser otherwise, also when the items carry the
    header under another spelling only. *)
Theorem headers_lookup_is_case_sensitive url resp_url st items body seconds r :
  fetch url (Responded resp_url st items body seconds) = Ok r ->
  (forall name value, headers r !! name = Some value -> (name, value) ∈ items) /\
  (forall name, headers r !! name = None <-> name ∉ items.*1) /\
  (forall value,
     headers r !! "Content-Type" = Some value ->
     media_type value <> "" ->
     has_substring "html" (media_type value) = false ->
     Manager._maybe_parse_html cfg url r = None) /\
  (("Content-Type" ∉ items.*1) \/
   (exists value, headers r !! "Content-Type" = Some value /\
      (media_type value = "" \/ has_substring "html" (media_type value) = true)) ->
   body <> "" ->
   Manager._maybe_parse_html cfg url r
   = except_all
       (let* parsed :=
          Parser.parse_html url (Manager.base_url cfg)
            (Manager.decode_utf8_ignore body) in
        Ok (Some parsed))
       None).
Proof.
  intros [= <-]. cbn [headers].
  split; [intros name value; apply dict_of_items_lookup|].
  split; [intros name; apply dict_of_items_lookup_None|].
  unfold Manager._maybe_parse_html, header_get. cbn [headers content].
  fold (media_type (default "" (dict_of_items items !! "Content-Type"))).
  split.
  - intros value -> Hne Hhtml. change (default "" (Some value)) with value.
    assert (Ht : truthy (media_type value) = true)
      by (by destruct (media_type value)).
    by rewrite Ht, Hhtml.
  - intros Hgate Hbody.
    assert (Hb : truthy body = true) by (by destruct body).
    rewrite Hb.
    destruct Hgate as [Habsent | (value & -> & [Hempty | Hhtml])].
    + apply dict_of_items_lookup_None in Habsent. by rewrite Habsent.
    + change (default "" (Some value)) with value. by rewrite Hempty.
    + change (default "" (Some value)) with value.
      by rewrite Hhtml, andb_false_r.
Qed.

End WithLibraries.

(** C8 as stated fails: the answer carries [Content-Type], and the same
    name in lower case finds nothing. *)
Lemma lookup_in_another_case_finds_nothing :
  lower "Content-Type" = "content-type" /\
  Fixture.lookup_both Fixture.pdf_title = Some (Some "application/pdf", None).
Proof. split; vm_compute; reflexivity. Qed.

Lemma headers_lookup_is_case_sensitive_witness :
  let r := mkFetchResult "http://example.com/file.pdf" (Some 200%Z)
             (dict_of_items [("Content-Type", "application/pdf")])
             (Some "%PDF-1.7") PrimFloat.zero None None in
  fetch "http://example.com/file.pdf" Fixture.pdf_title = Ok r /\
  headers r !! "Content-Type" = Some "application/pdf" /\
  headers r !! "content-type" = None /\
  @Manager._maybe_parse_html Fixture.runtime Fixture.resolver Fixture.selectolax
    Fixture.platform (Fixture.cfg 3) "http://example.com/file.pdf" r = None.
Proof.
  intros r.
  assert (Hfetch : fetch "http://example.com/file.pdf" Fixture.pdf_title = Ok r)
    by reflexivity.
  destruct (@headers_lookup_is_case_sensitive
              Fixture.runtime Fixture.resolver Fixture.selectolax Fixture.platform
              (Fixture.cfg 3) "http://example.com/file.pdf"
              "http://example.com/file.pdf" 200%Z
              [("Content-Type", "application/pdf")] "%PDF-1.7" PrimFloat.zero r
              Hfetch) as (_ & Hnone & Hdecline & _).
  assert (Hfound : headers r !! "Content-Type" = Some "application/pdf")
    by (vm_compute; reflexivity).
  split; [exact Hfetch|]. split; [exact Hfound|]. split.
  - apply Hnone. intros Hin. apply list_elem_of_singleton in Hin. discriminate Hin.
  - apply (Hdecline "application/pdf" Hfound).
    + vm_compute. discriminate.
    + vm_compute. reflexivity.
Defined.

End FetcherFacts.

(** * Properties of the duplicate summary *)

Module DuplicatesFacts.
Import Manager Duplicates.

Lemma summarize_duplicates_lookup (m : gmap string (list string)) h urls :
  summarize_duplicates m !! h = Some urls <->
  m !! h = Some urls /\ 1 < length urls.
Proof.
  unfold summarize_duplicates. rewrite map_lookup_filter_Some. simpl.
  rewrite Is_true_true, Nat.ltb_lt. done.
Qed.

(** C10: the comprehension of [crawl] and [summarize_duplicates] give the
    same dictionary for every [duplicate_map], the one that keeps exactly
    the hashes with more than one URL; it is the [duplicate_map] of the
    [CrawlResult]. *)
Theorem crawl_filter_is_summarize_duplicates (m : gmap string (list string)) :
  with_several_urls m = summarize_duplicates m /\
  (forall h urls,
     with_several_urls m !! h = Some urls <->
     m !! h = Some urls /\ 1 < length urls) /\
  (forall s, duplicate_map s = m ->
     r_duplicate_map (crawl_result s) = summarize_duplicates m).
Proof.
  split; [reflexivity|]. split.
  - intros h urls. apply summarize_duplicates_lookup.
  - intros s <-. reflexivity.
Qed.

End DuplicatesFacts.

(** * Properties of the crawl manager *)

Module ManagerFacts.
Import Py UrlParse UrlTools Manager ManagerSpec.
#[local] Set Warnings "-clear-no-such-hyp".

Lemma same_records_refl s : same_records s s.
Proof. repeat split. Qed.

Lemma same_records_trans s1 s2 s3 :
  same_records s1 s2 -> same_records s2 s3 -> same_records s1 s3.
Proof.
  unfold same_records. intros (?&?&?&?&?&?&?) (?&?&?&?&?&?&?).
  repeat split; congruence.
Qed.

Lemma enqueued_exactly_nil s : enqueued_exactly s s [].
Proof.
  repeat split; simpl.
  - by rewrite app_nil_r.
  - set_solver.
  - constructor.
  - set_solver.
Qed.

Lemma enqueued_exactly_cons s s' e acts :
  entry_url e ∉ enqueued s ->
  enqueued_exactly (enqueued_add (entry_url e) (queue_put e s)) s' acts ->
  enqueued_exactly s s' (Put e :: acts).
Proof.
  intros Hnew (Hq & He & Hnd & Hfresh). simpl in *.
  repeat split; simpl.
  - rewrite Hq. by rewrite <- app_assoc.
  - rewrite He. set_solver.
  - constructor; [|done]. intros Hin. apply Hfresh in Hin. set_solver.
  - intros u [->|Hin]%elem_of_cons; [done|].
    apply Hfresh in Hin. set_solver.
Qed.

Section WithLibraries.
Context {RT : Runtime} {RS : Resolver} {XD : Sitemap.XmlToDict}
        {SX : Parser.Selectolax} {RL : Robots.RobotsLib} {PF : Platform}.
Variable cfg : Config.

Lemma harvest_spec url depth links :
  forall s s' acts r,
    harvest cfg url depth links s = (s', acts, r) ->
    same_records s s' /\ enqueued_exactly s s' acts /\
    Forall (harvested cfg url depth links s) acts.
Proof.
  induction links as [|link rest IH]; intros s s' acts r H; simpl in H.
  - inversion H; subst. split; [apply same_records_refl|].
    split; [apply enqueued_exactly_nil|constructor].
  - assert (Hweak : forall s0 s0' acts0 r0,
              harvest cfg url depth rest s0 = (s0', acts0, r0) ->
              visited s0 = visited s ->
              same_records s0 s0' /\ enqueued_exactly s0 s0' acts0 /\
              Forall (harvested cfg url depth (link :: rest) s) acts0).
    { intros s0 s0' acts0 r0 H0 Hv. destruct (IH _ _ _ _ H0) as (?&?&Hall).
      do 2 (split; [done|]). eapply Forall_impl; [exact Hall|].
      intros a (l & -> & Hl & ? & ? & ?). exists l. rewrite <- Hv.
      repeat split; try done. by right. }
    destruct (is_allowed_scheme link) as [[|]|ex] eqn:Hscheme.
    + destruct (bool_decide (link ∉ visited s)) eqn:Hvis; simpl in H.
      * destruct (bool_decide (link ∉ enqueued s)) eqn:Henq; simpl in H.
        -- destruct (is_same_domain link (base_url cfg)) as [[|]|ex] eqn:Hsame.
           ++ destruct (harvest cfg url depth rest _) as [[s1 acts1] r1] eqn:Hrest.
              inversion H; subst; clear H.
              apply bool_decide_eq_true in Hvis, Henq.
              destruct (Hweak _ _ _ _ Hrest eq_refl) as (Hrec & Hexact & Hall).
              split; [exact Hrec|].
              split; [by apply enqueued_exactly_cons|].
              constructor; [|exact Hall].
              exists link. repeat split; try done. by left.
           ++ eapply Hweak; [exact H|done].
           ++ inversion H; subst. split; [apply same_records_refl|].
              split; [apply enqueued_exactly_nil|constructor].
        -- eapply Hweak; [exact H|done].
      * eapply Hweak; [exact H|done].
    + eapply Hweak; [exact H|done].
    + inversion H; subst. split; [apply same_records_refl|].
      split; [apply enqueued_exactly_nil|constructor].
Qed.

Lemma seed_loop_spec urls :
  forall s s' acts,
    seed_loop cfg urls s = Ok (s', acts) ->
    same_records s s' /\ enqueued_exactly s s' acts /\
    Forall (fun a => exists u, a = Put (u, 0%Z, None) /\ u ∈ urls /\
                     is_same_domain u (base_url cfg) = Ok true) acts.
Proof.
  induction urls as [|u rest IH]; intros s s' acts H; simpl in H.
  - inversion H; subst. split; [apply same_records_refl|].
    split; [apply enqueued_exactly_nil|constructor].
  - assert (Hweak : forall s0 s0' acts0,
              seed_loop cfg rest s0 = Ok (s0', acts0) ->
              same_records s0 s0' /\ enqueued_exactly s0 s0' acts0 /\
              Forall (fun a => exists v, a = Put (v, 0%Z, None) /\ v ∈ u :: rest /\
                               is_same_domain v (base_url cfg) = Ok true) acts0).
    { intros s0 s0' acts0 H0. destruct (IH _ _ _ H0) as (?&?&Hall).
      do 2 (split; [done|]). eapply Forall_impl; [exact Hall|].
      intros a (v & -> & Hv & ?). exists v. repeat split; try done. by right. }
    destruct (is_same_domain u (base_url cfg)) as [same|ex] eqn:Hsame;
      simpl in H; [|discriminate].
    destruct same; simpl in H; [|by apply Hweak].
    destruct (bool_decide (u ∉ enqueued s)) eqn:Henq; [|by apply Hweak].
    destruct (seed_loop cfg rest _) as [[s1 acts1]|ex] eqn:Hrest;
      simpl in H; [|discriminate].
    inversion H; subst; clear H. apply bool_decide_eq_true in Henq.
    destruct (Hweak _ _ _ Hrest) as (Hrec & Hexact & Hall).
    split; [exact Hrec|]. split; [by apply enqueued_exactly_cons|].
    constructor; [|exact Hall]. exists u. repeat split; try done. by left.
Qed.

Lemma fetch_url url o result :
  Fetcher.fetch url o = Ok result -> Fetcher.url result = url.
Proof. destruct o; simpl; intros H; inversion H; subst; reflexivity. Qed.

Lemma process_url_head_spec e s s' acts wk :
  process_url_head cfg e s = (s', acts, wk) -> head_outcome cfg e s s' acts wk.
Proof.
  destruct e as [[url depth] source]. unfold process_url_head.
  destruct (bool_decide (url ∈ visited s)) eqn:Hv.
  { intros H; inversion H; subst. apply bool_decide_eq_true in Hv.
    by constructor. }
  apply bool_decide_eq_false in Hv.
  destruct (robots_denies (visited_add url s) url) eqn:Hr.
  { intros H; inversion H; subst. apply head_skipped; auto. }
  destruct (max_depth cfg <? depth)%Z eqn:Hd.
  { intros H; inversion H; subst. apply Z.ltb_lt in Hd.
    apply head_skipped; auto. }
  apply Z.ltb_ge in Hd.
  intros H; inversion H; subst. by apply head_fetching.
Qed.

Lemma digest_and_parse_spec url result s s1 ch parsed :
  digest_and_parse cfg url result s = (s1, ch, parsed) ->
  queue s1 = queue s /\ enqueued s1 = enqueued s /\
  visited s1 = visited s /\ edges s1 = edges s /\
  robots s1 = robots s /\ workers s1 = workers s /\
  pages s1 = pages s /\
  (duplicate_map s1 = duplicate_map s \/
   exists h, ch = Some h /\
     duplicate_map s1 =
       <[h := default [] (duplicate_map s !! h) ++ [url]]> (duplicate_map s)).
Proof.
  unfold digest_and_parse. intros Hblock.
  destruct (Fetcher.content result) as [body|].
  - destruct (truthy body).
    + destruct (truthy (md5_hexdigest body)) eqn:Hh;
        inversion Hblock; subst; simpl; repeat split; eauto.
    + inversion Hblock; subst; repeat split; eauto.
  - inversion Hblock; subst; repeat split; eauto.
Qed.

Lemma record_page_spec page s :
  let s' := record_page page s in
  queue s' = queue s /\ enqueued s' = enqueued s /\
  visited s' = visited s /\ edges s' = edges s /\
  robots s' = robots s /\ workers s' = workers s /\
  pages s' = pages s ++ [page] /\ duplicate_map s' = duplicate_map s.
Proof. unfold record_page. destruct (_ && _); simpl; repeat split. Qed.

Lemma process_url_tail_spec e o s s' acts wk :
  process_url_tail cfg e o s = (s', acts, wk) -> tail_outcome cfg e s s' acts wk.
Proof.
  destruct e as [[url depth] source]. unfold process_url_tail.
  destruct (Fetcher.fetch url o) as [result|ex] eqn:Hfetch.
  2:{ intros H; inversion H; subst. by constructor. }
  apply fetch_url in Hfetch.
  destruct (digest_and_parse cfg url result s) as [[s1 ch] parsed] eqn:Hblock.
  apply digest_and_parse_spec in Hblock.
  destruct Hblock as (Hq & He & Hv & Hed & Hro & Hw & Hp & Hdup).
  set (page := _build_page result parsed ch).
  destruct (record_page_spec page s1) as (Hq' & He' & Hv' & Hed' & Hro' & Hw' & Hp' & Hd').
  set (s3 := record_page page s1) in *.
  assert (Hrec : recorded (url, depth, source) page s s3).
  { unfold recorded. rewrite Hq', He', Hv', Hed', Hro', Hw', Hp', Hd'.
    rewrite Hq, He, Hv, Hed, Hro, Hw, Hp. repeat split; try done. }
  destruct (notify cfg page) as [[]|ex].
  2:{ intros H; inversion H; subst.
      eapply (tail_emitted cfg _ _ _ page s3 []); eauto using same_records_refl,
        enqueued_exactly_nil. }
  destruct parsed as [pp|].
  2:{ intros H; inversion H; subst.
      eapply (tail_emitted cfg _ _ _ page s3 []); eauto using same_records_refl,
        enqueued_exactly_nil. }
  destruct (harvest cfg url depth (Parser.internal_links pp) s3)
    as [[s4 hacts] r] eqn:Hh.
  intros H; inversion H; subst.
  destruct (harvest_spec _ _ _ _ _ _ _ Hh) as (Hsame & Hexact & Hall).
  eapply (tail_emitted cfg _ _ _ page s3 (Parser.internal_links pp)); eauto.
  intros e'. by destruct r.
Qed.

Lemma step_spec s ev s' acts :
  step cfg s ev = Some (s', acts) -> step_outcome cfg s s' acts.
Proof.
  destruct ev as [w|w o]; simpl.
  - destruct (workers s !! w) as [[| |]|] eqn:Hw; try discriminate.
    destruct (queue s) as [|e q] eqn:Hq; try discriminate.
    destruct (process_url_head cfg e (queue_pop s)) as [[s1 a1] wk] eqn:Hh.
    intros H; inversion H; subst.
    eapply step_take; eauto using process_url_head_spec.
  - destruct (workers s !! w) as [[| |]|] eqn:Hw; try discriminate.
    destruct (process_url_tail cfg e o s) as [[s1 a1] wk] eqn:Ht.
    intros H; inversion H; subst.
    eapply step_fetched; eauto using process_url_tail_spec.
Qed.

(** Induction along a schedule. *)
Lemma run_invariant (P : State -> list Action -> Prop) :
  (forall s tr s' acts, P s tr -> step_outcome cfg s s' acts -> P s' (tr ++ acts)) ->
  forall evs s tr s' acts,
    P s tr -> run cfg s evs = Some (s', acts) -> P s' (tr ++ acts).
Proof.
  intros Hstep. induction evs as [|ev rest IH]; intros s tr s' acts HP H; simpl in H.
  - inversion H; subst. by rewrite app_nil_r.
  - destruct (step cfg s ev) as [[s1 a1]|] eqn:Hs; [|discriminate].
    destruct (run cfg s1 rest) as [[s2 a2]|] eqn:Hr; [|discriminate].
    inversion H; subst. rewrite app_assoc.
    eapply IH; [|exact Hr]. eapply Hstep; [exact HP|].
    by eapply step_spec.
Qed.

(** The state after [_prepare_seed_urls]. *)
Lemma prepare_seed_urls_spec robots_o sitemap_o s acts :
  _prepare_seed_urls cfg initial_state robots_o sitemap_o = Ok (s, acts) ->
  exists acts',
    acts = Put (base_url cfg, 0%Z, None) :: acts' /\
    enqueued_exactly initial_state s acts /\
    visited s = ∅ /\ edges s = [] /\ pages s = [] /\ duplicate_map s = ∅ /\
    workers s = [] /\
    Forall (fun a => exists u, a = Put (u, 0%Z, None) /\
                     is_same_domain u (base_url cfg) = Ok true) acts'.
Proof.
  unfold _prepare_seed_urls.
  destruct (yarl_with_path (base_url cfg) "/robots.txt") as [robots_url|];
    simpl; [|discriminate].
  destruct (Fetcher.fetch robots_url robots_o) as [robots_result|];
    simpl; [|discriminate].
  destruct (yarl_with_path (base_url cfg) "/sitemap.xml") as [sitemap_url|];
    simpl; [|discriminate].
  destruct (Fetcher.fetch sitemap_url sitemap_o) as [sitemap_result|];
    simpl; [|discriminate].
  match goal with
  | |- context [set_robots ?r ?s0] => set (s1 := set_robots r s0)
  end.
  assert (Hbase : enqueued_exactly
            (enqueued_add (base_url cfg)
               (queue_put (base_url cfg, 0%Z, None) initial_state)) s1 []).
  { repeat split; simpl; [set_solver|constructor|set_solver]. }
  destruct (_ && _).
  - destruct (seed_loop cfg _ s1) as [[s2 a2]|] eqn:Hloop; simpl; [|discriminate].
    intros H; inversion H; subst; clear H.
    destruct (seed_loop_spec _ _ _ _ Hloop)
      as ((Hv & Hed & Hp & Hd & _ & _ & Hw) & Hexact & Hall).
    exists a2. split; [done|].
    split.
    { apply (enqueued_exactly_cons _ _ (base_url cfg, 0%Z, None));
        [apply not_elem_of_empty|].
      destruct Hexact as (Hq & He & Hnd & Hfresh).
      repeat split; try done. }
    rewrite Hv, Hed, Hp, Hd, Hw. repeat split.
    eapply Forall_impl; [exact Hall|]. intros a (u & -> & _ & ?). eauto.
  - intros H; inversion H; subst; clear H.
    exists []. split; [done|].
    split.
    { apply (enqueued_exactly_cons _ _ (base_url cfg, 0%Z, None));
        [apply not_elem_of_empty|exact Hbase]. }
    repeat split; constructor.
Qed.

Lemma crawl_prefix_invariant (P : State -> list Action -> Prop) :
  (forall robots_o sitemap_o s acts,
      _prepare_seed_urls cfg initial_state robots_o sitemap_o = Ok (s, acts) ->
      P (set_workers (replicate (threads cfg) Waiting) s) acts) ->
  (forall s tr s' acts, P s tr -> step_outcome cfg s s' acts -> P s' (tr ++ acts)) ->
  forall robots_o sitemap_o evs s tr,
    crawl_prefix cfg robots_o sitemap_o evs = Some (s, tr) -> P s tr.
Proof.
  intros Hseed Hstep robots_o sitemap_o evs s tr. unfold crawl_prefix.
  destruct (_prepare_seed_urls cfg initial_state robots_o sitemap_o)
    as [[s0 a0]|] eqn:Hp; [|discriminate].
  destruct (run cfg _ evs) as [[s1 a1]|] eqn:Hr; [|discriminate].
  intros H; inversion H; subst.
  eapply run_invariant; eauto.
Qed.

(** What harvested actions project to. *)
Lemma harvested_only_puts url depth links s0 acts :
  Forall (harvested cfg url depth links s0) acts ->
  processed_urls acts = [] /\ emitted acts = [].
Proof.
  induction 1 as [|a acts (l & -> & _) _ [IH1 IH2]]; [done|].
  split; [exact IH1|exact IH2].
Qed.

(** *** The frontier admits a URL once *)

Lemma frontier_inv_extend s tr s' acts :
  frontier_inv s tr ->
  enqueued s' = enqueued s ∪ list_to_set (put_urls acts) ->
  NoDup (put_urls acts) ->
  (forall u, u ∈ put_urls acts -> u ∉ enqueued s) ->
  frontier_inv s' (tr ++ acts).
Proof.
  intros [Hnd Hsub] He Hnd' Hfresh.
  unfold frontier_inv, put_urls in *. rewrite omap_app. split.
  - apply NoDup_app. split; [done|]. split; [|done].
    intros u Hu Hu'. apply Hfresh in Hu'. apply Hsub in Hu. done.
  - intros u [Hu|Hu]%elem_of_app; rewrite He; set_solver.
Qed.

Lemma head_outcome_frontier e s s' acts wk :
  head_outcome cfg e s s' acts wk -> enqueued s' = enqueued s /\ put_urls acts = [].
Proof.
  destruct 1; subst; try done.
  destruct (entry_source e) as [src|]; [destruct (truthy src)|]; done.
Qed.

Lemma frontier_inv_step s tr s' acts :
  frontier_inv s tr -> step_outcome cfg s s' acts -> frontier_inv s' (tr ++ acts).
Proof.
  intros Hinv [w e q s1 wk Hw Hq Hhead -> | w e s1 wk Hw Htail ->].
  - destruct (head_outcome_frontier _ _ _ _ _ Hhead) as [He Hnone].
    apply (frontier_inv_extend s); try done; rewrite Hnone; simpl.
    + rewrite He. simpl. set_solver.
    + constructor.
    + intros u Hu. by apply elem_of_nil in Hu.
  - destruct Htail as [ex -> | page s2 links hacts wk Hrec Hsame Hexact Hall Hwk].
    + apply (frontier_inv_extend s); try done; simpl.
      * set_solver.
      * constructor.
      * intros u Hu. by apply elem_of_nil in Hu.
    + destruct Hrec as (_ & He1 & _). destruct Hexact as (_ & He2 & Hnd & Hfresh).
      apply (frontier_inv_extend s); try done; simpl.
      * by rewrite He2, He1.
      * intros u Hu. rewrite <- He1. by apply Hfresh.
Qed.

(** *** A URL passes the visited check once *)

Lemma processed_urls_app tr acts :
  processed_urls (tr ++ acts) = processed_urls tr ++ processed_urls acts.
Proof. apply omap_app. Qed.

Lemma emitted_app tr acts : emitted (tr ++ acts) = emitted tr ++ emitted acts.
Proof. apply omap_app. Qed.

Lemma head_outcome_visited e s s' acts wk :
  head_outcome cfg e s s' acts wk ->
  (visited s' = visited s /\ processed_urls acts = []) \/
  ((entry_url e ∉ visited s) /\ visited s' = (visited s ∪ {[entry_url e]}) /\
   processed_urls acts = [entry_url e]).
Proof.
  destruct 1; subst; [by left|by right|right].
  destruct (entry_source e) as [src|]; [destruct (truthy src)|]; done.
Qed.

Lemma visited_inv_step s tr s' acts :
  visited_inv s tr -> step_outcome cfg s s' acts -> visited_inv s' (tr ++ acts).
Proof.
  intros [Hnd Hsub] [w e q s1 wk Hw Hq Hhead -> | w e s1 wk Hw Htail ->];
    unfold visited_inv in *; rewrite processed_urls_app.
  - destruct (head_outcome_visited _ _ _ _ _ Hhead)
      as [[Hv Hnone]|(Hnew & Hv & Hone)]; simpl; rewrite Hv.
    + rewrite Hnone, app_nil_r. done.
    + rewrite Hone. simpl in Hnew. split.
      * apply NoDup_app. split; [done|]. split; [|apply NoDup_singleton].
        intros u Hu ->%list_elem_of_singleton. apply Hsub in Hu. done.
      * intros u [Hu | ->%list_elem_of_singleton]%elem_of_app; set_solver.
  - destruct Htail as [ex -> | page s2 links hacts wk Hrec Hsame Hexact Hall Hwk].
    + simpl. rewrite app_nil_r. done.
    + destruct (harvested_only_puts _ _ _ _ _ Hall) as [Hnone _].
      change (processed_urls (Emit e page :: hacts)) with (processed_urls hacts).
      rewrite Hnone, app_nil_r.
      destruct Hrec as (_ & _ & Hv & _). destruct Hsame as (Hv' & _).
      simpl. rewrite Hv', Hv. done.
Qed.

(** *** No fetch, and no page, below the depth limit *)

Lemma head_outcome_workers e s s' acts wk :
  head_outcome cfg e s s' acts wk -> workers s' = workers s.
Proof.
  destruct 1; subst; try done.
  destruct (entry_source e) as [src|]; [destruct (truthy src)|]; done.
Qed.

Lemma head_outcome_emitted e s s' acts wk :
  head_outcome cfg e s s' acts wk -> emitted acts = [].
Proof. by destruct 1. Qed.

Lemma depth_inv_step s tr s' acts :
  depth_inv cfg s tr -> step_outcome cfg s s' acts -> depth_inv cfg s' (tr ++ acts).
Proof.
  intros [Hwk Hem] [w e q s1 wk Hw Hq Hhead -> | w e s1 wk Hw Htail ->];
    unfold depth_inv in *; rewrite emitted_app.
  - rewrite (head_outcome_emitted _ _ _ _ _ Hhead), app_nil_r. simpl.
    rewrite (head_outcome_workers _ _ _ _ _ Hhead). simpl. split; [|done].
    intros w' e' [(-> & Hf & _)|(_ & Hl)]%list_lookup_insert_Some; [|eauto].
    destruct Hhead; try discriminate. by inversion Hf; subst.
  - destruct Htail as [ex -> | page s2 links hacts wk Hrec Hsame Hexact Hall Hnf].
    + simpl. rewrite app_nil_r. split; [|done].
      intros w' e' [(-> & Hf & _)|(_ & Hl)]%list_lookup_insert_Some;
        [discriminate|eauto].
    + destruct Hrec as (_ & _ & _ & _ & _ & Hw1 & _).
      destruct Hsame as (_ & _ & _ & _ & _ & _ & Hw2).
      destruct (harvested_only_puts _ _ _ _ _ Hall) as [_ Hnone].
      change (emitted (Emit e page :: hacts)) with ((e, page) :: emitted hacts).
      rewrite Hnone. simpl. rewrite Hw2, Hw1. split.
      * intros w' e' [(-> & Hf & _)|(_ & Hl)]%list_lookup_insert_Some; [|eauto].
        by destruct (Hnf e').
      * intros e' p [Hin|Hin]%elem_of_app; [eauto|].
        apply list_elem_of_singleton in Hin. inversion Hin; subst. eauto.
Qed.

(** *** Every URL of a bucket has its page *)

Lemma duplicates_inv_step s s' acts :
  duplicates_inv s -> step_outcome cfg s s' acts -> duplicates_inv s'.
Proof.
  intros Hinv [w e q s1 wk Hw Hq Hhead -> | w e s1 wk Hw Htail ->].
  - assert (pages s1 = pages s /\ duplicate_map s1 = duplicate_map s) as [Hp Hd].
    { destruct Hhead; subst; try done.
      destruct (entry_source e) as [src|]; [destruct (truthy src)|]; done. }
    unfold duplicates_inv. simpl. rewrite Hp, Hd. exact Hinv.
  - destruct Htail as [ex -> | page s2 links hacts wk Hrec Hsame Hexact Hall Hnf].
    + exact Hinv.
    + destruct Hrec as (_ & _ & _ & _ & _ & _ & Hp & Hurl & Hdup).
      destruct Hsame as (_ & _ & Hp' & Hd' & _).
      unfold duplicates_inv. simpl. rewrite Hp', Hd', Hp.
      intros h urls u Hlook Hin.
      assert (Hold : forall h0 urls0, duplicate_map s !! h0 = Some urls0 ->
                u ∈ urls0 ->
                exists p, p ∈ pages s ++ [page] /\ url p = u /\
                          content_hash p = Some h0).
      { intros h0 urls0 H0 Hu. destruct (Hinv _ _ _ H0 Hu) as (p & ? & ? & ?).
        exists p. split; [apply elem_of_app; by left|done]. }
      destruct Hdup as [Hsame|(h' & Hh' & Hins)].
      * rewrite Hsame in Hlook. eauto.
      * rewrite Hins in Hlook.
        destruct (decide (h' = h)) as [->|Hne].
        -- rewrite lookup_insert_eq in Hlook. inversion Hlook; subst.
           apply elem_of_app in Hin as [Hin|Hin].
           ++ destruct (duplicate_map s !! h) as [old|] eqn:Hold';
                simpl in Hin; [eauto|by apply elem_of_nil in Hin].
           ++ apply list_elem_of_singleton in Hin. subst u.
              exists page. split; [apply elem_of_app; right; by left|done].
        -- rewrite lookup_insert_ne in Hlook by done. eauto.
Qed.

(** *** [pages] holds the emitted pages, in order *)

Lemma head_outcome_pages e s s' acts wk :
  head_outcome cfg e s s' acts wk -> pages s' = pages s.
Proof.
  destruct 1; subst; try done.
  destruct (entry_source e) as [src|]; [destruct (truthy src)|]; done.
Qed.

Lemma pages_inv_step s tr s' acts :
  pages_inv s tr -> step_outcome cfg s s' acts -> pages_inv s' (tr ++ acts).
Proof.
  intros Hinv [w e q s1 wk Hw Hq Hhead -> | w e s1 wk Hw Htail ->];
    unfold pages_inv in *; rewrite emitted_app, fmap_app.
  - rewrite (head_outcome_emitted _ _ _ _ _ Hhead), app_nil_r. simpl.
    by rewrite (head_outcome_pages _ _ _ _ _ Hhead).
  - destruct Htail as [ex -> | page s2 links hacts wk Hrec Hsame Hexact Hall Hnf].
    + simpl. by rewrite app_nil_r.
    + destruct Hrec as (_ & _ & _ & _ & _ & _ & Hp & _).
      destruct Hsame as (_ & _ & Hp' & _).
      destruct (harvested_only_puts _ _ _ _ _ Hall) as [_ Hnone].
      change (emitted (Emit e page :: hacts)) with ((e, page) :: emitted hacts).
      rewrite Hnone. simpl. by rewrite Hp', Hp, Hinv.
Qed.

(** *** All invariants, on every prefix of a crawl *)

Lemma seeded_only_puts (acts : list Action) :
  Forall (fun a => exists e, a = Put e) acts ->
  processed_urls acts = [] /\ emitted acts = [].
Proof.
  induction 1 as [|a acts (e & ->) _ [IH1 IH2]]; [done|].
  split; [exact IH1|exact IH2].
Qed.

Lemma crawl_inv_seed robots_o sitemap_o s acts :
  _prepare_seed_urls cfg initial_state robots_o sitemap_o = Ok (s, acts) ->
  crawl_inv cfg (set_workers (replicate (threads cfg) Waiting) s) acts.
Proof.
  intros H. apply prepare_seed_urls_spec in H
    as (acts' & -> & (Hq & He & Hnd & Hfresh) & Hv & Hed & Hp & Hd & Hw & Hall).
  assert (Hputs : Forall (fun a => exists e, a = Put e)
                    (Put (base_url cfg, 0%Z, None) :: acts')).
  { constructor; [eauto|]. eapply Forall_impl; [exact Hall|].
    intros a (u & -> & _). eauto. }
  apply seeded_only_puts in Hputs as [Hnone1 Hnone2].
  unfold crawl_inv, frontier_inv, visited_inv, depth_inv, pages_inv,
    duplicates_inv.
  rewrite Hnone1, Hnone2. simpl. rewrite He, Hp, Hd.
  split; [split; [exact Hnd|set_solver]|].
  split; [split; [constructor|intros u Hu; by apply elem_of_nil in Hu]|].
  split; [split|].
  - intros w e [Hf _]%lookup_replicate. discriminate.
  - intros e p Hin. by apply elem_of_nil in Hin.
  - split; [done|]. intros h urls u. by rewrite lookup_empty.
Qed.

Lemma crawl_inv_step s tr s' acts :
  crawl_inv cfg s tr -> step_outcome cfg s s' acts -> crawl_inv cfg s' (tr ++ acts).
Proof.
  intros (H1 & H2 & H3 & H4 & H5) Hstep.
  split; [by eapply frontier_inv_step|].
  split; [by eapply visited_inv_step|].
  split; [by eapply depth_inv_step|].
  split; [by eapply pages_inv_step|by eapply duplicates_inv_step].
Qed.

Lemma crawl_prefix_inv robots_o sitemap_o evs s tr :
  crawl_prefix cfg robots_o sitemap_o evs = Some (s, tr) -> crawl_inv cfg s tr.
Proof.
  apply crawl_prefix_invariant; eauto using crawl_inv_seed, crawl_inv_step.
Qed.

(** C1: over a whole crawl a URL is put on the frontier at most once, kept
    so by [enqueued], and passes the visited check of [_process_url] at
    most once, kept so by [visited]. *)
Theorem crawl_url_enqueued_and_processed_once robots_o sitemap_o evs s tr :
  crawl_prefix cfg robots_o sitemap_o evs = Some (s, tr) ->
  NoDup (put_urls tr) /\ NoDup (processed_urls tr) /\
  (forall u, u ∈ put_urls tr -> u ∈ enqueued s) /\
  (forall u, u ∈ processed_urls tr -> u ∈ visited s).
Proof.
  intros H. apply crawl_prefix_inv in H as ([? ?] & [? ?] & _). done.
Qed.

(** C5: in the result of [crawl], a hash of [duplicate_map] maps to at
    least two URLs, and each of them has a page in [pages] with that URL
    and that [content_hash]. *)
Theorem duplicate_map_buckets_are_pairs_of_pages robots_o sitemap_o evs r :
  crawl cfg robots_o sitemap_o evs = Some r ->
  forall h urls,
    r_duplicate_map r !! h = Some urls ->
    2 <= length urls /\
    forall u, u ∈ urls ->
      exists p, p ∈ r_pages r /\ url p = u /\ content_hash p = Some h.
Proof.
  unfold crawl. intros H h urls Hlook.
  destruct (crawl_prefix cfg robots_o sitemap_o evs) as [[s tr]|] eqn:Hpre;
    [|discriminate].
  destruct (drained s); [|discriminate]. inversion H; subst; clear H.
  apply crawl_prefix_inv in Hpre as (_ & _ & _ & _ & Hdup).
  simpl in Hlook. unfold with_several_urls in Hlook.
  apply map_lookup_filter_Some in Hlook as [Hlook Hlen].
  simpl in Hlen. apply Is_true_true, Nat.ltb_lt in Hlen.
  split; [lia|]. intros u Hu. simpl. eauto.
Qed.

(** The harvesting loop admits a link only after the scheme filter, the
    same-host test and the two membership tests. *)
Lemma harvested_links_pass_admission s w o e s' acts :
  workers s !! w = Some (Fetching e) ->
  step cfg s (Fetched w o) = Some (s', acts) ->
  forall e', e' ∈ puts acts ->
    is_allowed_scheme (entry_url e') = Ok true /\
    is_same_domain (entry_url e') (base_url cfg) = Ok true /\
    (entry_url e' ∉ visited s) /\ (entry_url e' ∉ enqueued s).
Proof.
  intros Hw Hstep. simpl in Hstep. rewrite Hw in Hstep.
  destruct (process_url_tail cfg e o s) as [[s1 a1] wk] eqn:Ht.
  inversion Hstep; subst; clear Hstep.
  apply process_url_tail_spec in Ht.
  destruct Ht as [ex -> | page s2 links hacts wk Hrec Hsame Hexact Hall Hnf].
  - intros e' Hin. by apply elem_of_nil in Hin.
  - change (puts (Emit e page :: hacts)) with (puts hacts).
    destruct Hrec as (_ & He & Hv & _). destruct Hexact as (_ & _ & _ & Hfresh).
    intros e' Hin. unfold puts in Hin.
    apply list_elem_of_omap in Hin as (a & Ha & Hput).
    rewrite Forall_forall in Hall.
    destruct (Hall a Ha) as (link & -> & _ & Hscheme & Hsame' & Hvis).
    inversion Hput; subst. simpl. rewrite <- Hv, <- He.
    repeat split; try done. apply Hfresh.
    unfold put_urls. apply list_elem_of_omap. eexists. split; [exact Ha|done].
Qed.

(** An entry turned away by robots or by the depth limit leaves [edges]
    as it was. *)
Lemma skipped_entry_leaves_no_edge e s s' acts :
  head_outcome cfg e s s' acts Waiting -> edges s' = edges s.
Proof. inversion 1; subst; reflexivity. Qed.

(** C2 (amended): an entry with a non-empty source that is taken from the
    queue, is not yet visited, is allowed by robots and lies within
    [max_depth] has its pair [(source, url)] appended to [edges] before
    the fetch, and no outcome of that fetch takes it away again. *)
Theorem edge_recorded_before_fetch s w url depth src q :
  workers s !! w = Some Waiting ->
  queue s = (url, depth, Some src) :: q ->
  src <> "" ->
  url ∉ visited s ->
  robots_denies s url = false ->
  (depth <= max_depth cfg)%Z ->
  exists s' acts,
    step cfg s (Take w) = Some (s', acts) /\
    edges s' = edges s ++ [(src, url)] /\
    workers s' !! w = Some (Fetching (url, depth, Some src)) /\
    forall o s'' acts',
      step cfg s' (Fetched w o) = Some (s'', acts') -> edges s'' = edges s'.
Proof.
  intros Hw Hq Hsrc Hvis Hrob Hdepth.
  assert (Htruthy : truthy src = true) by (by destruct src).
  assert (Hhead : process_url_head cfg (url, depth, Some src) (queue_pop s)
            = (edges_append (src, url) (visited_add url (queue_pop s)),
               [Process (url, depth, Some src)],
               Fetching (url, depth, Some src))).
  { unfold process_url_head.
    rewrite bool_decide_eq_false_2 by exact Hvis.
    change (robots_denies (visited_add url (queue_pop s)) url)
      with (robots_denies s url).
    rewrite Hrob. apply Z.ltb_ge in Hdepth. rewrite Hdepth, Htruthy. done. }
  eexists _, _. split.
  { simpl. rewrite Hw, Hq, Hhead. reflexivity. }
  split; [reflexivity|].
  assert (Hlook : <[w := Fetching (url, depth, Some src)]> (workers s) !! w
                  = Some (Fetching (url, depth, Some src))).
  { apply list_lookup_insert_eq. by eapply lookup_lt_Some. }
  split; [exact Hlook|].
  intros o s'' acts' Hstep. cbn [step] in Hstep.
  match type of Hstep with
  | context [workers ?st !! w] =>
      change (workers st !! w)
        with (<[w := Fetching (url, depth, Some src)]> (workers s) !! w) in Hstep
  end.
  rewrite Hlook in Hstep.
  match type of Hstep with
  | context [process_url_tail cfg ?e o ?st] =>
      destruct (process_url_tail cfg e o st) as [[s1 a1] wk] eqn:Ht
  end.
  inversion Hstep; subst; clear Hstep.
  apply process_url_tail_spec in Ht.
  destruct Ht as [ex -> | page s2 links hacts wk Hrec Hsame Hexact Hall Hnf].
  - reflexivity.
  - destruct Hrec as (_ & _ & _ & Hed & _). destruct Hsame as (_ & Hed' & _).
    cbn [edges set_workers]. rewrite Hed', Hed. reflexivity.
Qed.

End WithLibraries.
End ManagerFacts.

(** * Concrete runs on the fixture site *)

Module CrawlRuns.
Import Py UrlParse UrlTools Manager.

Lemma crawl_url_enqueued_and_processed_once_witness :
  match Fixture.crawl_prefix 3 Fixture.not_found Fixture.schedule with
  | Some (s, tr) =>
      NoDup (put_urls tr) /\ NoDup (processed_urls tr) /\
      (forall u, u ∈ put_urls tr -> u ∈ enqueued s) /\
      (forall u, u ∈ processed_urls tr -> u ∈ visited s)
  | None => False
  end.
Proof.
  destruct (Fixture.crawl_prefix 3 Fixture.not_found Fixture.schedule)
    as [[s tr]|] eqn:H.
  - exact (ManagerFacts.crawl_url_enqueued_and_processed_once _ _ _ _ _ _ H).
  - vm_compute in H. discriminate H.
Defined.

Lemma duplicate_map_buckets_are_pairs_of_pages_witness :
  match Fixture.crawl 3 Fixture.not_found Fixture.schedule_with_copy with
  | Some r =>
      forall h urls,
        r_duplicate_map r !! h = Some urls ->
        2 <= length urls /\
        forall u, u ∈ urls ->
          exists p, p ∈ r_pages r /\ url p = u /\ content_hash p = Some h
  | None => False
  end.
Proof.
  destruct (Fixture.crawl 3 Fixture.not_found Fixture.schedule_with_copy)
    as [r|] eqn:H.
  - exact (ManagerFacts.duplicate_map_buckets_are_pairs_of_pages _ _ _ _ _ H).
  - vm_compute in H. discriminate H.
Defined.

(** The run of the witness above ends with one bucket, holding both URLs. *)
Example copy_is_reported :
  option_map (fun r => map_to_list (r_duplicate_map r))
    (Fixture.crawl 3 Fixture.not_found Fixture.schedule_with_copy)
  = Some [("md5-of-<a href=http://example.com/b>",
           ["http://example.com/"; "http://example.com/b"])].
Proof. vm_compute. reflexivity. Qed.

(** C2 as stated fails: with [max_depth = 0] the entry for [/b] is taken
    from the queue with the seed page as its source and is marked visited,
    yet [edges] stays empty. *)
Lemma dequeued_beyond_depth_records_no_edge :
  queue (Fixture.after_seed_page 0)
    = [("http://example.com/b", 1%Z, Some "http://example.com/")] /\
  option_map (fun st => (edges (fst st), elements (visited (fst st)), snd st))
    (Fixture.step 0 (Fixture.after_seed_page 0) (Take 1))
  = Some ([], ["http://example.com/b"; "http://example.com/"],
          [Process ("http://example.com/b", 1%Z, Some "http://example.com/")]).
Proof. split; vm_compute; reflexivity. Qed.

Lemma edge_recorded_before_fetch_witness :
  exists s' acts,
    Fixture.step 3 (Fixture.after_seed_page 3) (Take 1) = Some (s', acts) /\
    edges s' = edges (Fixture.after_seed_page 3)
                 ++ [("http://example.com/", "http://example.com/b")] /\
    workers s' !! 1 =
      Some (Fetching ("http://example.com/b", 1%Z, Some "http://example.com/")) /\
    forall o s'' acts',
      Fixture.step 3 s' (Fetched 1 o) = Some (s'', acts') -> edges s'' = edges s'.
Proof.
  apply (@ManagerFacts.edge_recorded_before_fetch
           Fixture.runtime Fixture.resolver Fixture.selectolax
           Fixture.robots_lib Fixture.platform (Fixture.cfg 3)
           (Fixture.after_seed_page 3) 1 "http://example.com/b" 1%Z
           "http://example.com/" []).
  - vm_compute. reflexivity.
  - vm_compute. reflexivity.
  - discriminate.
  - apply (bool_decide_eq_false_1 _). vm_compute. reflexivity.
  - vm_compute. reflexivity.
  - vm_compute. discriminate.
Defined.

(** C3: a sitemap entry with an [ftp] URL on the base host is put on the
    frontier although the scheme filter rejects it. *)
Theorem sitemap_seed_skips_scheme_filter :
  option_map (fun st => queue (fst st))
    (Fixture.crawl_prefix 3 Fixture.ftp_sitemap [])
  = Some [("http://example.com/", 0%Z, None); ("ftp://example.com/x", 0%Z, None)] /\
  @is_allowed_scheme Fixture.runtime "ftp://example.com/x" = Ok false /\
  @is_same_domain Fixture.runtime "ftp://example.com/x" "http://example.com/"
  = Ok true.
Proof. repeat split; vm_compute; reflexivity. Qed.

End CrawlRuns.

(** * Properties of the HTML parser *)

Module ParserFacts.
Import Py UrlParse UrlTools Parser ParserSpec.

Lemma first_text_nonempty nodes t : _first_text nodes = Some t -> t <> "".
Proof.
  induction nodes as [|node rest IH]; simpl; [done|].
  destruct (truthy (text node)) eqn:Ht; [|exact IH].
  intros [= <-]. by destruct (text node).
Qed.

Lemma collect_headings_shape nodes :
  Forall (fun h => lower (fst h) = fst h /\ snd h <> "") (collect_headings nodes).
Proof.
  unfold collect_headings. apply Forall_forall. intros h Hin.
  apply list_elem_of_omap in Hin as (node & _ & Hh).
  destruct (truthy (text node)) eqn:Ht; [|discriminate].
  inversion Hh; subst. simpl. split; [apply UrlFacts.lower_idem|].
  by destruct (text node).
Qed.

Section WithLibraries.
Context {RT : Runtime} {RS : Resolver} {SX : Selectolax}.

Lemma is_same_domain_parses url base b :
  is_same_domain url base = Ok b ->
  exists p q, urlparse url = Ok p /\ urlparse base = Ok q /\
    b = String.eqb (netloc p) (netloc q).
Proof.
  unfold is_same_domain.
  destruct (urlparse url) as [p|]; simpl; [|discriminate].
  destruct (urlparse base) as [q|]; simpl; [|discriminate].
  intros [= <-]. eauto.
Qed.

Lemma split_links_spec url base_url nodes :
  forall internal external i e,
    split_links url base_url nodes internal external = Ok (i, e) ->
    exists ls,
      Forall2 (fun href l => normalize_url url href = Ok l) (hrefs nodes) ls /\
      Forall (fun l => exists same, is_same_domain l base_url = Ok same) ls /\
      i = internal ++ filter (fun l => on_host base_url l = true) ls /\
      e = external ++ filter (fun l => on_host base_url l = false) ls.
Proof.
  induction nodes as [|node rest IH]; intros internal external i e H.
  - simpl in H. inversion H; subst. exists []. rewrite !app_nil_r.
    repeat split; constructor.
  - simpl in H. unfold hrefs. simpl. fold (hrefs rest).
    destruct (attr node "href") as [href|]; [|by apply IH].
    destruct (truthy href); [|by apply IH].
    destruct (normalize_url url href) as [l|] eqn:Hn; simpl in H; [|discriminate].
    destruct (is_same_domain l base_url) as [same|] eqn:Hs; simpl in H;
      [|discriminate].
    assert (Hhost : on_host base_url l = same) by (unfold on_host; by rewrite Hs).
    destruct same; apply IH in H as (ls & Hall & Hret & -> & ->);
      exists (l :: ls); rewrite !filter_cons, Hhost; simpl;
      (split; [by constructor|]); (split; [constructor; eauto|]);
      rewrite <- ?app_assoc; done.
Qed.

Lemma find_meta_description_raises pre node rest :
  Forall (passed_by "name" "description") pre ->
  Sitemap.assoc "name" (attributes node) = Some None ->
  find_meta_description (pre ++ node :: rest) = Raise AttributeError.
Proof.
  intros Hpre Hnone. induction Hpre as [|m pre (v & Hv & Hne) _ IH]; simpl.
  - unfold attr_or_empty. rewrite Hnone. reflexivity.
  - rewrite Hv. simpl. apply String.eqb_neq in Hne. rewrite Hne. exact IH.
Qed.

(** What a successful [parse_html] went through. *)
Lemma parse_html_inv url base_url html page :
  parse_html url base_url html = Ok page ->
  exists titles metas links hs anchors,
    css html "title" = Ok titles /\
    css html "meta" = Ok metas /\
    css html "link" = Ok links /\
    css html "h1, h2, h3, h4, h5, h6" = Ok hs /\
    css html "a" = Ok anchors /\
    Parser.url page = url /\
    title page = _first_text titles /\
    find_meta_description metas = Ok (meta_description page) /\
    find_canonical url links = Ok (canonical page) /\
    headings page = collect_headings hs /\
    split_links url base_url anchors [] []
    = Ok (internal_links page, external_links page).
Proof.
  unfold parse_html.
  destruct (css html "title") as [titles|]; simpl; [|discriminate].
  destruct (css html "meta") as [metas|]; simpl; [|discriminate].
  destruct (find_meta_description metas) as [meta|] eqn:Hmeta; simpl;
    [|discriminate].
  destruct (css html "link") as [links|]; simpl; [|discriminate].
  destruct (find_canonical url links) as [canonical|] eqn:Hcanon; simpl;
    [|discriminate].
  destruct (css html "h1, h2, h3, h4, h5, h6") as [hs|]; simpl; [|discriminate].
  destruct (css html "a") as [anchors|]; simpl; [|discriminate].
  destruct (split_links url base_url anchors [] []) as [[i e]|] eqn:Hsplit;
    simpl; [|discriminate].
  destruct (css html "img") as [imgs|]; simpl; [|discriminate].
  intros [= <-]. simpl. exists titles, metas, links, hs, anchors. done.
Qed.

(** The internal links of a parsed page went through [is_same_domain]. *)
Lemma parse_html_internal_links url base_url html page :
  parse_html url base_url html = Ok page ->
  Forall (fun l => is_same_domain l base_url = Ok true) (internal_links page).
Proof.
  intros H. apply parse_html_inv in H
    as (titles & metas & links & hs & anchors & _ & _ & _ & _ & _ & _ & _ & _ &
        _ & _ & Hsplit).
  apply split_links_spec in Hsplit as (ls & _ & Hret & Hi & _).
  simpl in Hi. rewrite Hi. apply Forall_forall.
  intros l [Hhost Hin]%list_elem_of_filter.
  rewrite Forall_forall in Hret. destruct (Hret _ Hin) as [same Hsame].
  unfold on_host in Hhost. rewrite Hsame in Hhost. by subst same.
Qed.

Lemma filter_split_length {A} (f : A -> bool) (l : list A) :
  length (filter (fun x => f x = true) l)
  + length (filter (fun x => f x = false) l) = length l.
Proof.
  induction l as [|x l IH]; [done|].
  rewrite !filter_cons. destruct (f x) eqn:Hf; simpl.
  - destruct (decide (true = true)); [|done].
    destruct (decide (true = false)); [done|]. simpl. lia.
  - destruct (decide (false = true)); [done|].
    destruct (decide (false = false)); [|done]. simpl. lia.
Qed.

(** X1: the links of a parsed page are the anchors' non-empty [href]
    values, normalized, in document order, and [is_same_domain] returns
    for each of them: those on the host of [base_url] are the internal
    links, the others the external ones, so that each such anchor is
    counted once. *)
Theorem parse_html_splits_links_by_host url base_url html page :
  parse_html url base_url html = Ok page ->
  exists anchors ls,
    css html "a" = Ok anchors /\
    Forall2 (fun href l => normalize_url url href = Ok l) (hrefs anchors) ls /\
    Forall (fun l => exists same, is_same_domain l base_url = Ok same) ls /\
    internal_links page = filter (fun l => on_host base_url l = true) ls /\
    external_links page = filter (fun l => on_host base_url l = false) ls /\
    length (internal_links page) + length (external_links page)
    = length (hrefs anchors).
Proof.
  intros H. apply parse_html_inv in H
    as (titles & metas & links & hs & anchors & _ & _ & _ & _ & Ha & _ & _ & _ &
        _ & _ & Hsplit).
  apply split_links_spec in Hsplit as (ls & Hall & Hsame & Hi & He).
  simpl in Hi, He. exists anchors, ls.
  split; [exact Ha|]. split; [exact Hall|]. split; [exact Hsame|].
  split; [exact Hi|].
  split; [exact He|].
  rewrite Hi, He, (filter_split_length (on_host base_url)).
  symmetry. by eapply Forall2_length.
Qed.

(** X2: the headings of a parsed page carry a lower-case tag and a
    non-empty text, and its title, when there is one, is not empty. *)
Theorem parse_html_headings_and_title_are_not_empty url base_url html page :
  parse_html url base_url html = Ok page ->
  Forall (fun h => lower (fst h) = fst h /\ snd h <> "") (headings page) /\
  (forall t, title page = Some t -> t <> "").
Proof.
  intros H. apply parse_html_inv in H
    as (titles & metas & links & hs & anchors & _ & _ & _ & _ & _ & _ & Ht & _ &
        _ & Hh & _).
  rewrite Hh, Ht. split; [apply collect_headings_shape|].
  intros t. apply first_text_nonempty.
Qed.

(** X3: a [meta] element whose [name] attribute has no value, met before
    any description, ends [parse_html] with an [AttributeError]
    ([None] has no [lower]). *)
Theorem parse_html_raises_on_a_meta_name_without_value
    url base_url html titles pre node rest :
  css html "title" = Ok titles ->
  css html "meta" = Ok (pre ++ node :: rest) ->
  Forall (passed_by "name" "description") pre ->
  Sitemap.assoc "name" (attributes node) = Some None ->
  parse_html url base_url html = Raise AttributeError.
Proof.
  intros Ht Hm Hpre Hnone. unfold parse_html. rewrite Ht. simpl.
  rewrite Hm. simpl. by rewrite find_meta_description_raises.
Qed.

End WithLibraries.

Lemma parse_html_splits_links_by_host_witness :
  match Fixture.parse_home with
  | Ok page =>
      exists anchors ls,
        @css Fixture.selectolax_more Fixture.home_html "a" = Ok anchors /\
        Forall2 (fun href l =>
                   @normalize_url Fixture.resolver "http://example.com/" href = Ok l)
          (hrefs anchors) ls /\
        Forall (fun l => exists same,
                  @is_same_domain Fixture.runtime l "http://example.com/" = Ok same)
          ls /\
        internal_links page
        = filter (fun l => @on_host Fixture.runtime "http://example.com/" l = true) ls /\
        external_links page
        = filter (fun l => @on_host Fixture.runtime "http://example.com/" l = false) ls /\
        length (internal_links page) + length (external_links page)
        = length (hrefs anchors)
  | Raise _ => False
  end.
Proof.
  destruct Fixture.parse_home as [page|ex] eqn:H.
  - exact (parse_html_splits_links_by_host _ _ _ _ H).
  - vm_compute in H. discriminate H.
Defined.

(** On the fixture page the link to the other host is the external one. *)
Example home_links :
  match Fixture.parse_home with
  | Ok page => Some (internal_links page, external_links page)
  | Raise _ => None
  end = Some (["http://example.com/b"], ["http://other.org/"]).
Proof. vm_compute. reflexivity. Qed.

Lemma parse_html_headings_and_title_are_not_empty_witness :
  match Fixture.parse_home with
  | Ok page =>
      Forall (fun h => lower (fst h) = fst h /\ snd h <> "") (headings page) /\
      (forall t, title page = Some t -> t <> "")
  | Raise _ => False
  end.
Proof.
  destruct Fixture.parse_home as [page|ex] eqn:H.
  - exact (parse_html_headings_and_title_are_not_empty _ _ _ _ H).
  - vm_compute in H. discriminate H.
Defined.

Lemma parse_html_raises_on_a_meta_name_without_value_witness :
  @parse_html Fixture.runtime Fixture.resolver Fixture.selectolax_more
    "http://example.com/" "http://example.com/" Fixture.odd_html
  = Raise AttributeError.
Proof.
  apply (@parse_html_raises_on_a_meta_name_without_value
           Fixture.runtime Fixture.resolver Fixture.selectolax_more
           "http://example.com/" "http://example.com/" Fixture.odd_html
           [Parser.mkNode "title" [] "Home"] []
           (Parser.mkNode "meta" [("name", None)] "") []).
  - reflexivity.
  - reflexivity.
  - constructor.
  - reflexivity.
Defined.

End ParserFacts.

(** * More properties of the URL tools *)

Module UrlToolsFacts.
Import Py UrlParse UrlTools.

Section WithRuntime.
Context {RT : Runtime}.

Lemma is_same_domain_true url base :
  is_same_domain url base = Ok true <->
  exists p q, urlparse url = Ok p /\ urlparse base = Ok q /\ netloc p = netloc q.
Proof.
  unfold is_same_domain. split.
  - destruct (urlparse url) as [p|]; simpl; [|discriminate].
    destruct (urlparse base) as [q|]; simpl; [|discriminate].
    intros [= H]. apply String.eqb_eq in H. eauto.
  - intros (p & q & -> & -> & H). simpl. by rewrite H, String.eqb_refl.
Qed.

(** X4: [is_same_domain] is symmetric and transitive, and a URL that is on
    the host of some URL is on its own host. *)
Theorem is_same_domain_is_a_partial_equivalence a b c :
  (is_same_domain a b = Ok true -> is_same_domain b a = Ok true) /\
  (is_same_domain a b = Ok true -> is_same_domain b c = Ok true ->
   is_same_domain a c = Ok true) /\
  (is_same_domain a b = Ok true -> is_same_domain a a = Ok true).
Proof.
  rewrite !is_same_domain_true. split; [|split].
  - intros (p & q & Hp & Hq & H). eauto.
  - intros (p & q & Hp & Hq & H) (q' & r & Hq' & Hr & H').
    rewrite Hq in Hq'. inversion Hq'; subst. exists p, r.
    repeat split; congruence.
  - intros (p & q & Hp & Hq & H). eauto.
Qed.

Lemma urlunparse_begins_with_scheme s n p q :
  s <> "" -> exists rest, urlunparse s n p "" q "" = s +:+ ":" +:+ rest.
Proof.
  intros Hs. unfold urlunparse, urlunsplit.
  assert (Ht : truthy s = true) by (by destruct s).
  cbn [truthy]. rewrite Ht.
  match goal with
  | |- context [s +:+ ":" +:+ ?u] => set (body := u)
  end.
  destruct (truthy q).
  - exists (body +:+ "?" +:+ q). by rewrite !PyFacts.app_assoc.
  - by exists body.
Qed.

(** X5: whatever the scheme of its argument, a URL that [canonicalize]
    returns begins with [http:] or with [https:]. *)
Theorem canonicalize_yields_http_or_https url c :
  canonicalize url = Ok c ->
  exists rest, c = "http:" +:+ rest \/ c = "https:" +:+ rest.
Proof.
  intros Hc.
  destruct (urlparse url) as [p|] eqn:Hp;
    [|unfold canonicalize in Hc; rewrite Hp in Hc; discriminate].
  rewrite (UrlFacts.canonicalize_writes _ _ Hp) in Hc. inversion Hc as [Hc'].
  destruct (UrlFacts.urlparse_inv _ _ Hp) as (sp & Hsplit & Hsch & _).
  destruct (UrlFacts.urlsplit_lacks_unsafe LF _ _ (or_intror (or_introl eq_refl))
              Hsplit) as (Hlf & _).
  rewrite <- Hsch in Hlf.
  destruct (UrlFacts.canonical_scheme_spec _ Hlf) as [_ [Hs | Hs]]; rewrite Hs.
  - destruct (urlunparse_begins_with_scheme "http" (lower (netloc p))
                (if truthy (path p) then path p else "/") (query p))
      as [rest Hrest]; [done|].
    exists rest. left. exact Hrest.
  - destruct (urlunparse_begins_with_scheme "https" (lower (netloc p))
                (if truthy (path p) then path p else "/") (query p))
      as [rest Hrest]; [done|].
    exists rest. right. exact Hrest.
Qed.

Hypothesis host_check_ignores_case :
  forall h, bracketed_host_ok h = true -> bracketed_host_ok (lower h) = true.

(** X6: the [base_url] that the constructor of [CrawlManager] keeps
    passes the tests the crawl applies to links: for an ASCII URL that
    [urlparse] accepts, with its authority kept and no [;] in its last
    path segment, the canonical form has an allowed scheme and is on its
    own host. *)
Theorem constructor_base_url_passes_the_link_filters
    url p max_depth threads user_agent callback :
  isascii url = true ->
  urlparse url = Ok p ->
  authority_kept (netloc p) (path p) = true ->
  last_segment_plain (path p) = true ->
  exists cfg,
    Manager.new url max_depth threads user_agent callback = Ok cfg /\
    is_allowed_scheme (Manager.base_url cfg) = Ok true /\
    is_same_domain (Manager.base_url cfg) (Manager.base_url cfg) = Ok true /\
    canonicalize (Manager.base_url cfg) = Ok (Manager.base_url cfg).
Proof.
  intros Hascii Hparse Hkept Hplain.
  destruct (UrlFacts.canonicalize_core host_check_ignores_case url p
              Hascii Hparse Hkept Hplain) as (Hc & Hp & Hcc).
  eexists. unfold Manager.new. rewrite Hc. simpl. split; [reflexivity|].
  simpl. split; [|split; [|exact Hcc]].
  - unfold is_allowed_scheme. rewrite Hp. simpl.
    destruct (UrlFacts.urlparse_inv _ _ Hparse) as (sp & Hsplit & Hsch & _).
    destruct (UrlFacts.urlsplit_lacks_unsafe LF _ _
                (or_intror (or_introl eq_refl)) Hsplit) as (Hlf & _).
    rewrite <- Hsch in Hlf.
    by destruct (UrlFacts.canonical_scheme_spec _ Hlf) as [_ [-> | ->]].
  - apply is_same_domain_true. eauto.
Qed.

End WithRuntime.

Lemma is_same_domain_is_a_partial_equivalence_witness :
  @is_same_domain Fixture.runtime "http://example.com/b" "https://example.com/"
  = Ok true /\
  @is_same_domain Fixture.runtime "https://example.com/" "http://example.com/b"
  = Ok true.
Proof.
  assert (H : @is_same_domain Fixture.runtime "http://example.com/b"
                "https://example.com/" = Ok true) by (vm_compute; reflexivity).
  split; [exact H|].
  exact (proj1 (@is_same_domain_is_a_partial_equivalence Fixture.runtime
                  "http://example.com/b" "https://example.com/" "") H).
Defined.

Lemma canonicalize_yields_http_or_https_witness :
  Fixture.canonicalize "ftp://Example.com/x" = Ok "http://example.com/x" /\
  exists rest,
    "http://example.com/x" = "http:" +:+ rest \/
    "http://example.com/x" = "https:" +:+ rest.
Proof.
  assert (H : Fixture.canonicalize "ftp://Example.com/x"
              = Ok "http://example.com/x") by (vm_compute; reflexivity).
  split; [exact H|].
  exact (@canonicalize_yields_http_or_https Fixture.runtime _ _ H).
Defined.

Lemma constructor_base_url_passes_the_link_filters_witness :
  exists cfg,
    @Manager.new Fixture.runtime "HTTP://ExAmple.com" 3 2 "sfrog" None = Ok cfg /\
    @is_allowed_scheme Fixture.runtime (Manager.base_url cfg) = Ok true /\
    @is_same_domain Fixture.runtime (Manager.base_url cfg) (Manager.base_url cfg)
    = Ok true /\
    Fixture.canonicalize (Manager.base_url cfg) = Ok (Manager.base_url cfg).
Proof.
  exact (@constructor_base_url_passes_the_link_filters Fixture.runtime
           (fun _ _ => eq_refl) "HTTP://ExAmple.com"
           (mkParse "http" "ExAmple.com" "" "" "" "") 3%Z 2 "sfrog" None
           eq_refl eq_refl eq_refl eq_refl).
Defined.

End UrlToolsFacts.

(** * More properties of the fetcher *)

Module FetchFacts.
Import Py Fetcher.

Lemma dict_of_items_snoc items k v :
  dict_of_items (items ++ [(k, v)]) = <[k := v]> (dict_of_items items).
Proof. unfold dict_of_items. by rewrite foldl_app. Qed.

(** X7: the [headers] dictionary built from [resp.headers.items()] maps
    a name to the value of the last item with exactly that name, and has
    no entry for a name that no item carries. *)
Theorem dict_of_items_keeps_the_last_value items name :
  (dict_of_items items !! name = None <-> name ∉ map fst items) /\
  (forall before value after,
     items = before ++ (name, value) :: after ->
     name ∉ map fst after ->
     dict_of_items items !! name = Some value).
Proof.
  induction items as [|[k v] items IH] using rev_ind.
  - split; [by split; [intros _; apply not_elem_of_nil|]|].
    intros before value after H. by destruct before.
  - rewrite dict_of_items_snoc. destruct IH as [IHnone IHlast]. split.
    + rewrite map_app, not_elem_of_app. simpl.
      destruct (decide (k = name)) as [-> | Hne].
      * rewrite lookup_insert_eq. split; [done|].
        intros [_ H]. exfalso. apply H. by left.
      * rewrite lookup_insert_ne by done. rewrite IHnone.
        rewrite list_elem_of_singleton. split; [intros H; split; congruence|].
        by intros [H _].
    + intros before value after Heq Hafter.
      destruct after as [|a after] using rev_ind.
      * apply app_inj_tail in Heq as [_ [= -> ->]]. by rewrite lookup_insert_eq.
      * clear IHafter. rewrite app_comm_cons, app_assoc in Heq.
        apply app_inj_tail in Heq as [-> <-].
        rewrite map_app, not_elem_of_app in Hafter. destruct Hafter as [Hafter Hk].
        simpl in Hk. rewrite list_elem_of_singleton in Hk.
        rewrite lookup_insert_ne by congruence. by eapply IHlast.
Qed.

(** X8: a fetch result carries the requested URL, and either a status
    and a body without an error, or an error without status, body,
    headers and redirect; the redirect target is never the requested URL
    itself. *)
Theorem fetch_result_has_a_status_or_an_error url o r :
  fetch url o = Ok r ->
  Fetcher.url r = url /\ redirected_url r <> Some url /\
  ((exists st body, status r = Some st /\ content r = Some body /\ error r = None) \/
   (exists message, status r = None /\ content r = None /\ headers r = ∅ /\
      redirected_url r = None /\ error r = Some message)).
Proof.
  destruct o as [resp_url st hs body t | t | message t | ex]; simpl;
    intros H; inversion H; subst; clear H; simpl.
  - split; [done|]. split; [|left; eauto].
    destruct (String.eqb_spec resp_url url) as [-> | Hne]; simpl; congruence.
  - split; [done|]. split; [done|]. right. by exists "timeout".
  - split; [done|]. split; [done|]. right. by exists message.
Qed.

Lemma dict_of_items_keeps_the_last_value_witness :
  dict_of_items [("Set-Cookie", "a=1"); ("Content-Type", "text/html");
                 ("Set-Cookie", "b=2")] !! "Set-Cookie" = Some "b=2".
Proof.
  apply (proj2 (dict_of_items_keeps_the_last_value
                  [("Set-Cookie", "a=1"); ("Content-Type", "text/html");
                   ("Set-Cookie", "b=2")] "Set-Cookie")
           [("Set-Cookie", "a=1"); ("Content-Type", "text/html")] "b=2" []).
  - reflexivity.
  - apply not_elem_of_nil.
Defined.

Lemma fetch_result_has_a_status_or_an_error_witness :
  let r := Fetcher.mkFetchResult "http://example.com/" (Some 200%Z)
             (dict_of_items Fixture.html_headers)
             (Some "<a href=http://example.com/b>") PrimFloat.zero None None in
  fetch "http://example.com/" Fixture.seed_page = Ok r /\
  Fetcher.url r = "http://example.com/" /\
  redirected_url r <> Some "http://example.com/" /\
  ((exists st body, status r = Some st /\ content r = Some body /\ error r = None) \/
   (exists message, status r = None /\ content r = None /\ headers r = ∅ /\
      redirected_url r = None /\ error r = Some message)).
Proof.
  intros r.
  assert (H : fetch "http://example.com/" Fixture.seed_page = Ok r)
    by reflexivity.
  split; [exact H|].
  exact (fetch_result_has_a_status_or_an_error _ _ _ H).
Defined.

End FetchFacts.

(** * More properties of the sitemap parser *)

Module SitemapMoreFacts.
Import Py UrlParse UrlTools Sitemap SitemapSpec.

Section WithLibraries.
Context {RT : Runtime} {RS : Resolver} {XD : XmlToDict}.

Lemma collect_entries base_url entries locs :
  Forall2 (fun entry loc => loc_text entry = Some loc) entries locs ->
  forall urls,
    collect base_url entries urls
    = (let* us := normalized_locs base_url locs in Ok (urls ++ us)).
Proof.
  induction 1 as [|entry loc entries locs Hloc _ IH]; intros urls.
  - simpl. by rewrite app_nil_r.
  - cbn [collect normalized_locs].
    destruct entry as [|s|items|l]; try discriminate. cbn [xget Py.bind].
    simpl in Hloc.
    destruct (assoc "loc" items) as [[|s|its|l]|]; try discriminate;
      inversion Hloc; subst; cbn [xtruthy truthy]; try apply IH.
    destruct (truthy loc) eqn:Ht; [|apply IH].
    cbn [normalize_loc].
    destruct (normalize_url base_url loc) as [u|e]; simpl; [|done].
    rewrite IH. destruct (normalized_locs base_url locs) as [us|e]; simpl; [|done].
    by rewrite <- app_assoc.
Qed.

Lemma branch_entries base_url items child entries locs :
  assoc child items = Some (XList entries) ->
  Forall2 (fun entry loc => loc_text entry = Some loc) entries locs ->
  branch base_url (XDict items) child = normalized_locs base_url locs.
Proof.
  intros H Hall. unfold branch. simpl. rewrite H. simpl.
  rewrite (collect_entries _ _ _ Hall).
  by destruct (normalized_locs base_url locs).
Qed.

Lemma branch_entry base_url items child entry loc :
  assoc child items = Some entry ->
  loc_text entry = Some loc ->
  branch base_url (XDict items) child = normalized_locs base_url [loc].
Proof.
  intros H Hloc. unfold branch. simpl. rewrite H.
  destruct entry as [|s|its|l]; try discriminate. simpl.
  assert (Hall : Forall2 (fun entry loc => loc_text entry = Some loc)
                   [XDict its] [loc]) by (by repeat constructor).
  pose proof (collect_entries base_url _ _ Hall []) as Hc.
  cbn [collect] in Hc. simpl in Hc. rewrite Hc.
  destruct (truthy loc); [destruct (normalize_url base_url loc)|]; done.
Qed.

(** X9: entries with further children ([lastmod], [priority], ...) are
    read by their [loc] alone: the result lists the normalized non-empty
    [loc] texts in document order, entries without a [loc] or with an
    empty one are passed over, and a single entry gives what it gives in
    a list. *)
Theorem parse_sitemap_reads_the_loc_of_each_entry base_url text data :
  xmltodict_parse text = Ok data ->
  (forall entries locs,
     entries_of data (XList entries) ->
     Forall2 (fun entry loc => loc_text entry = Some loc) entries locs ->
     parse_sitemap base_url text = normalized_locs base_url locs) /\
  (forall entry loc,
     entries_of data entry -> loc_text entry = Some loc ->
     parse_sitemap base_url text = normalized_locs base_url [loc]).
Proof.
  intros Hparse. split.
  - intros entries locs Hent Hall.
    destruct (SitemapFacts.parse_sitemap_entries base_url _ _ _ Hparse Hent)
      as (items & child & Hv & ->).
    by eapply branch_entries.
  - intros entry loc Hent Hloc.
    destruct (SitemapFacts.parse_sitemap_entries base_url _ _ _ Hparse Hent)
      as (items & child & Hv & ->).
    by eapply branch_entry.
Qed.

(** X10: a document without entries. An empty root element, which
    [xmltodict] parses to [None] (or one with text only, parsed to a
    [str]), makes [parse_sitemap] raise [AttributeError]; a root that has
    attributes or other children but no [url] or [sitemap] child gives
    the empty list, and so does a document with another root. *)
Theorem parse_sitemap_without_entries base_url text data :
  xmltodict_parse text = Ok data ->
  (forall root,
     assoc "urlset" data = Some root \/
     (assoc "urlset" data = None /\ assoc "sitemapindex" data = Some root) ->
     is_dict root = false ->
     parse_sitemap base_url text = Raise AttributeError) /\
  (forall items,
     (assoc "urlset" data = Some (XDict items) /\ assoc "url" items = None) \/
     (assoc "urlset" data = None /\
      assoc "sitemapindex" data = Some (XDict items) /\
      assoc "sitemap" items = None) ->
     parse_sitemap base_url text = Ok []) /\
  (assoc "urlset" data = None -> assoc "sitemapindex" data = None ->
   parse_sitemap base_url text = Ok []).
Proof.
  intros Hparse. unfold parse_sitemap. rewrite Hparse. simpl.
  split; [|split].
  - intros root [Hset | [Hnone Hidx]] Hd; rewrite ?Hnone, ?Hset, ?Hidx;
      by destruct root.
  - intros items [[Hset Hurl] | (Hnone & Hidx & Hmap)];
      rewrite ?Hnone, ?Hset, ?Hidx; unfold branch; simpl;
      rewrite ?Hurl, ?Hmap; reflexivity.
  - by intros -> ->.
Qed.

End WithLibraries.

Lemma parse_sitemap_reads_the_loc_of_each_entry_witness :
  @parse_sitemap Fixture.resolver Fixture.xmltodict_more
    "http://example.com/" Fixture.dated_sitemap
  = Ok ["http://example.com/b"].
Proof.
  apply (proj1 (@parse_sitemap_reads_the_loc_of_each_entry
                  Fixture.resolver Fixture.xmltodict_more
                  "http://example.com/" Fixture.dated_sitemap
                  [("urlset", XDict [("url", XList Fixture.dated_entries)])]
                  eq_refl)
           Fixture.dated_entries ["http://example.com/b"; ""]).
  - left. exists [("url", XList Fixture.dated_entries)]. split; reflexivity.
  - repeat constructor.
Defined.

Lemma parse_sitemap_without_entries_witness :
  @parse_sitemap Fixture.resolver Fixture.xmltodict_more
    "http://example.com/" "<urlset/>"
  = Raise AttributeError.
Proof.
  apply (proj1 (@parse_sitemap_without_entries
                  Fixture.resolver Fixture.xmltodict_more
                  "http://example.com/" "<urlset/>" [("urlset", XNone)] eq_refl)
           XNone).
  - left. reflexivity.
  - reflexivity.
Defined.

(** *** Errors, and a single entry *)

Section Seeding.
Context {RT : Runtime} {RS : Resolver} {XD : XmlToDict}
        {RL : Robots.RobotsLib} {PF : Manager.Platform}.

Lemma branch_dict base_url items child entry :
  assoc child items = Some entry ->
  is_dict entry = true ->
  branch base_url (XDict items) child = collect base_url [entry] [].
Proof.
  intros H Hd. unfold branch. cbn [xget Py.bind]. rewrite H, Hd. reflexivity.
Qed.

Lemma branch_listed base_url items child entries :
  assoc child items = Some (XList entries) ->
  branch base_url (XDict items) child = collect base_url entries [].
Proof. intros H. unfold branch. cbn [xget Py.bind]. by rewrite H. Qed.

(** The seeding when the sitemap cannot be read: the [try] around
    [parse_sitemap] turns the exception into an empty list. *)
Lemma prepare_seed_urls_unreadable cfg s robots_o u st hs body seconds e :
  parse_sitemap (Manager.base_url cfg) (Manager.decode_utf8_ignore body) = Raise e ->
  Manager._prepare_seed_urls cfg s robots_o (Fetcher.Responded u st hs body seconds)
  = Manager._prepare_seed_urls cfg s robots_o (Fetcher.TimedOut seconds).
Proof.
  intros Hraise. unfold Manager._prepare_seed_urls.
  destruct (Manager.yarl_with_path (Manager.base_url cfg) "/robots.txt")
    as [robots_url|]; [|done]. cbn [Py.bind].
  destruct (Fetcher.fetch robots_url robots_o) as [robots_result|]; [|done].
  cbn [Py.bind].
  destruct (Manager.yarl_with_path (Manager.base_url cfg) "/sitemap.xml")
    as [sitemap_url|]; [|done]. cbn [Py.bind Fetcher.fetch].
  cbn [Fetcher.status Fetcher.content]. cbn [default].
  change (Manager.truthy_int None) with false. cbn [andb].
  destruct (_ && _); [|reflexivity].
  change (id body) with body. rewrite Hraise. reflexivity.
Qed.

(** C7 (amended): an exception of the XML parser leaves [parse_sitemap]
    as it is; the [try] of [_prepare_seed_urls] turns it into an empty
    list, so that the seeding ends as it does when the request for the
    sitemap times out. In a document that parses, a single [<url>] or
    [<sitemap>] with children goes through the loop as a list of one
    entry does; entries are read by their [loc] alone, whatever other
    children they have, and the result lists the normalized non-empty
    [loc] texts in document order. *)
Theorem parse_sitemap_errors_and_single_entry base_url text :
  (forall e, xmltodict_parse text = Raise e ->
     parse_sitemap base_url text = Raise e /\
     forall cfg s robots_o u st hs body seconds,
       Manager.base_url cfg = base_url ->
       Manager.decode_utf8_ignore body = text ->
       Manager._prepare_seed_urls cfg s robots_o
         (Fetcher.Responded u st hs body seconds)
       = Manager._prepare_seed_urls cfg s robots_o (Fetcher.TimedOut seconds)) /\
  (forall data, xmltodict_parse text = Ok data ->
     (forall entry, entries_of data entry -> is_dict entry = true ->
        parse_sitemap base_url text = collect base_url [entry] []) /\
     (forall entries, entries_of data (XList entries) ->
        parse_sitemap base_url text = collect base_url entries []) /\
     (forall entry loc, entries_of data entry -> loc_text entry = Some loc ->
        parse_sitemap base_url text = normalized_locs base_url [loc]) /\
     (forall entries locs, entries_of data (XList entries) ->
        Forall2 (fun entry loc => loc_text entry = Some loc) entries locs ->
        parse_sitemap base_url text = normalized_locs base_url locs)).
Proof.
  split.
  - intros e Hparse.
    assert (Hraise : parse_sitemap base_url text = Raise e)
      by (unfold parse_sitemap; by rewrite Hparse).
    split; [exact Hraise|].
    intros cfg s robots_o u st hs body seconds Hbase Htext.
    apply (prepare_seed_urls_unreadable _ _ _ _ _ _ _ _ e).
    by rewrite Hbase, Htext.
  - intros data Hparse. repeat split.
    + intros entry Hent Hd.
      destruct (SitemapFacts.parse_sitemap_entries base_url _ _ _ Hparse Hent)
        as (items & child & Hv & ->).
      by apply branch_dict.
    + intros entries Hent.
      destruct (SitemapFacts.parse_sitemap_entries base_url _ _ _ Hparse Hent)
        as (items & child & Hv & ->).
      by apply branch_listed.
    + intros entry loc Hent Hloc.
      destruct (SitemapFacts.parse_sitemap_entries base_url _ _ _ Hparse Hent)
        as (items & child & Hv & ->).
      by eapply branch_entry.
    + intros entries locs Hent Hall.
      destruct (SitemapFacts.parse_sitemap_entries base_url _ _ _ Hparse Hent)
        as (items & child & Hv & ->).
      by eapply branch_entries.
Qed.

End Seeding.

Lemma parse_sitemap_errors_and_single_entry_witness :
  (@parse_sitemap Fixture.resolver Fixture.xmltodict_lone
     "http://example.com/" Fixture.lone_sitemap
   = Ok ["http://example.com/b"]) /\
  (@parse_sitemap Fixture.resolver Fixture.xmltodict_lone
     "http://example.com/" "<urlset><url>" = Raise ExpatError /\
   @Manager._prepare_seed_urls Fixture.runtime Fixture.resolver
     Fixture.xmltodict_lone Fixture.robots_lib Fixture.platform (Fixture.cfg 3)
     Manager.initial_state Fixture.not_found Fixture.cut_sitemap
   = @Manager._prepare_seed_urls Fixture.runtime Fixture.resolver
       Fixture.xmltodict_lone Fixture.robots_lib Fixture.platform (Fixture.cfg 3)
       Manager.initial_state Fixture.not_found (Fetcher.TimedOut PrimFloat.zero)).
Proof.
  split.
  - apply (proj1 (proj2 (proj2
             (proj2 (@parse_sitemap_errors_and_single_entry
                       Fixture.runtime Fixture.resolver Fixture.xmltodict_lone
                       Fixture.robots_lib Fixture.platform
                       "http://example.com/" Fixture.lone_sitemap)
                [("urlset", XDict [("url", Fixture.lone_entry)])] eq_refl)))
           Fixture.lone_entry "http://example.com/b").
    + left. exists [("url", Fixture.lone_entry)]. split; reflexivity.
    + reflexivity.
  - destruct (proj1 (@parse_sitemap_errors_and_single_entry
                       Fixture.runtime Fixture.resolver Fixture.xmltodict_lone
                       Fixture.robots_lib Fixture.platform
                       "http://example.com/" "<urlset><url>")
                ExpatError eq_refl) as [Hraise Hseed].
    split; [exact Hraise|].
    apply Hseed; reflexivity.
Defined.

(** With the sitemap cut short the seeding enqueues the base URL alone. *)
Example unreadable_sitemap_seeds_the_base_url :
  option_map (fun st => Manager.queue (fst st))
    (@Manager.crawl_prefix Fixture.runtime Fixture.resolver
       Fixture.xmltodict_lone Fixture.selectolax Fixture.robots_lib
       Fixture.platform (Fixture.cfg 3) Fixture.not_found Fixture.cut_sitemap [])
  = Some [("http://example.com/", 0%Z, None)].
Proof. vm_compute. reflexivity. Qed.

End SitemapMoreFacts.

(** * More properties of the crawl manager *)

Module CrawlFacts.
Import Py UrlParse UrlTools Manager ManagerSpec CrawlSpec.
#[local] Set Warnings "-clear-no-such-hyp".

Lemma pages_by_hash_buckets pages :
  Duplicates.pages_by_hash pages
  = Duplicates.summarize_duplicates (hash_buckets pages).
Proof. reflexivity. Qed.

Lemma hash_buckets_snoc pages page :
  hash_buckets (pages ++ [page]) = bucket_step (hash_buckets pages) page.
Proof. unfold hash_buckets. by rewrite foldl_app. Qed.

Lemma is_broken_spec page :
  is_broken page = true <-> exists z, status page = Some z /\ (400 <= z)%Z.
Proof.
  unfold is_broken. destruct (status page) as [z|]; simpl.
  - rewrite andb_true_iff, negb_true_iff, Z.eqb_neq, Z.leb_le. split.
    + intros [_ H]. eauto.
    + intros (z' & [= <-] & H). split; [lia|done].
  - split; [done|]. by intros (z & ? & _).
Qed.

Lemma puts_app tr acts : puts (tr ++ acts) = puts tr ++ puts acts.
Proof. apply omap_app. Qed.

Lemma put_urls_puts tr : put_urls tr = map entry_url (puts tr).
Proof.
  induction tr as [|[e|e|e p] tr IH]; simpl; [done| |done|done].
  change (put_urls (Put e :: tr)) with (entry_url e :: put_urls tr).
  change (puts (Put e :: tr)) with (e :: puts tr). simpl. by rewrite IH.
Qed.

Lemma NoDup_map_inj {A B} (f : A -> B) (l : list A) x y :
  NoDup (map f l) -> x ∈ l -> y ∈ l -> f x = f y -> x = y.
Proof.
  induction l as [|a l IH]; simpl; intros Hnd Hx Hy Hf.
  - by apply elem_of_nil in Hx.
  - apply NoDup_cons in Hnd as [Hna Hnd].
    apply elem_of_cons in Hx as [-> | Hx]; apply elem_of_cons in Hy as [-> | Hy].
    + done.
    + exfalso. apply Hna. rewrite Hf. apply list_elem_of_fmap. eauto.
    + exfalso. apply Hna. rewrite <- Hf. apply list_elem_of_fmap. eauto.
    + by apply IH.
Qed.

Section WithLibraries.
Context {RT : Runtime} {RS : Resolver} {XD : Sitemap.XmlToDict}
        {SX : Parser.Selectolax} {RL : Robots.RobotsLib} {PF : Platform}.
Variable cfg : Config.

(** The second half of [_process_url], with the fetch result in view. *)
Lemma process_url_tail_books e o s s' acts wk :
  process_url_tail cfg e o s = (s', acts, wk) ->
  (exists ex, Fetcher.fetch (entry_url e) o = Raise ex /\
     s' = s /\ acts = [] /\ wk = Failed ex) \/
  (exists result s1 ch parsed hacts,
     Fetcher.fetch (entry_url e) o = Ok result /\
     digest_and_parse cfg (entry_url e) result s = (s1, ch, parsed) /\
     acts = Emit e (_build_page result parsed ch) :: hacts /\
     ((hacts = [] /\ s' = record_page (_build_page result parsed ch) s1 /\
       ((exists ex, notify cfg (_build_page result parsed ch) = Raise ex /\
           wk = Failed ex) \/
        (parsed = None /\ wk = Waiting))) \/
      (exists pp r, parsed = Some pp /\
         notify cfg (_build_page result parsed ch) = Ok tt /\
         harvest cfg (entry_url e) (entry_depth e) (Parser.internal_links pp)
           (record_page (_build_page result parsed ch) s1) = (s', hacts, r) /\
         wk = worker_after r))).
Proof.
  destruct e as [[url depth] source]. unfold process_url_tail.
  change (entry_url (url, depth, source)) with url.
  change (entry_depth (url, depth, source)) with depth.
  destruct (Fetcher.fetch url o) as [result|ex] eqn:Hfetch.
  2:{ intros H; inversion H; subst. left. eauto. }
  destruct (digest_and_parse cfg url result s) as [[s1 ch] parsed] eqn:Hblock.
  intros H. right. exists result, s1, ch, parsed.
  destruct (notify cfg (_build_page result parsed ch)) as [[]|ex] eqn:Hn.
  2:{ inversion H; subst. exists []. repeat split; try done.
      left. repeat split; try done. left. eauto. }
  destruct parsed as [pp|].
  2:{ inversion H; subst. exists []. repeat split; try done.
      left. repeat split; try done. by right. }
  destruct (harvest cfg url depth (Parser.internal_links pp) _)
    as [[s4 hacts] r] eqn:Hh.
  inversion H; subst. exists hacts. repeat split; try done.
  right. exists pp, r. done.
Qed.

Lemma digest_and_parse_books url result s s1 ch parsed :
  Fetcher.url result = url ->
  digest_and_parse cfg url result s = (s1, ch, parsed) ->
  queue s1 = queue s /\ enqueued s1 = enqueued s /\
  visited s1 = visited s /\ edges s1 = edges s /\
  robots s1 = robots s /\ workers s1 = workers s /\
  pages s1 = pages s /\ broken_links s1 = broken_links s /\
  duplicate_map s1
  = bucket_step (duplicate_map s) (_build_page result parsed ch) /\
  (ch = None \/ exists body, Fetcher.content result = Some body /\
                 body <> "" /\ ch = Some (md5_hexdigest body)).
Proof.
  unfold digest_and_parse, bucket_step. intros Hurl Hblock.
  destruct (Fetcher.content result) as [body|].
  - destruct (truthy body) eqn:Hb.
    + assert (Hne : body <> "") by (by destruct body).
      destruct (truthy (md5_hexdigest body)) eqn:Hh;
        inversion Hblock; subst s1 ch parsed; cbn; rewrite Hh, ?Hurl;
        do 9 (split; [reflexivity|]); eauto.
    + inversion Hblock; subst; do 9 (split; [reflexivity|]); eauto.
  - inversion Hblock; subst; do 9 (split; [reflexivity|]); eauto.
Qed.

Lemma record_page_books page s :
  let s' := record_page page s in
  queue s' = queue s /\ enqueued s' = enqueued s /\
  visited s' = visited s /\ edges s' = edges s /\
  robots s' = robots s /\ workers s' = workers s /\
  pages s' = pages s ++ [page] /\ duplicate_map s' = duplicate_map s /\
  broken_links s' = broken_links s ++ (if is_broken page then [page] else []).
Proof.
  unfold record_page, is_broken. destruct (_ && _); simpl; repeat split.
  by rewrite app_nil_r.
Qed.

(** What a completed fetch does to each attribute. *)
Lemma process_url_tail_fields e o s s' acts wk :
  process_url_tail cfg e o s = (s', acts, wk) ->
  (s' = s /\ acts = [] /\ exists ex, wk = Failed ex) \/
  (exists page hacts links,
     acts = Emit e page :: hacts /\
     url page = entry_url e /\
     pages s' = pages s ++ [page] /\
     broken_links s' = broken_links s ++ (if is_broken page then [page] else []) /\
     duplicate_map s' = bucket_step (duplicate_map s) page /\
     visited s' = visited s /\ edges s' = edges s /\ robots s' = robots s /\
     workers s' = workers s /\
     queue s' = queue s ++ puts hacts /\
     enqueued s' = enqueued s ∪ list_to_set (put_urls hacts) /\
     NoDup (put_urls hacts) /\
     (forall u, u ∈ put_urls hacts -> u ∉ enqueued s) /\
     Forall (harvested cfg (entry_url e) (entry_depth e) links s) hacts /\
     (forall e', wk <> Fetching e')).
Proof.
  intros H. apply process_url_tail_books in H
    as [(ex & _ & -> & -> & ->) |
        (result & s1 & ch & parsed & hacts & Hfetch & Hblock & -> & Hrest)].
  { left. eauto. }
  right. set (page := _build_page result parsed ch) in *.
  apply ManagerFacts.fetch_url in Hfetch.
  apply (digest_and_parse_books _ _ _ _ _ _ Hfetch) in Hblock
    as (Hq & He & Hv & Hed & Hro & Hw & Hp & Hb & Hd & _).
  destruct (record_page_books page s1)
    as (Hq' & He' & Hv' & Hed' & Hro' & Hw' & Hp' & Hd' & Hb').
  fold page in Hd.
  destruct Hrest as [(-> & -> & Hwk) | (pp & r & -> & _ & Hh & ->)].
  - exists page, [], []. rewrite Hq', He', Hv', Hed', Hro', Hw', Hp', Hd', Hb'.
    rewrite Hq, He, Hv, Hed, Hro, Hw, Hp, Hd, Hb.
    repeat split; try done.
    + by rewrite app_nil_r.
    + simpl. set_solver.
    + constructor.
    + intros u Hu. by apply elem_of_nil in Hu.
    + intros e'. by destruct Hwk as [(ex & _ & ->) | [_ ->]].
  - destruct (ManagerFacts.harvest_spec _ _ _ _ _ _ _ _ Hh)
      as ((Hv2 & Hed2 & Hp2 & Hd2 & Hb2 & Hro2 & Hw2) & (Hq2 & He2 & Hnd & Hfresh) & Hall).
    exists page, hacts, (Parser.internal_links pp).
    rewrite Hv2, Hed2, Hp2, Hd2, Hb2, Hro2, Hw2, Hq2, He2.
    rewrite Hq', He', Hv', Hed', Hro', Hw', Hp', Hd', Hb'.
    rewrite Hq, He, Hv, Hed, Hro, Hw, Hp, Hd, Hb.
    repeat split; try done.
    + intros u Hu. rewrite <- He, <- He'. by apply Hfresh.
    + eapply Forall_impl; [exact Hall|].
      intros a (l & -> & ? & ? & ? & Hnv). exists l. repeat split; try done.
      by rewrite <- Hv, <- Hv'.
    + intros e'. by destruct r.
Qed.

(** One event of the scheduler, attribute by attribute. *)
Lemma step_take_fields s w s' acts :
  step cfg s (Take w) = Some (s', acts) ->
  exists e q wk,
    workers s !! w = Some Waiting /\ queue s = e :: q /\
    queue s' = q /\ enqueued s' = enqueued s /\ pages s' = pages s /\
    broken_links s' = broken_links s /\ duplicate_map s' = duplicate_map s /\
    robots s' = robots s /\ workers s' = <[w := wk]> (workers s) /\
    puts acts = [] /\ emitted acts = [] /\
    (((entry_url e ∈ visited s) /\ visited s' = visited s /\ edges s' = edges s /\
      wk = Waiting /\ acts = []) \/
     ((entry_url e ∉ visited s) /\ visited s' = visited s ∪ {[entry_url e]} /\
      edges s' = edges s /\ wk = Waiting /\ acts = [Process e] /\
      (robots_denies s (entry_url e) = true \/ (max_depth cfg < entry_depth e)%Z)) \/
     ((entry_url e ∉ visited s) /\ visited s' = visited s ∪ {[entry_url e]} /\
      wk = Fetching e /\ acts = [Process e] /\
      robots_denies s (entry_url e) = false /\
      (entry_depth e <= max_depth cfg)%Z /\
      edges s' = edges s ++
        match entry_source e with
        | Some src => if truthy src then [(src, entry_url e)] else []
        | None => []
        end)).
Proof.
  simpl. destruct (workers s !! w) as [[| |]|] eqn:Hw; try discriminate.
  destruct (queue s) as [|e q] eqn:Hq; try discriminate.
  destruct (process_url_head cfg e (queue_pop s)) as [[s1 a1] wk] eqn:Hh.
  intros H; inversion H; subst; clear H.
  apply ManagerFacts.process_url_head_spec in Hh.
  exists e, q, wk. split; [done|]. split; [done|].
  destruct Hh as [Hv -> | Hv -> Hskip | Hv Hrob Hd ->]; simpl; rewrite ?Hq; simpl.
  - repeat split; try done. left. done.
  - repeat split; try done. right. left. done.
  - assert (Hfields :
      let s1 := match entry_source e with
                | Some src =>
                    if truthy src
                    then edges_append (src, entry_url e)
                           (visited_add (entry_url e) (queue_pop s))
                    else visited_add (entry_url e) (queue_pop s)
                | None => visited_add (entry_url e) (queue_pop s)
                end in
      queue s1 = q /\ enqueued s1 = enqueued s /\ pages s1 = pages s /\
      broken_links s1 = broken_links s /\ duplicate_map s1 = duplicate_map s /\
      robots s1 = robots s /\ workers s1 = workers s /\
      visited s1 = visited s ∪ {[entry_url e]} /\
      edges s1 = edges s ++
        match entry_source e with
        | Some src => if truthy src then [(src, entry_url e)] else []
        | None => []
        end).
    { destruct (entry_source e) as [src|]; [destruct (truthy src)|];
        simpl; rewrite ?Hq, ?app_nil_r; simpl; repeat split. }
    simpl in Hfields.
    destruct Hfields as (H1 & H2 & H3 & H4 & H5 & H6 & H7 & H8 & H9).
    rewrite H1, H2, H3, H4, H5, H6, H7, H8, H9.
    repeat split; try done. right. right. done.
Qed.

Lemma step_fetched_fields s w o s' acts :
  step cfg s (Fetched w o) = Some (s', acts) ->
  exists e wk,
    workers s !! w = Some (Fetching e) /\
    workers s' = <[w := wk]> (workers s) /\
    (forall e', wk <> Fetching e') /\
    ((acts = [] /\ queue s' = queue s /\ enqueued s' = enqueued s /\
      pages s' = pages s /\ broken_links s' = broken_links s /\
      duplicate_map s' = duplicate_map s /\ visited s' = visited s /\
      edges s' = edges s /\ robots s' = robots s) \/
     (exists page hacts links,
        acts = Emit e page :: hacts /\
        url page = entry_url e /\
        pages s' = pages s ++ [page] /\
        broken_links s' = broken_links s ++ (if is_broken page then [page] else []) /\
        duplicate_map s' = bucket_step (duplicate_map s) page /\
        visited s' = visited s /\ edges s' = edges s /\ robots s' = robots s /\
        queue s' = queue s ++ puts hacts /\
        enqueued s' = enqueued s ∪ list_to_set (put_urls hacts) /\
        NoDup (put_urls hacts) /\
        (forall u, u ∈ put_urls hacts -> u ∉ enqueued s) /\
        Forall (harvested cfg (entry_url e) (entry_depth e) links s) hacts)).
Proof.
  simpl. destruct (workers s !! w) as [[| |]|] eqn:Hw; try discriminate.
  destruct (process_url_tail cfg e o s) as [[s1 a1] wk] eqn:Ht.
  intros H; inversion H; subst; clear H.
  exists e, wk. split; [done|].
  apply process_url_tail_fields in Ht
    as [(-> & -> & ex & ->) |
        (page & hacts & links & -> & Hu & Hp & Hb & Hd & Hv & He & Hr & Hw' &
         Hq & Hen & Hnd & Hfresh & Hall & Hwk)]; simpl.
  - split; [done|]. split; [done|]. left. done.
  - rewrite Hw'. split; [done|]. split; [done|]. right.
    exists page, hacts, links. done.
Qed.

(** Induction along the events of a crawl. *)
Lemma run_induction (P : State -> list Action -> Prop) :
  (forall s tr ev s' acts,
      P s tr -> step cfg s ev = Some (s', acts) -> P s' (tr ++ acts)) ->
  forall evs s tr s' acts,
    P s tr -> run cfg s evs = Some (s', acts) -> P s' (tr ++ acts).
Proof.
  intros Hstep. induction evs as [|ev rest IH]; intros s tr s' acts HP H; simpl in H.
  - inversion H; subst. by rewrite app_nil_r.
  - destruct (step cfg s ev) as [[s1 a1]|] eqn:Hs; [|discriminate].
    destruct (run cfg s1 rest) as [[s2 a2]|] eqn:Hr; [|discriminate].
    inversion H; subst. rewrite app_assoc.
    eapply IH; [|exact Hr]. eapply Hstep; [exact HP|exact Hs].
Qed.

Lemma crawl_prefix_induction (P : State -> list Action -> Prop)
    robots_o sitemap_o :
  (forall s acts,
      _prepare_seed_urls cfg initial_state robots_o sitemap_o = Ok (s, acts) ->
      P (set_workers (replicate (threads cfg) Waiting) s) acts) ->
  (forall s tr ev s' acts,
      P s tr -> step cfg s ev = Some (s', acts) -> P s' (tr ++ acts)) ->
  forall evs s tr,
    crawl_prefix cfg robots_o sitemap_o evs = Some (s, tr) -> P s tr.
Proof.
  intros Hseed Hstep evs s tr. unfold crawl_prefix.
  destruct (_prepare_seed_urls cfg initial_state robots_o sitemap_o)
    as [[s0 a0]|] eqn:Hp; [|discriminate].
  destruct (run cfg _ evs) as [[s1 a1]|] eqn:Hr; [|discriminate].
  intros H; inversion H; subst.
  eapply run_induction; eauto.
Qed.

Lemma fetch_content url o result :
  Fetcher.fetch url o = Ok result -> Fetcher.content result = body_of o.
Proof. destruct o; simpl; intros H; inversion H; subst; reflexivity. Qed.

(** The attributes that the seeding leaves empty, and the robots rules. *)
Lemma prepare_seed_urls_books robots_o sitemap_o s acts :
  _prepare_seed_urls cfg initial_state robots_o sitemap_o = Ok (s, acts) ->
  broken_links s = [] /\ robots_inv cfg robots_o s.
Proof.
  unfold _prepare_seed_urls, robots_inv.
  destruct (yarl_with_path (base_url cfg) "/robots.txt") as [robots_url|];
    simpl; [|discriminate].
  destruct (Fetcher.fetch robots_url robots_o) as [robots_result|] eqn:Hf;
    simpl; [|discriminate].
  apply fetch_content in Hf. rewrite Hf.
  destruct (yarl_with_path (base_url cfg) "/sitemap.xml") as [sitemap_url|];
    simpl; [|discriminate].
  destruct (Fetcher.fetch sitemap_url sitemap_o) as [sitemap_result|];
    simpl; [|discriminate].
  destruct (_ && _).
  - destruct (seed_loop cfg _ _) as [[s2 a2]|] eqn:Hloop; simpl; [|discriminate].
    intros H; inversion H; subst; clear H.
    destruct (ManagerFacts.seed_loop_spec _ _ _ _ _ Hloop)
      as ((_ & _ & _ & _ & Hb & Hr & _) & _).
    rewrite Hb, Hr. done.
  - intros H; inversion H; subst; clear H. done.
Qed.

(** *** [broken_links] and [duplicate_map] follow [pages] *)

Lemma books_inv_step s ev s' acts :
  books_inv s -> step cfg s ev = Some (s', acts) -> books_inv s'.
Proof.
  intros [Hb Hd] Hstep. destruct ev as [w|w o].
  - apply step_take_fields in Hstep
      as (e & q & wk & _ & _ & _ & _ & Hp & Hb' & Hd' & _).
    unfold books_inv. by rewrite Hp, Hb', Hd'.
  - apply step_fetched_fields in Hstep as (e & wk & _ & _ & _ & Hcases).
    destruct Hcases as [(_ & _ & _ & Hp & Hb' & Hd' & _) |
      (page & hacts & links & _ & _ & Hp & Hb' & Hd' & _)];
      unfold books_inv; rewrite Hp, Hb', Hd'; [done|].
    split.
    + rewrite filter_app, Hb. f_equal.
      rewrite filter_cons, filter_nil.
      destruct (is_broken page); by destruct (decide _).
    + by rewrite hash_buckets_snoc, Hd.
Qed.

(** *** One page per URL, one fetch per URL *)

Lemma visits_inv_step s ev s' acts :
  visits_inv s -> step cfg s ev = Some (s', acts) -> visits_inv s'.
Proof.
  intros (Hnd & Hpv & Hfv & Hone) Hstep. destruct ev as [w|w o].
  - apply step_take_fields in Hstep
      as (e & q & wk & Hw & _ & _ & _ & Hp & _ & _ & _ & Hws & _ & _ & Hcases).
    assert (Hvis : visited s ⊆ visited s').
    { destruct Hcases as [(_ & -> & _) | [(_ & -> & _) | (_ & -> & _)]];
        set_solver. }
    assert (Hnew : forall e0, wk = Fetching e0 ->
              e0 = e /\ (entry_url e ∉ visited s) /\ entry_url e ∈ visited s').
    { intros e0 Hf.
      destruct Hcases as [(_ & _ & _ & -> & _) | [(_ & _ & _ & -> & _) |
        (Hv & -> & -> & _)]]; try discriminate.
      inversion Hf; subst. set_solver. }
    unfold visits_inv. rewrite Hp, Hws.
    split; [exact Hnd|]. split; [intros p Hin; apply Hvis; eauto|]. split.
    + intros w0 e0 [(-> & Hf & _) | (_ & Hl)]%list_lookup_insert_Some.
      * destruct (Hnew _ Hf) as (-> & Hfresh & Hin).
        split; [exact Hin|]. intros Hin'.
        apply list_elem_of_fmap in Hin' as (p & Hu & Hp'). apply Hfresh.
        rewrite Hu. by apply Hpv.
      * destruct (Hfv _ _ Hl). split; [by apply Hvis|done].
    + intros w1 w2 e1 e2
        [(-> & Hf1 & _) | (Hn1 & Hl1)]%list_lookup_insert_Some
        [(-> & Hf2 & _) | (Hn2 & Hl2)]%list_lookup_insert_Some Heq;
        [done| | |by eapply Hone].
      * destruct (Hnew _ Hf1) as (-> & Hfresh & _). exfalso. apply Hfresh.
        rewrite Heq. by destruct (Hfv _ _ Hl2).
      * destruct (Hnew _ Hf2) as (-> & Hfresh & _). exfalso. apply Hfresh.
        rewrite <- Heq. by destruct (Hfv _ _ Hl1).
  - apply step_fetched_fields in Hstep as (e & wk & Hw & Hws & Hwk & Hcases).
    destruct (Hfv _ _ Hw) as [Hev Hep].
    assert (Hold : forall w0 e0, <[w := wk]> (workers s) !! w0 = Some (Fetching e0) ->
              w0 <> w /\ workers s !! w0 = Some (Fetching e0)).
    { intros w0 e0 [(-> & Hf & _) | (Hn & Hl)]%list_lookup_insert_Some;
        [by destruct (Hwk e0)|done]. }
    unfold visits_inv. rewrite Hws.
    destruct Hcases as [(_ & _ & _ & Hp & _ & _ & Hv & _) |
      (page & hacts & links & _ & Hu & Hp & _ & _ & Hv & _)]; rewrite Hp, Hv.
    + split; [exact Hnd|]. split; [exact Hpv|]. split.
      * intros w0 e0 [_ Hl]%Hold. eauto.
      * intros w1 w2 e1 e2 [_ Hl1]%Hold [_ Hl2]%Hold. eauto.
    + rewrite map_app. simpl. rewrite Hu. split.
      { apply NoDup_app. split; [exact Hnd|]. split; [|apply NoDup_singleton].
        intros u Hin ->%list_elem_of_singleton. done. }
      split.
      { intros p [Hin | ->%list_elem_of_singleton]%elem_of_app;
          [eauto|by rewrite Hu]. }
      split.
      * intros w0 e0 [Hn Hl]%Hold. destruct (Hfv _ _ Hl) as [Hv0 Hp0].
        split; [exact Hv0|].
        intros [Hin | Heq%list_elem_of_singleton]%elem_of_app; [done|].
        apply Hn. by eapply Hone.
      * intros w1 w2 e1 e2 [_ Hl1]%Hold [_ Hl2]%Hold. eauto.
Qed.

(** *** The queue, [visited] and [enqueued] *)

Lemma queue_inv_step s ev s' acts :
  queue_inv s -> step cfg s ev = Some (s', acts) -> queue_inv s'.
Proof.
  intros (Hnd & Hfresh & Hiff) Hstep. destruct ev as [w|w o].
  - apply step_take_fields in Hstep
      as (e & q & wk & _ & Hq & Hq' & He & _ & _ & _ & _ & _ & _ & _ & Hcases).
    rewrite Hq in Hnd, Hfresh, Hiff. simpl in Hnd, Hfresh, Hiff.
    apply NoDup_cons in Hnd as [Hnq Hnd].
    assert (Hv : visited s' = visited s ∪ {[entry_url e]}).
    { destruct Hcases as [(Hin & _) | [(_ & -> & _) | (_ & -> & _)]]; try done.
      exfalso. revert Hin. apply Hfresh. by left. }
    unfold queue_inv. rewrite Hq', He, Hv.
    split; [exact Hnd|]. split.
    + intros u Hu [Hin | ->%elem_of_singleton]%elem_of_union; [|done].
      revert Hin. apply Hfresh. by right.
    + intros u. rewrite Hiff, elem_of_union, elem_of_singleton, elem_of_cons.
      tauto.
  - apply step_fetched_fields in Hstep as (e & wk & _ & _ & _ & Hcases).
    destruct Hcases as [(_ & Hq & He & _ & _ & _ & Hv & _) |
      (page & hacts & links & _ & _ & _ & _ & _ & Hv & _ & _ & Hq & He & Hnd' &
       Hnew & _)]; unfold queue_inv; rewrite Hq, He, Hv; [done|].
    rewrite map_app, <- put_urls_puts.
    assert (Hnv : forall u, u ∈ put_urls hacts ->
              (u ∉ visited s) /\ u ∉ map entry_url (queue s)).
    { intros u Hu. apply Hnew in Hu. rewrite Hiff in Hu. tauto. }
    split.
    { apply NoDup_app. split; [exact Hnd|]. split; [|exact Hnd'].
      intros u Hu Hu'. by destruct (Hnv _ Hu'). }
    split.
    + intros u [Hu | Hu]%elem_of_app; [by apply Hfresh|by destruct (Hnv _ Hu)].
    + intros u. rewrite elem_of_union, elem_of_list_to_set, elem_of_app, Hiff.
      tauto.
Qed.

(** *** The shape and the origin of frontier entries *)

Lemma harvested_puts url depth links s0 hacts e' :
  Forall (harvested cfg url depth links s0) hacts ->
  e' ∈ puts hacts ->
  exists link, e' = (link, (depth + 1)%Z, Some url) /\
    is_allowed_scheme link = Ok true /\
    is_same_domain link (base_url cfg) = Ok true /\ link ∉ visited s0.
Proof.
  intros Hall Hin. unfold puts in Hin.
  apply list_elem_of_omap in Hin as (a & Ha & Hput).
  rewrite Forall_forall in Hall.
  destruct (Hall a Ha) as (link & -> & _ & ? & ? & ?).
  inversion Hput; subst. eauto.
Qed.

Lemma entries_inv_step s tr ev s' acts :
  visits_inv s -> entries_inv cfg s tr ->
  step cfg s ev = Some (s', acts) -> entries_inv cfg s' (tr ++ acts).
Proof.
  intros (_ & _ & Hfv & _) (Hput & Hq & Hf & Hem) Hstep.
  unfold entries_inv. rewrite puts_app, ManagerFacts.emitted_app.
  destruct ev as [w|w o].
  - apply step_take_fields in Hstep
      as (e & q & wk & _ & Hqs & Hq' & _ & Hp & _ & _ & _ & Hws & Hnp & Hne & Hcases).
    rewrite Hnp, Hne, !app_nil_r, Hq', Hws.
    split.
    { intros e0 Hin. destruct (Hput _ Hin) as [Hwf Hsrc]. split; [done|].
      intros src Hs. rewrite Hp. by apply Hsrc. }
    split.
    { intros e0 Hin. apply Hq. rewrite Hqs. by right. }
    split; [|exact Hem].
    intros w0 e0 [(-> & Hwk & _) | (_ & Hl)]%list_lookup_insert_Some; [|eauto].
    destruct Hcases as [(_ & _ & _ & -> & _) | [(_ & _ & _ & -> & _) |
      (_ & _ & -> & _ & _ & Hd & _)]]; try discriminate.
    inversion Hwk; subst. split; [|exact Hd]. apply Hq. rewrite Hqs. by left.
  - apply step_fetched_fields in Hstep as (e & wk & Hw & Hws & Hwk & Hcases).
    assert (Hold : forall w0 e0, <[w := wk]> (workers s) !! w0 = Some (Fetching e0) ->
              workers s !! w0 = Some (Fetching e0)).
    { intros w0 e0 [(-> & Hf' & _) | (Hn & Hl)]%list_lookup_insert_Some;
        [by destruct (Hwk e0)|done]. }
    rewrite Hws.
    destruct Hcases as [(-> & Hqs & _ & Hp & _) |
      (page & hacts & links & -> & Hu & Hp & _ & _ & _ & _ & _ & Hqs & _ & _ & _ & Hall)].
    + simpl. rewrite !app_nil_r, Hqs.
      split.
      { intros e0 Hin. destruct (Hput _ Hin) as [Hwf Hsrc]. split; [done|].
        intros src Hs. rewrite Hp. by apply Hsrc. }
      split; [exact Hq|]. split; [|exact Hem].
      intros w0 e0 Hl%Hold. eauto.
    + change (puts (Emit e page :: hacts)) with (puts hacts).
      change (emitted (Emit e page :: hacts)) with ((e, page) :: emitted hacts).
      destruct (ManagerFacts.harvested_only_puts _ _ _ _ _ _ Hall) as [_ ->].
      destruct (Hf _ _ Hw) as [Hein Hed].
      destruct (Hput _ Hein) as [([Hd0 _] & _ & _) _].
      destruct (Hfv _ _ Hw) as [Hev _].
      rewrite Hqs. split.
      { intros e0 [Hin | Hin]%elem_of_app.
        - destruct (Hput _ Hin) as [Hwf Hsrc]. split; [done|].
          intros src Hs. destruct (Hsrc _ Hs) as [Hin' Hne]. split; [|done].
          rewrite Hp, map_app. apply elem_of_app. by left.
        - destruct (harvested_puts _ _ _ _ _ _ Hall Hin)
            as (link & -> & _ & Hsame & Hnv).
          split.
          + unfold well_formed.
            change (entry_depth (link, (entry_depth e + 1)%Z, Some (entry_url e)))
              with (entry_depth e + 1)%Z.
            split; [lia|]. split; [|by right].
            split; [done|lia].
          + intros src [= <-]. simpl. split.
            * rewrite Hp, map_app. apply elem_of_app. right. simpl. rewrite Hu.
              by left.
            * intros Heq. change (entry_url e = link) in Heq.
              apply Hnv. by rewrite <- Heq. }
      split.
      { intros e0 [Hin | Hin]%elem_of_app; apply elem_of_app; [left; eauto|by right]. }
      split.
      { intros w0 e0 Hl%Hold. destruct (Hf _ _ Hl). split; [|done].
        apply elem_of_app. by left. }
      intros e0 p [Hin | Hin]%elem_of_app.
      * destruct (Hem _ _ Hin). split; [|done]. apply elem_of_app. by left.
      * apply list_elem_of_singleton in Hin. inversion Hin; subst.
        split; [|done]. apply elem_of_app. by left.
Qed.

(** *** Edges *)

Lemma edges_inv_step s tr ev s' acts :
  entries_inv cfg s tr -> edges_inv s tr ->
  step cfg s ev = Some (s', acts) -> edges_inv s' (tr ++ acts).
Proof.
  intros (_ & Hq & _) (Hnd & Hedge) Hstep.
  unfold edges_inv. rewrite puts_app.
  assert (Hmono : forall v, visited s ⊆ v ->
            forall src t, (src, t) ∈ edges s ->
              t ∈ v /\ src <> "" /\ exists d, (t, d, Some src) ∈ puts tr ++ puts acts).
  { intros v Hsub src t Hin. destruct (Hedge _ _ Hin) as (Hv & Hs & d & Hd).
    split; [by apply Hsub|]. split; [done|]. exists d. apply elem_of_app. by left. }
  destruct ev as [w|w o].
  - apply step_take_fields in Hstep
      as (e & q & wk & _ & Hqs & _ & _ & _ & _ & _ & _ & _ & _ & _ & Hcases).
    destruct Hcases as [(_ & Hv & He & _) | [(_ & Hv & He & _) |
      (Hfresh & Hv & _ & _ & _ & _ & He)]]; rewrite He, Hv.
    + split; [exact Hnd|]. by apply Hmono.
    + split; [exact Hnd|]. apply Hmono. set_solver.
    + assert (Hein : e ∈ puts tr) by (apply Hq; rewrite Hqs; by left).
      destruct e as [[t d] [src|]]; simpl in *;
        [destruct (truthy src) eqn:Hsrc|]; rewrite ?app_nil_r;
        try (split; [exact Hnd|apply Hmono; set_solver]).
      rewrite fmap_app. simpl. split.
      * apply NoDup_app. split; [exact Hnd|]. split; [|apply NoDup_singleton].
        intros u Hin ->%list_elem_of_singleton.
        apply list_elem_of_fmap in Hin as ([src' t'] & Heq & Hin). simpl in Heq.
        subst t'. apply Hfresh. by destruct (Hedge _ _ Hin).
      * intros src' t' [Hin | Hin]%elem_of_app.
        -- apply Hmono; [set_solver|exact Hin].
        -- apply list_elem_of_singleton in Hin. inversion Hin; subst.
           split; [set_solver|]. split; [by destruct src|].
           exists d. apply elem_of_app. by left.
  - apply step_fetched_fields in Hstep as (e & wk & _ & _ & _ & Hcases).
    destruct Hcases as [(_ & _ & _ & _ & _ & _ & Hv & He & _) |
      (page & hacts & links & _ & _ & _ & _ & _ & Hv & He & _)];
      rewrite He, Hv; (split; [exact Hnd|by apply Hmono]).
Qed.

(** *** The robots rules stay *)

Lemma robots_step s ev s' acts :
  step cfg s ev = Some (s', acts) -> robots s' = robots s.
Proof.
  destruct ev as [w|w o]; intros Hstep.
  - by apply step_take_fields in Hstep
      as (e & q & wk & _ & _ & _ & _ & _ & _ & _ & Hr & _).
  - apply step_fetched_fields in Hstep as (e & wk & _ & _ & _ & Hcases).
    by destruct Hcases as [(_ & _ & _ & _ & _ & _ & _ & _ & Hr) |
      (page & hacts & links & _ & _ & _ & _ & _ & _ & _ & Hr & _)].
Qed.

(** *** All of it, on every prefix of a crawl *)

Lemma books_seed robots_o sitemap_o s acts :
  _prepare_seed_urls cfg initial_state robots_o sitemap_o = Ok (s, acts) ->
  books cfg robots_o (set_workers (replicate (threads cfg) Waiting) s) acts.
Proof.
  intros H. destruct (prepare_seed_urls_books _ _ _ _ H) as [Hb Hr].
  apply ManagerFacts.prepare_seed_urls_spec in H
    as (acts' & -> & (Hq & He & Hnd & Hfresh) & Hv & Hed & Hp & Hd & Hw & Hall).
  remember (Put (base_url cfg, 0%Z, None) :: acts') as acts eqn:Hacts.
  assert (Hseeds : forall e, e ∈ puts acts ->
            entry_depth e = 0%Z /\ entry_source e = None /\
            (entry_url e = base_url cfg \/
             is_same_domain (entry_url e) (base_url cfg) = Ok true)).
  { intros e Hin. subst acts. unfold puts in Hin.
    apply list_elem_of_omap in Hin as (a & Ha & Hput).
    apply elem_of_cons in Ha as [-> | Ha].
    - inversion Hput; subst. repeat split. by left.
    - rewrite Forall_forall in Hall. destruct (Hall a Ha) as (u & -> & Hsame).
      inversion Hput; subst. repeat split. by right. }
  assert (Hputs : Forall (fun a => exists e, a = Put e) acts).
  { subst acts. constructor; [eauto|]. eapply Forall_impl; [exact Hall|].
    intros a (u & -> & _). eauto. }
  apply ManagerFacts.seeded_only_puts in Hputs as [_ Hnone].
  clear Hacts Hall.
  assert (Hwait : forall w e,
            replicate (threads cfg) Waiting !! w <> Some (Fetching e)).
  { intros w e [Hf _]%lookup_replicate. discriminate. }
  simpl in Hq.
  unfold books, books_inv, visits_inv, queue_inv, entries_inv, edges_inv,
    robots_inv. simpl. rewrite Hb, Hp, Hd, Hv, Hed, Hq, He, Hnone.
  rewrite <- put_urls_puts.
  split; [done|].
  split.
  { split; [constructor|]. split; [intros p Hin; by apply elem_of_nil in Hin|].
    split; [intros w e Hl; by destruct (Hwait w e)|].
    intros w w' e e' Hl. by destruct (Hwait w e). }
  split.
  { split; [exact Hnd|]. split; [set_solver|]. intros u. set_solver. }
  split.
  { split.
    { intros e Hin. destruct (Hseeds _ Hin) as (Hd0 & Hs0 & Hu0). split.
      - unfold well_formed. rewrite Hd0, Hs0. split; [lia|]. done.
      - intros src Hs. rewrite Hs0 in Hs. discriminate. }
    split; [done|]. split; [intros w e Hl; by destruct (Hwait w e)|].
    intros e p Hin. by apply elem_of_nil in Hin. }
  split; [|exact Hr].
  split; [constructor|]. intros src t Hin. by apply elem_of_nil in Hin.
Qed.

Lemma books_step robots_o s tr ev s' acts :
  books cfg robots_o s tr -> step cfg s ev = Some (s', acts) ->
  books cfg robots_o s' (tr ++ acts).
Proof.
  intros (H1 & H2 & H3 & H4 & H5 & H6) Hstep.
  split; [by eapply books_inv_step|].
  split; [by eapply visits_inv_step|].
  split; [by eapply queue_inv_step|].
  split; [by eapply entries_inv_step|].
  split; [by eapply edges_inv_step|].
  unfold robots_inv. rewrite (robots_step _ _ _ _ Hstep). exact H6.
Qed.

Lemma crawl_prefix_books robots_o sitemap_o evs s tr :
  crawl_prefix cfg robots_o sitemap_o evs = Some (s, tr) ->
  books cfg robots_o s tr.
Proof.
  apply crawl_prefix_induction; eauto using books_seed, books_step.
Qed.

Lemma base_url_is_put robots_o sitemap_o evs s tr :
  crawl_prefix cfg robots_o sitemap_o evs = Some (s, tr) ->
  (base_url cfg, 0%Z, None) ∈ puts tr.
Proof.
  revert evs s tr.
  apply (crawl_prefix_induction (fun _ tr => (base_url cfg, 0%Z, None) ∈ puts tr)).
  - intros s acts H. apply ManagerFacts.prepare_seed_urls_spec in H
      as (acts' & -> & _). by left.
  - intros s tr ev s' acts Hin _. rewrite puts_app. apply elem_of_app. by left.
Qed.

(** X11: [broken_links] is, at every point of a crawl, the list of the
    recorded pages whose status is 400 or more, in the order of [pages];
    a page without a status (a timeout, a transport error) is not in it. *)
Theorem broken_links_are_the_pages_with_status_400_up
    robots_o sitemap_o evs s tr :
  crawl_prefix cfg robots_o sitemap_o evs = Some (s, tr) ->
  broken_links s = filter (fun p => is_broken p = true) (pages s) /\
  forall p, p ∈ broken_links s <->
    p ∈ pages s /\ exists z, status p = Some z /\ (400 <= z)%Z.
Proof.
  intros H. apply crawl_prefix_books in H as ([Hb _] & _).
  split; [exact Hb|]. intros p.
  rewrite Hb, list_elem_of_filter, is_broken_spec. tauto.
Qed.

(** X12: a URL has at most one page in [pages], every page's URL is in
    [visited], and two workers never wait for the fetch of the same URL;
    a URL being fetched is visited already and has no page yet. *)
Theorem one_page_and_one_fetch_per_url robots_o sitemap_o evs s tr :
  crawl_prefix cfg robots_o sitemap_o evs = Some (s, tr) ->
  NoDup (map url (pages s)) /\
  (forall p, p ∈ pages s -> url p ∈ visited s) /\
  (forall w e, workers s !! w = Some (Fetching e) ->
     entry_url e ∈ visited s /\ entry_url e ∉ map url (pages s)) /\
  (forall w w' e e',
     workers s !! w = Some (Fetching e) ->
     workers s !! w' = Some (Fetching e') ->
     entry_url e = entry_url e' -> w = w').
Proof.
  intros H. apply crawl_prefix_books in H as (_ & Hvisits & _).
  exact Hvisits.
Qed.

(** X13: the queue never holds a URL twice nor a visited URL, and
    [enqueued] is the disjoint union of [visited] and the URLs in the
    queue; once the queue is empty every enqueued URL has been visited. *)
Theorem enqueued_is_visited_or_queued robots_o sitemap_o evs s tr :
  crawl_prefix cfg robots_o sitemap_o evs = Some (s, tr) ->
  NoDup (map entry_url (queue s)) /\
  (forall u, u ∈ map entry_url (queue s) -> u ∉ visited s) /\
  (forall u, u ∈ enqueued s <-> u ∈ visited s \/ u ∈ map entry_url (queue s)) /\
  (queue s = [] -> visited s = enqueued s).
Proof.
  intros H. apply crawl_prefix_books in H as (_ & _ & (Hnd & Hfresh & Hiff) & _).
  split; [exact Hnd|]. split; [exact Hfresh|]. split; [exact Hiff|].
  intros Hq. apply set_eq. intros u. rewrite Hiff, Hq. simpl.
  rewrite elem_of_nil. tauto.
Qed.

(** X14: in a crawl the test [if url in self.visited: return] at the top
    of [_process_url] never succeeds: every entry a worker takes from the
    queue is new, is marked visited and counts as processed. *)
Theorem dequeued_entry_is_never_visited_before
    robots_o sitemap_o evs s tr w s' acts :
  crawl_prefix cfg robots_o sitemap_o evs = Some (s, tr) ->
  step cfg s (Take w) = Some (s', acts) ->
  exists e, queue s = e :: queue s' /\ acts = [Process e] /\
    (entry_url e ∉ visited s) /\ visited s' = visited s ∪ {[entry_url e]}.
Proof.
  intros H Hstep. apply crawl_prefix_books in H as (_ & _ & (_ & Hfresh & _) & _).
  apply step_take_fields in Hstep
    as (e & q & wk & _ & Hq & Hq' & _ & _ & _ & _ & _ & _ & _ & _ & Hcases).
  exists e. rewrite Hq'. split; [exact Hq|].
  assert (Hnew : entry_url e ∉ visited s).
  { apply Hfresh. rewrite Hq. by left. }
  destruct Hcases as [(Hin & _) | [(_ & Hv & _ & _ & -> & _) |
    (_ & Hv & _ & -> & _)]]; done.
Qed.

(** X15: every entry that is ever put on the queue has a depth between 0
    and [max(0, max_depth + 1)]; it has no source exactly when its depth
    is 0 (a seed), and otherwise its source is the URL of a page already
    in [pages] and differs from its own URL. *)
Theorem frontier_entries_have_bounded_depth_and_a_recorded_source
    robots_o sitemap_o evs s tr :
  crawl_prefix cfg robots_o sitemap_o evs = Some (s, tr) ->
  forall e, e ∈ puts tr ->
    (0 <= entry_depth e <= Z.max 0 (max_depth cfg + 1))%Z /\
    (entry_source e = None <-> entry_depth e = 0%Z) /\
    (forall src, entry_source e = Some src ->
       src ∈ map url (pages s) /\ src <> entry_url e).
Proof.
  intros H e Hin.
  apply crawl_prefix_books in H as (_ & _ & _ & (Hput & _) & _).
  destruct (Hput _ Hin) as [(Hd & Hs & _) Hsrc]. done.
Qed.

(** X16: the crawl stays on the host of [base_url]: every URL put on the
    queue, and so the URL of every page, is [base_url] itself or passes
    [is_same_domain] against it. *)
Theorem crawl_stays_on_the_base_host robots_o sitemap_o evs s tr :
  crawl_prefix cfg robots_o sitemap_o evs = Some (s, tr) ->
  (forall e, e ∈ puts tr ->
     entry_url e = base_url cfg \/
     is_same_domain (entry_url e) (base_url cfg) = Ok true) /\
  (forall p, p ∈ pages s ->
     url p = base_url cfg \/ is_same_domain (url p) (base_url cfg) = Ok true).
Proof.
  intros H.
  destruct (ManagerFacts.crawl_prefix_inv _ _ _ _ _ _ H) as (_ & _ & _ & Hp & _).
  apply crawl_prefix_books in H as (_ & _ & _ & (Hput & _ & _ & Hem) & _).
  assert (Hhost : forall e, e ∈ puts tr ->
            entry_url e = base_url cfg \/
            is_same_domain (entry_url e) (base_url cfg) = Ok true).
  { intros e Hin. by destruct (Hput _ Hin) as [(_ & _ & Hh) _]. }
  split; [exact Hhost|].
  intros p Hin. rewrite Hp in Hin.
  apply list_elem_of_fmap in Hin as ([e p'] & -> & Hin). simpl.
  destruct (Hem _ _ Hin) as [He ->]. by apply Hhost.
Qed.

(** X17: [edges] holds at most one edge into a URL; the target of an edge
    is visited, its source is a non-empty URL with a page in [pages] and
    differs from the target, and no edge points to [base_url]. *)
Theorem edges_enter_each_url_once robots_o sitemap_o evs s tr :
  crawl_prefix cfg robots_o sitemap_o evs = Some (s, tr) ->
  NoDup (edges s).*2 /\
  forall src t, (src, t) ∈ edges s ->
    t ∈ visited s /\ src ∈ map url (pages s) /\ src <> t /\ src <> "" /\
    t <> base_url cfg.
Proof.
  intros H.
  pose proof (base_url_is_put _ _ _ _ _ H) as Hbase.
  destruct (ManagerFacts.crawl_prefix_inv _ _ _ _ _ _ H) as ([Hnd _] & _).
  apply crawl_prefix_books in H as (_ & _ & _ & (Hput & _) & (Hne & Hedge) & _).
  split; [exact Hne|].
  intros src t Hin. destruct (Hedge _ _ Hin) as (Hv & Hsrc & d & Hd).
  destruct (Hput _ Hd) as [_ Hs]. destruct (Hs src eq_refl) as [Hpage Hdiff].
  repeat split; try done. intros ->.
  rewrite put_urls_puts in Hnd.
  assert (Heq : (base_url cfg, d, Some src) = (base_url cfg, 0%Z, None))
    by (by eapply (NoDup_map_inj entry_url)).
  discriminate.
Qed.

(** X18: the [duplicate_map] of a [CrawlResult] is what [pages_by_hash]
    computes from the result's pages, and [summarize_duplicates], which
    the command line applies to it once more, leaves it unchanged. *)
Theorem result_duplicate_map_is_pages_by_hash robots_o sitemap_o evs r :
  crawl cfg robots_o sitemap_o evs = Some r ->
  r_duplicate_map r = Duplicates.pages_by_hash (r_pages r) /\
  Duplicates.summarize_duplicates (r_duplicate_map r) = r_duplicate_map r.
Proof.
  unfold crawl. intros H.
  destruct (crawl_prefix cfg robots_o sitemap_o evs) as [[s tr]|] eqn:Hpre;
    [|discriminate].
  destruct (drained s); [|discriminate]. inversion H; subst; clear H.
  apply crawl_prefix_books in Hpre as ([_ Hd] & _).
  simpl. rewrite Hd, pages_by_hash_buckets. split; [reflexivity|].
  apply map_eq. intros h. apply option_eq. intros urls.
  change (with_several_urls (hash_buckets (pages s)))
    with (Duplicates.summarize_duplicates (hash_buckets (pages s))).
  rewrite !DuplicatesFacts.summarize_duplicates_lookup. tauto.
Qed.

(** X19: robots rules fail open: a URL is turned away by the robots test
    only if the robots library is installed, [/robots.txt] was answered
    with a non-empty body (whatever its status), that body was parsed
    without an exception and [allowed] returned [False] for the URL. *)
Theorem robots_deny_only_through_parsed_rules robots_o sitemap_o evs s tr u :
  crawl_prefix cfg robots_o sitemap_o evs = Some (s, tr) ->
  robots_denies s u = true ->
  exists parse body rules,
    Robots.Robots = Some parse /\
    body_of robots_o = Some body /\ body <> "" /\
    parse (decode_utf8_ignore body) = Ok rules /\
    rules u (user_agent cfg) = Ok false.
Proof.
  intros H Hdeny.
  apply crawl_prefix_books in H as (_ & _ & _ & _ & _ & Hr).
  unfold robots_denies in Hdeny. rewrite Hr in Hdeny.
  apply negb_true_iff in Hdeny.
  unfold Robots.allows, Robots.build_robots in Hdeny. simpl in Hdeny.
  destruct Robots.Robots as [parse|]; [|discriminate].
  destruct (body_of robots_o) as [body|]; [|discriminate].
  destruct (truthy body) eqn:Hb; [|discriminate].
  destruct (truthy (decode_utf8_ignore body)); [|discriminate].
  destruct (parse (decode_utf8_ignore body)) as [rules|] eqn:Hparse;
    simpl in Hdeny; [|discriminate].
  destruct (rules u (user_agent cfg)) as [[|]|] eqn:Hrule; try discriminate.
  exists parse, body, rules. repeat split; try done. by destruct body.
Qed.

(** X20: with [threads = 0] no schedule brings the crawl to its end: the
    seed stays in the queue, so [queue.join()] never returns. *)
Theorem crawl_without_workers_never_returns robots_o sitemap_o evs :
  threads cfg = 0 -> crawl cfg robots_o sitemap_o evs = None.
Proof.
  intros Hth. unfold crawl, crawl_prefix. rewrite Hth.
  destruct (_prepare_seed_urls cfg initial_state robots_o sitemap_o)
    as [[s0 a0]|] eqn:Hp; [|done].
  apply ManagerFacts.prepare_seed_urls_spec in Hp
    as (acts' & -> & (Hq & _) & _).
  destruct evs as [|ev rest]; simpl.
  - unfold drained. simpl. rewrite Hq. done.
  - assert (Hnone : step cfg (set_workers [] s0) ev = None)
      by (destruct ev; reflexivity).
    by rewrite Hnone.
Qed.

(** *** What ends a worker *)

Lemma fetch_raises url o ex :
  Fetcher.fetch url o = Raise ex -> o = Fetcher.Crashed ex.
Proof. destruct o; simpl; intros H; inversion H; subst; reflexivity. Qed.

Lemma maybe_parse_html_some url result pp :
  _maybe_parse_html cfg url result = Some pp ->
  exists body, Fetcher.content result = Some body /\ body <> "" /\
    Parser.parse_html url (base_url cfg) (decode_utf8_ignore body) = Ok pp.
Proof.
  unfold _maybe_parse_html. destruct (_ && _); [discriminate|].
  destruct (Fetcher.content result) as [body|]; [|discriminate].
  destruct (truthy body) eqn:Hb; [|discriminate].
  destruct (Parser.parse_html url (base_url cfg) (decode_utf8_ignore body))
    as [parsed|] eqn:Hparse; simpl; [|discriminate].
  intros [= <-]. exists body. split; [done|]. split; [by destruct body|done].
Qed.

Lemma digest_and_parse_some url result s s1 ch pp :
  digest_and_parse cfg url result s = (s1, ch, Some pp) ->
  _maybe_parse_html cfg url result = Some pp.
Proof.
  unfold digest_and_parse.
  destruct (Fetcher.content result) as [body|]; [|discriminate].
  destruct (truthy body); [|discriminate].
  by intros [= _ _ ->].
Qed.

Lemma harvest_returns url depth links :
  Forall (fun l => exists same, is_same_domain l (base_url cfg) = Ok same) links ->
  forall s s' acts r, harvest cfg url depth links s = (s', acts, r) -> r = Ok tt.
Proof.
  induction 1 as [|link rest (same & Hsame) _ IH]; intros s s' acts r.
  - simpl. by intros [= _ _ <-].
  - assert (Hscheme : exists b, is_allowed_scheme link = Ok b).
    { destruct (ParserFacts.is_same_domain_parses _ _ _ Hsame)
        as (p & q & Hp & _ & _).
      unfold is_allowed_scheme. rewrite Hp. simpl. eauto. }
    destruct Hscheme as [b Hscheme]. cbn [harvest]. rewrite Hscheme.
    destruct b; [|apply IH].
    destruct (_ && _); [|apply IH].
    rewrite Hsame. destruct same; [|apply IH].
    destruct (harvest cfg url depth rest _) as [[s1 a1] r1] eqn:Hrest.
    intros [= _ _ <-]. by eapply IH.
Qed.

(** X21: a worker task ends with an exception only when the fetch itself
    raised something other than a timeout or a client error, or when the
    progress callback raised; digesting, parsing and the harvesting of
    the links never end it. *)
Theorem worker_ends_only_on_a_crash_or_in_the_callback s w o e s' acts ex :
  workers s !! w = Some (Fetching e) ->
  step cfg s (Fetched w o) = Some (s', acts) ->
  workers s' !! w = Some (Failed ex) ->
  o = Fetcher.Crashed ex \/
  exists callback page,
    _progress_callback cfg = Some callback /\ callback page = Raise ex /\
    acts = [Emit e page].
Proof.
  intros Hw Hstep Hfail. simpl in Hstep. rewrite Hw in Hstep.
  destruct (process_url_tail cfg e o s) as [[s1 a1] wk] eqn:Ht.
  inversion Hstep; subst; clear Hstep.
  assert (Hwk : wk = Failed ex).
  { simpl in Hfail.
    apply list_lookup_insert_Some in Hfail as [(_ & ? & _) | (Hne & _)]; done. }
  subst wk. clear Hfail.
  apply process_url_tail_books in Ht
    as [(ex' & Hf & _ & _ & [= <-]) |
        (result & s2 & ch & parsed & hacts & Hf & Hblock & -> & Hrest)].
  { left. by apply fetch_raises in Hf. }
  destruct Hrest as [(-> & _ & [(ex' & Hn & [= <-]) | [_ ?]]) |
                     (pp & r & -> & _ & Hh & Hr)]; [|done|].
  - right. unfold notify in Hn.
    destruct (_progress_callback cfg) as [callback|]; [|discriminate]. eauto.
  - exfalso. apply digest_and_parse_some, maybe_parse_html_some in Hblock
      as (body & _ & _ & Hparse).
    apply ParserFacts.parse_html_internal_links in Hparse.
    assert (Hlinks : Forall (fun l => exists same,
                       is_same_domain l (base_url cfg) = Ok same)
                       (Parser.internal_links pp)).
    { eapply Forall_impl; [exact Hparse|]. intros l Hl. simpl in Hl.
      by exists true. }
    rewrite (harvest_returns _ _ _ Hlinks _ _ _ _ Hh) in Hr. discriminate.
Qed.

(** The harvesting loop passes over no link that it is to admit. *)
Lemma harvest_complete url depth links :
  forall s s' acts,
    harvest cfg url depth links s = (s', acts, Ok tt) ->
    forall link, link ∈ links ->
      is_allowed_scheme link = Ok true ->
      is_same_domain link (base_url cfg) = Ok true ->
      link ∉ visited s ->
      link ∈ enqueued s \/ (link, (depth + 1)%Z, Some url) ∈ puts acts.
Proof.
  induction links as [|l rest IH]; intros s s' acts H link Hin Hscheme Hsame Hvis.
  { by apply elem_of_nil in Hin. }
  cbn [harvest] in H.
  destruct (decide (link ∈ enqueued s)) as [Henq | Henq]; [by left|].
  apply elem_of_cons in Hin as [<- | Hin].
  - rewrite Hscheme in H.
    rewrite (bool_decide_eq_true_2 _ Hvis), (bool_decide_eq_true_2 _ Henq) in H.
    cbn [andb] in H. rewrite Hsame in H.
    destruct (harvest cfg url depth rest _) as [[s1 a1] r1].
    inversion H; subst. right. by left.
  - destruct (is_allowed_scheme l) as [[|]|ex]; [| |discriminate].
    + destruct (bool_decide (l ∉ visited s) && bool_decide (l ∉ enqueued s)).
      * destruct (is_same_domain l (base_url cfg)) as [[|]|ex]; [| |discriminate].
        -- destruct (harvest cfg url depth rest _) as [[s1 a1] r1] eqn:Hrest.
           inversion H; subst; clear H.
           destruct (IH _ _ _ Hrest link Hin Hscheme Hsame Hvis) as [He | Hp].
           ++ cbn [enqueued enqueued_add queue_put] in He.
              apply elem_of_union in He as [He | ->%elem_of_singleton]; [done|].
              right. by left.
           ++ right. by right.
        -- eauto.
      * eauto.
    + eauto.
Qed.

(** C4: while an entry of depth [d] is processed, and once the progress
    callback has returned, every link of the page that passes the scheme
    filter and is neither visited nor enqueued is put on the queue at
    depth [d + 1] with that entry's URL as source; nothing else is put
    there, and every page in [pages] was emitted for an entry of depth at
    most [max_depth]. *)
Theorem harvest_one_level_down_and_depth_cap robots_o sitemap_o evs s tr :
  crawl_prefix cfg robots_o sitemap_o evs = Some (s, tr) ->
  pages s = (emitted tr).*2 /\
  (forall e p, (e, p) ∈ emitted tr -> (entry_depth e <= max_depth cfg)%Z) /\
  (forall w o e s' acts,
      workers s !! w = Some (Fetching e) ->
      step cfg s (Fetched w o) = Some (s', acts) ->
      queue s' = queue s ++ puts acts /\
      (forall e', e' ∈ puts acts ->
         entry_depth e' = (entry_depth e + 1)%Z /\
         entry_source e' = Some (entry_url e)) /\
      (forall page link,
         (e, page) ∈ emitted acts ->
         notify cfg page = Ok tt ->
         link ∈ internal_links page ->
         is_allowed_scheme link = Ok true ->
         link ∉ visited s -> link ∉ enqueued s ->
         (link, (entry_depth e + 1)%Z, Some (entry_url e)) ∈ puts acts)).
Proof.
  intros H.
  apply ManagerFacts.crawl_prefix_inv in H as (_ & _ & [_ Hem] & Hp & _).
  split; [exact Hp|]. split; [exact Hem|].
  intros w o e s' acts Hw Hstep. simpl in Hstep. rewrite Hw in Hstep.
  destruct (process_url_tail cfg e o s) as [[s1 a1] wk] eqn:Ht.
  inversion Hstep; subst; clear Hstep.
  pose proof (ManagerFacts.process_url_tail_spec _ _ _ _ _ _ _ Ht) as Hspec.
  split; [|split].
  - clear Ht.
    destruct Hspec as [ex -> | page s2 links hacts wk Hrec Hsame Hexact Hall Hnf];
      simpl; [by rewrite app_nil_r|].
    destruct Hrec as (Hq & _). destruct Hexact as (Hq' & _).
    change (puts (Emit e page :: hacts)) with (puts hacts).
    by rewrite Hq', Hq.
  - clear Ht.
    destruct Hspec as [ex -> | page s2 links hacts wk Hrec Hsame Hexact Hall Hnf].
    { intros e' Hin. by apply elem_of_nil in Hin. }
    change (puts (Emit e page :: hacts)) with (puts hacts).
    intros e' Hin.
    destruct (harvested_puts _ _ _ _ _ _ Hall Hin) as (link & -> & _). done.
  - intros page link Hemit Hnotify Hlink Hscheme Hvis Henq.
    apply process_url_tail_books in Ht
      as [(ex & _ & _ & -> & _) |
          (result & s2 & ch & parsed & hacts & Hf & Hblock & -> & Hrest)].
    { by apply elem_of_nil in Hemit. }
    set (page0 := _build_page result parsed ch) in *.
    assert (Hpage : page = page0 /\
              (hacts = [] \/ exists l s0, Forall (harvested cfg (entry_url e)
                                            (entry_depth e) l s0) hacts)).
    { destruct Hrest as [(-> & _) | (pp & r & _ & _ & Hh & _)].
      - apply list_elem_of_singleton in Hemit. inversion Hemit. auto.
      - destruct (ManagerFacts.harvest_spec _ _ _ _ _ _ _ _ Hh) as (_ & _ & Hall).
        destruct (ManagerFacts.harvested_only_puts _ _ _ _ _ _ Hall) as [_ Hnone].
        change (emitted (Emit e page0 :: hacts)) with ((e, page0) :: emitted hacts)
          in Hemit.
        rewrite Hnone in Hemit. apply list_elem_of_singleton in Hemit.
        inversion Hemit. eauto. }
    destruct Hpage as [-> _].
    change (puts (Emit e page0 :: hacts)) with (puts hacts).
    destruct Hrest as [(_ & _ & [(ex & Hn & _) | [-> _]]) |
                       (pp & r & -> & _ & Hh & _)].
    + rewrite Hnotify in Hn. discriminate.
    + by apply elem_of_nil in Hlink.
    + pose proof (ManagerFacts.fetch_url _ _ _ Hf) as Hurl.
      destruct (digest_and_parse_books _ _ _ _ _ _ Hurl Hblock)
        as (_ & He1 & Hv1 & _).
      destruct (record_page_books page0 s2) as (_ & He2 & Hv2 & _).
      apply digest_and_parse_some, maybe_parse_html_some in Hblock
        as (body & _ & _ & Hparse).
      apply ParserFacts.parse_html_internal_links in Hparse.
      assert (Hlinks : Forall (fun l => exists same,
                         is_same_domain l (base_url cfg) = Ok same)
                         (Parser.internal_links pp)).
      { eapply Forall_impl; [exact Hparse|]. intros l Hl. simpl in Hl.
        by exists true. }
      rewrite (harvest_returns _ _ _ Hlinks _ _ _ _ Hh) in Hh.
      change (internal_links page0) with (Parser.internal_links pp) in Hlink.
      rewrite Forall_forall in Hparse.
      destruct (harvest_complete _ _ _ _ _ _ Hh link Hlink Hscheme
                  (Hparse _ Hlink)) as [He | Hput]; [| |exact Hput].
      * by rewrite Hv2, Hv1.
      * rewrite He2, He1 in He. done.
Qed.

(** X22: a fetch that ends in a timeout or a client error adds one page
    to [pages], with the URL of the entry, the error message and neither
    status nor hash; nothing is enqueued and [broken_links],
    [duplicate_map] and [edges] stay as they are. *)
Theorem failed_fetch_records_an_error_page_only s w e o message seconds :
  workers s !! w = Some (Fetching e) ->
  transport_error o = Some (message, seconds) ->
  let page := error_page (entry_url e) message seconds in
  exists wk,
    step cfg s (Fetched w o)
    = Some (set_workers (<[w := wk]> (workers s)) (pages_append page s),
            [Emit e page]) /\
    (wk = Waiting \/ exists ex, wk = Failed ex /\ notify cfg page = Raise ex).
Proof.
  intros Hw Ho page. simpl. rewrite Hw.
  destruct e as [[url depth] source]. unfold process_url_tail.
  assert (Hfetch : Fetcher.fetch url o
            = Ok (Fetcher.mkFetchResult url None ∅ None seconds None (Some message))).
  { destruct o; simpl in Ho; inversion Ho; subst; reflexivity. }
  rewrite Hfetch. unfold digest_and_parse. simpl.
  change (_build_page _ None None) with page.
  unfold record_page. simpl.
  destruct (notify cfg page) as [[]|ex] eqn:Hn.
  - exists Waiting. split; [reflexivity|by left].
  - exists (Failed ex). split; [reflexivity|]. right. eauto.
Qed.

End WithLibraries.
End CrawlFacts.

(** * More runs on the fixture site *)

Module MoreRuns.
Import Py UrlParse UrlTools Manager CrawlSpec.

Lemma harvest_one_level_down_and_depth_cap_witness :
  match Fixture.crawl_prefix 3 Fixture.not_found [Take 0] with
  | Some (s, tr) =>
      match Fixture.step 3 s (Fetched 0 Fixture.seed_page) with
      | Some (s', acts) =>
          (exists page, emitted acts = [(Fixture.seed_entry, page)] /\
             internal_links page = ["http://example.com/b"]) /\
          ("http://example.com/b", 1%Z, Some "http://example.com/") ∈ puts acts /\
          queue s' = queue s ++ puts acts /\
          pages s = (emitted tr).*2
      | None => False
      end
  | None => False
  end.
Proof.
  destruct (Fixture.crawl_prefix 3 Fixture.not_found [Take 0])
    as [[s tr]|] eqn:H.
  - destruct (Fixture.step 3 s (Fetched 0 Fixture.seed_page))
      as [[s' acts]|] eqn:Hstep.
    + destruct (CrawlFacts.harvest_one_level_down_and_depth_cap _ _ _ _ _ _ H)
        as (Hpages & _ & Hharvest).
      assert (Hw : workers s !! 0 = Some (Fetching Fixture.seed_entry)).
      { vm_compute in H. injection H as <- <-. vm_compute. reflexivity. }
      destruct (Hharvest 0 Fixture.seed_page Fixture.seed_entry s' acts Hw Hstep)
        as (Hq & _ & Hput).
      assert (Hemit : exists page,
                emitted acts = [(Fixture.seed_entry, page)] /\
                internal_links page = ["http://example.com/b"]).
      { vm_compute in H. injection H as <- <-. vm_compute in Hstep.
        injection Hstep as <- <-. eexists. split; vm_compute; reflexivity. }
      split; [exact Hemit|]. split; [|split; [exact Hq|exact Hpages]].
      destruct Hemit as (page & Hem & Hlinks).
      apply (Hput page "http://example.com/b").
      * rewrite Hem. by left.
      * reflexivity.
      * rewrite Hlinks. by left.
      * vm_compute. reflexivity.
      * vm_compute in H. injection H as <- <-.
        apply (bool_decide_eq_false_1 _). vm_compute. reflexivity.
      * vm_compute in H. injection H as <- <-.
        apply (bool_decide_eq_false_1 _). vm_compute. reflexivity.
    + vm_compute in H. injection H as <- <-. vm_compute in Hstep.
      discriminate Hstep.
  - vm_compute in H. discriminate H.
Defined.

Lemma broken_links_are_the_pages_with_status_400_up_witness :
  match Fixture.crawl_prefix 3 Fixture.not_found Fixture.schedule_with_gone with
  | Some (s, tr) =>
      (map status (pages s) = [Some 200%Z; Some 404%Z] /\
       map url (broken_links s) = ["http://example.com/b"]) /\
      broken_links s = filter (fun p => is_broken p = true) (pages s) /\
      forall p, p ∈ broken_links s <->
        p ∈ pages s /\ exists z, status p = Some z /\ (400 <= z)%Z
  | None => False
  end.
Proof.
  destruct (Fixture.crawl_prefix 3 Fixture.not_found Fixture.schedule_with_gone)
    as [[s tr]|] eqn:H.
  - split.
    + vm_compute in H. injection H as <- <-. split; vm_compute; reflexivity.
    + exact (CrawlFacts.broken_links_are_the_pages_with_status_400_up _ _ _ _ _ _ H).
  - vm_compute in H. discriminate H.
Defined.

Lemma one_page_and_one_fetch_per_url_witness :
  match Fixture.crawl_prefix 3 Fixture.not_found Fixture.schedule with
  | Some (s, tr) =>
      NoDup (map url (pages s)) /\
      (forall p, p ∈ pages s -> url p ∈ visited s) /\
      (forall w e, workers s !! w = Some (Fetching e) ->
         entry_url e ∈ visited s /\ entry_url e ∉ map url (pages s)) /\
      (forall w w' e e',
         workers s !! w = Some (Fetching e) ->
         workers s !! w' = Some (Fetching e') ->
         entry_url e = entry_url e' -> w = w')
  | None => False
  end.
Proof.
  destruct (Fixture.crawl_prefix 3 Fixture.not_found Fixture.schedule)
    as [[s tr]|] eqn:H.
  - exact (CrawlFacts.one_page_and_one_fetch_per_url _ _ _ _ _ _ H).
  - vm_compute in H. discriminate H.
Defined.

Lemma enqueued_is_visited_or_queued_witness :
  match Fixture.crawl_prefix 3 Fixture.not_found Fixture.schedule with
  | Some (s, tr) =>
      NoDup (map entry_url (queue s)) /\
      (forall u, u ∈ map entry_url (queue s) -> u ∉ visited s) /\
      (forall u, u ∈ enqueued s <-> u ∈ visited s \/ u ∈ map entry_url (queue s)) /\
      (queue s = [] -> visited s = enqueued s)
  | None => False
  end.
Proof.
  destruct (Fixture.crawl_prefix 3 Fixture.not_found Fixture.schedule)
    as [[s tr]|] eqn:H.
  - exact (CrawlFacts.enqueued_is_visited_or_queued _ _ _ _ _ _ H).
  - vm_compute in H. discriminate H.
Defined.

Lemma dequeued_entry_is_never_visited_before_witness :
  match Fixture.crawl_prefix 3 Fixture.not_found [] with
  | Some (s, tr) =>
      match Fixture.step 3 s (Take 0) with
      | Some (s', acts) =>
          exists e, queue s = e :: queue s' /\ acts = [Process e] /\
            (entry_url e ∉ visited s) /\ visited s' = visited s ∪ {[entry_url e]}
      | None => False
      end
  | None => False
  end.
Proof.
  destruct (Fixture.crawl_prefix 3 Fixture.not_found []) as [[s tr]|] eqn:H.
  - destruct (Fixture.step 3 s (Take 0)) as [[s' acts]|] eqn:Hstep.
    + exact (CrawlFacts.dequeued_entry_is_never_visited_before
               _ _ _ _ _ _ _ _ _ H Hstep).
    + vm_compute in H. injection H as <- <-. vm_compute in Hstep.
      discriminate Hstep.
  - vm_compute in H. discriminate H.
Defined.

Lemma frontier_entries_have_bounded_depth_and_a_recorded_source_witness :
  match Fixture.crawl_prefix 3 Fixture.not_found Fixture.schedule with
  | Some (s, tr) =>
      forall e, e ∈ puts tr ->
        (0 <= entry_depth e <= Z.max 0 (3 + 1))%Z /\
        (entry_source e = None <-> entry_depth e = 0%Z) /\
        (forall src, entry_source e = Some src ->
           src ∈ map url (pages s) /\ src <> entry_url e)
  | None => False
  end.
Proof.
  destruct (Fixture.crawl_prefix 3 Fixture.not_found Fixture.schedule)
    as [[s tr]|] eqn:H.
  - exact (CrawlFacts.frontier_entries_have_bounded_depth_and_a_recorded_source
             _ _ _ _ _ _ H).
  - vm_compute in H. discriminate H.
Defined.

Lemma crawl_stays_on_the_base_host_witness :
  match Fixture.crawl_prefix 3 Fixture.not_found Fixture.schedule with
  | Some (s, tr) =>
      (forall e, e ∈ puts tr ->
         entry_url e = "http://example.com/" \/
         @is_same_domain Fixture.runtime (entry_url e) "http://example.com/"
         = Ok true) /\
      (forall p, p ∈ pages s ->
         url p = "http://example.com/" \/
         @is_same_domain Fixture.runtime (url p) "http://example.com/" = Ok true)
  | None => False
  end.
Proof.
  destruct (Fixture.crawl_prefix 3 Fixture.not_found Fixture.schedule)
    as [[s tr]|] eqn:H.
  - exact (CrawlFacts.crawl_stays_on_the_base_host _ _ _ _ _ _ H).
  - vm_compute in H. discriminate H.
Defined.

Lemma edges_enter_each_url_once_witness :
  match Fixture.crawl_prefix 3 Fixture.not_found Fixture.schedule with
  | Some (s, tr) =>
      NoDup (edges s).*2 /\
      forall src t, (src, t) ∈ edges s ->
        t ∈ visited s /\ src ∈ map url (pages s) /\ src <> t /\ src <> "" /\
        t <> "http://example.com/"
  | None => False
  end.
Proof.
  destruct (Fixture.crawl_prefix 3 Fixture.not_found Fixture.schedule)
    as [[s tr]|] eqn:H.
  - exact (CrawlFacts.edges_enter_each_url_once _ _ _ _ _ _ H).
  - vm_compute in H. discriminate H.
Defined.

(** The run above has recorded the one edge from the seed page to [/b];
    the link back from [/b] to the seed page is not an edge. *)
Example back_link_is_no_edge :
  option_map (fun st => edges (fst st))
    (Fixture.crawl_prefix 3 Fixture.not_found Fixture.schedule)
  = Some [("http://example.com/", "http://example.com/b")].
Proof. vm_compute. reflexivity. Qed.

Lemma result_duplicate_map_is_pages_by_hash_witness :
  match Fixture.crawl 3 Fixture.not_found Fixture.schedule_with_copy with
  | Some r =>
      r_duplicate_map r = Duplicates.pages_by_hash (r_pages r) /\
      Duplicates.summarize_duplicates (r_duplicate_map r) = r_duplicate_map r
  | None => False
  end.
Proof.
  destruct (Fixture.crawl 3 Fixture.not_found Fixture.schedule_with_copy)
    as [r|] eqn:H.
  - exact (CrawlFacts.result_duplicate_map_is_pages_by_hash _ _ _ _ _ H).
  - vm_compute in H. discriminate H.
Defined.

Lemma robots_deny_only_through_parsed_rules_witness :
  match Fixture.crawl_prefix_with_robots [] with
  | Some (s, tr) =>
      robots_denies (RL := Fixture.strict_robots_lib) s "http://example.com/b" = true /\
      exists parse body rules,
        @Robots.Robots Fixture.strict_robots_lib = Some parse /\
        body_of Fixture.robots_file = Some body /\ body <> "" /\
        parse (@decode_utf8_ignore Fixture.platform body) = Ok rules /\
        rules "http://example.com/b" "sfrog" = Ok false
  | None => False
  end.
Proof.
  destruct (Fixture.crawl_prefix_with_robots []) as [[s tr]|] eqn:H.
  - assert (Hdeny : robots_denies (RL := Fixture.strict_robots_lib) s
                      "http://example.com/b" = true).
    { vm_compute in H. injection H as <- <-. vm_compute. reflexivity. }
    split; [exact Hdeny|].
    exact (CrawlFacts.robots_deny_only_through_parsed_rules _ _ _ _ _ _ _ H Hdeny).
  - vm_compute in H. discriminate H.
Defined.

Lemma crawl_without_workers_never_returns_witness :
  threads Fixture.cfg_without_workers = 0 /\
  @crawl Fixture.runtime Fixture.resolver Fixture.xmltodict Fixture.selectolax
    Fixture.robots_lib Fixture.platform Fixture.cfg_without_workers
    Fixture.not_found Fixture.not_found [Take 0] = None.
Proof.
  split; [reflexivity|].
  apply CrawlFacts.crawl_without_workers_never_returns. reflexivity.
Defined.

Lemma worker_ends_only_on_a_crash_or_in_the_callback_witness :
  match Fixture.step 3 Fixture.fetching_seed (Fetched 0 (Fetcher.Crashed OtherError)) with
  | Some (s', acts) =>
      workers Fixture.fetching_seed !! 0 = Some (Fetching Fixture.seed_entry) /\
      workers s' !! 0 = Some (Failed OtherError) /\
      (Fetcher.Crashed OtherError = Fetcher.Crashed OtherError \/
       exists callback page,
         _progress_callback (Fixture.cfg 3) = Some callback /\
         callback page = Raise OtherError /\ acts = [Emit Fixture.seed_entry page])
  | None => False
  end.
Proof.
  destruct (Fixture.step 3 Fixture.fetching_seed (Fetched 0 (Fetcher.Crashed OtherError)))
    as [[s' acts]|] eqn:H.
  - assert (Hw : workers Fixture.fetching_seed !! 0 = Some (Fetching Fixture.seed_entry))
      by (vm_compute; reflexivity).
    assert (Hfail : workers s' !! 0 = Some (Failed OtherError)).
    { vm_compute in H. injection H as <- <-. vm_compute. reflexivity. }
    split; [exact Hw|]. split; [exact Hfail|].
    exact (CrawlFacts.worker_ends_only_on_a_crash_or_in_the_callback
             _ _ _ _ _ _ _ _ Hw H Hfail).
  - vm_compute in H. discriminate H.
Defined.

Lemma failed_fetch_records_an_error_page_only_witness :
  let page := error_page "http://example.com/" "timeout" PrimFloat.zero in
  exists wk,
    Fixture.step 3 Fixture.fetching_seed (Fetched 0 (Fetcher.TimedOut PrimFloat.zero))
    = Some (set_workers (<[0 := wk]> (workers Fixture.fetching_seed))
              (pages_append page Fixture.fetching_seed),
            [Emit Fixture.seed_entry page]) /\
    (wk = Waiting \/
     exists ex, wk = Failed ex /\ notify (Fixture.cfg 3) page = Raise ex).
Proof.
  apply (@CrawlFacts.failed_fetch_records_an_error_page_only
           Fixture.runtime Fixture.resolver Fixture.selectolax
           Fixture.robots_lib Fixture.platform (Fixture.cfg 3)
           Fixture.fetching_seed 0 Fixture.seed_entry (Fetcher.TimedOut PrimFloat.zero)
           "timeout" PrimFloat.zero).
  - vm_compute. reflexivity.
  - reflexivity.
Defined.

End MoreRuns.

(** * Properties of the exporter, the duplicate summary and the SEO checks *)

Module ExportFacts.
Import Py Manager CsvExporter.

Lemma fromkeys_snoc l k :
  fromkeys_list (l ++ [k])
  = if bool_decide (k ∈ fromkeys_list l)
    then fromkeys_list l else fromkeys_list l ++ [k].
Proof. unfold fromkeys_list. by rewrite foldl_app. Qed.

Lemma fromkeys_elem l x : x ∈ fromkeys_list l <-> x ∈ l.
Proof.
  induction l as [|k l IH] using rev_ind; [done|].
  rewrite fromkeys_snoc, elem_of_app, list_elem_of_singleton, <- IH.
  destruct (bool_decide_reflect (k ∈ fromkeys_list l)) as [Hin | Hin].
  - split; [by left|]. intros [H | ->]; done.
  - by rewrite elem_of_app, list_elem_of_singleton.
Qed.

Lemma fromkeys_NoDup l : NoDup (fromkeys_list l).
Proof.
  induction l as [|k l IH] using rev_ind; [constructor|].
  rewrite fromkeys_snoc.
  destruct (bool_decide_reflect (k ∈ fromkeys_list l)) as [Hin | Hin]; [done|].
  apply NoDup_app. split; [exact IH|]. split; [|apply NoDup_singleton].
  intros x Hx ->%list_elem_of_singleton. done.
Qed.

Lemma first_occurrences_elem l x : x ∈ first_occurrences l <-> x ∈ l.
Proof.
  induction l as [|k l IH]; simpl; [done|].
  rewrite !elem_of_cons, list_elem_of_filter, IH.
  destruct (decide (x = k)); tauto.
Qed.

Lemma first_occurrences_snoc l k :
  first_occurrences (l ++ [k])
  = if bool_decide (k ∈ l)
    then first_occurrences l else first_occurrences l ++ [k].
Proof.
  induction l as [|x l IH]; [done|].
  change (first_occurrences ((x :: l) ++ [k]))
    with (x :: filter (fun y => y <> x) (first_occurrences (l ++ [k]))).
  change (first_occurrences (x :: l))
    with (x :: filter (fun y => y <> x) (first_occurrences l)).
  rewrite IH. destruct (decide (k = x)) as [-> | Hne].
  - rewrite (bool_decide_eq_true_2 (x ∈ x :: l)) by (by left).
    destruct (bool_decide (x ∈ l)); [done|].
    rewrite filter_app, filter_cons, filter_nil.
    destruct (decide (x <> x)); [done|]. by rewrite app_nil_r.
  - destruct (bool_decide_reflect (k ∈ l)) as [Hin | Hin].
    + rewrite (bool_decide_eq_true_2 (k ∈ x :: l)) by (by right). done.
    + rewrite (bool_decide_eq_false_2 (k ∈ x :: l))
        by (intros [? | ?]%elem_of_cons; done).
      rewrite filter_app, filter_cons, filter_nil.
      destruct (decide (k <> x)); done.
Qed.

Lemma fromkeys_first_occurrences l : fromkeys_list l = first_occurrences l.
Proof.
  induction l as [|k l IH] using rev_ind; [done|].
  rewrite fromkeys_snoc, first_occurrences_snoc, IH.
  destruct (bool_decide_reflect (k ∈ first_occurrences l)) as [Hin | Hin];
    rewrite first_occurrences_elem in Hin.
  - by rewrite bool_decide_eq_true_2.
  - by rewrite bool_decide_eq_false_2.
Qed.

Lemma first_occurrences_NoDup_id l : NoDup l -> first_occurrences l = l.
Proof.
  induction 1 as [|x l Hx Hnd IH]; simpl; [done|]. rewrite IH. f_equal.
  clear IH Hnd. induction l as [|y l IH]; [done|].
  rewrite filter_cons. rewrite not_elem_of_cons in Hx. destruct Hx as [Hne Hx].
  destruct (decide (y <> x)) as [_ | Hn]; [|exfalso; apply Hn; congruence].
  by rewrite IH.
Qed.

(** X23: the [internal_links] and [external_links] of an exported record
    list every link of the page once, at the place of its first
    occurrence; a list without repetitions is exported as it is. *)
Theorem page_record_lists_each_link_once page :
  exists internal external,
    Sitemap.assoc "internal_links" (_page_to_record page) = Some (PList internal) /\
    Sitemap.assoc "external_links" (_page_to_record page) = Some (PList external) /\
    internal = first_occurrences (internal_links page) /\
    external = first_occurrences (external_links page) /\
    NoDup internal /\ NoDup external /\
    (forall l, l ∈ internal <-> l ∈ internal_links page) /\
    (forall l, l ∈ external <-> l ∈ external_links page) /\
    (NoDup (internal_links page) -> internal = internal_links page) /\
    (NoDup (external_links page) -> external = external_links page).
Proof.
  exists (fromkeys_list (internal_links page)),
         (fromkeys_list (external_links page)).
  split; [reflexivity|]. split; [reflexivity|].
  split; [apply fromkeys_first_occurrences|].
  split; [apply fromkeys_first_occurrences|].
  split; [apply fromkeys_NoDup|]. split; [apply fromkeys_NoDup|].
  split; [intros l; apply fromkeys_elem|].
  split; [intros l; apply fromkeys_elem|].
  rewrite !fromkeys_first_occurrences.
  split; apply first_occurrences_NoDup_id.
Qed.

(** The keys of a record are the export columns, in their order, so that
    every column of the export has a value and no key is left out; the
    headings of a page are not exported. *)
Lemma page_record_fills_the_export_columns page :
  map fst (_page_to_record page) = EXPORT_COLUMNS /\
  NoDup EXPORT_COLUMNS /\
  (forall column, column ∈ EXPORT_COLUMNS ->
     exists value, Sitemap.assoc column (_page_to_record page) = Some value) /\
  "headings" ∉ EXPORT_COLUMNS.
Proof.
  split; [reflexivity|].
  split; [apply (bool_decide_unpack _); by vm_compute|]. split.
  - intros column Hin. unfold EXPORT_COLUMNS in Hin.
    repeat (apply elem_of_cons in Hin as [-> | Hin]; [eexists; reflexivity|]).
    by apply elem_of_nil in Hin.
  - apply (bool_decide_unpack _). by vm_compute.
Qed.

End ExportFacts.

Module GroupingFacts.
Import Py Manager CrawlSpec Grouping.

Lemma urls_with_snoc field key pages page :
  urls_with field key (pages ++ [page])
  = urls_with field key pages
    ++ (if decide (field page = Some key) then [url page] else []).
Proof.
  unfold urls_with. rewrite filter_app, map_app, filter_cons, filter_nil.
  by destruct (decide (field page = Some key)).
Qed.

Lemma some_urls_default urls : default [] (some_urls urls) = urls.
Proof. by destruct urls. Qed.

Lemma some_urls_snoc urls u : some_urls (urls ++ [u]) = Some (urls ++ [u]).
Proof. by destruct urls. Qed.

Lemma some_urls_spec urls l :
  some_urls urls = Some l <-> l = urls /\ 1 <= length urls.
Proof.
  destruct urls as [|u urls]; simpl.
  - split; [done|]. intros [_ H]. lia.
  - split; [intros [= <-]; split; [done|lia]|]. by intros [-> _].
Qed.

(** The dictionary that the loop of [pages_by_hash] builds. *)
Lemma hash_buckets_lookup pages h :
  hash_buckets pages !! h
  = if truthy h then some_urls (urls_with content_hash h pages) else None.
Proof.
  induction pages as [|page pages IH] using rev_ind.
  - unfold hash_buckets. simpl. rewrite lookup_empty. by destruct (truthy h).
  - rewrite CrawlFacts.hash_buckets_snoc, urls_with_snoc. unfold bucket_step.
    destruct (content_hash page) as [h'|] eqn:Hh.
    + destruct (decide (Some h' = Some h)) as [[= ->] | Hne].
      * destruct (truthy h) eqn:Ht.
        -- rewrite lookup_insert_eq, IH, some_urls_default, some_urls_snoc. done.
        -- exact IH.
      * rewrite app_nil_r. destruct (truthy h'); [|exact IH].
        rewrite lookup_insert_ne by congruence. exact IH.
    + destruct (decide (None = Some h)); [done|]. by rewrite app_nil_r.
Qed.

(** X24: [pages_by_hash] maps a hash to the URLs of all the pages with
    that hash, in the order of the pages, for exactly the non-empty
    hashes that two pages or more share. *)
Theorem pages_by_hash_groups_the_urls_by_hash pages h urls :
  Duplicates.pages_by_hash pages !! h = Some urls <->
  h <> "" /\ urls = urls_with content_hash h pages /\ 2 <= length urls.
Proof.
  rewrite CrawlFacts.pages_by_hash_buckets.
  rewrite DuplicatesFacts.summarize_duplicates_lookup, hash_buckets_lookup.
  destruct (truthy h) eqn:Ht.
  - rewrite some_urls_spec. split.
    + intros [[-> _] Hlen]. split; [by destruct h|]. split; [done|lia].
    + intros (_ & -> & Hlen). split; [split; [done|lia]|lia].
  - split; [by intros [? _]|]. intros (Hne & _). by destruct h.
Qed.

End GroupingFacts.

Module SeoFacts.
Import Py Manager Grouping SeoChecks.

Lemma scan_page_missing_titles st page :
  seen_missing_titles (scan_page st page)
  = seen_missing_titles st
    ++ (if truthy_str (title page) then [] else [url page]).
Proof.
  unfold scan_page, scan_canonical, scan_h1, scan_meta, scan_title, truthy_str.
  destruct (title page) as [t|]; [destruct (truthy t)|];
    (destruct (meta_description page) as [d|]; [destruct (truthy d)|]);
    destruct (1 <? h1_count page)%nat;
    (destruct (canonical page) as [c|]; [destruct (truthy c)|]);
    simpl; by rewrite ?app_nil_r.
Qed.

Lemma scan_page_missing_meta st page :
  seen_missing_meta (scan_page st page)
  = seen_missing_meta st
    ++ (if truthy_str (meta_description page) then [] else [url page]).
Proof.
  unfold scan_page, scan_canonical, scan_h1, scan_meta, scan_title, truthy_str.
  destruct (title page) as [t|]; [destruct (truthy t)|];
    (destruct (meta_description page) as [d|]; [destruct (truthy d)|]);
    destruct (1 <? h1_count page)%nat;
    (destruct (canonical page) as [c|]; [destruct (truthy c)|]);
    simpl; by rewrite ?app_nil_r.
Qed.

Lemma scan_page_multiple_h1 st page :
  seen_multiple_h1 (scan_page st page)
  = seen_multiple_h1 st ++ (if (1 <? h1_count page)%nat then [url page] else []).
Proof.
  unfold scan_page, scan_canonical, scan_h1, scan_meta, scan_title.
  destruct (title page) as [t|]; [destruct (truthy t)|];
    (destruct (meta_description page) as [d|]; [destruct (truthy d)|]);
    destruct (1 <? h1_count page)%nat;
    (destruct (canonical page) as [c|]; [destruct (truthy c)|]);
    simpl; by rewrite ?app_nil_r.
Qed.

Lemma scan_page_title_counter st page :
  title_counter (scan_page st page)
  = match title page with
    | Some t => if truthy t then count_up (title_counter st) t else title_counter st
    | None => title_counter st
    end.
Proof.
  unfold scan_page, scan_canonical, scan_h1, scan_meta, scan_title.
  destruct (title page) as [t|]; [destruct (truthy t)|];
    (destruct (meta_description page) as [d|]; [destruct (truthy d)|]);
    destruct (1 <? h1_count page)%nat;
    (destruct (canonical page) as [c|]; [destruct (truthy c)|]);
    reflexivity.
Qed.

Lemma scan_page_meta_counter st page :
  meta_counter (scan_page st page)
  = match meta_description page with
    | Some d => if truthy d then count_up (meta_counter st) d else meta_counter st
    | None => meta_counter st
    end.
Proof.
  unfold scan_page, scan_canonical, scan_h1, scan_meta, scan_title.
  destruct (title page) as [t|]; [destruct (truthy t)|];
    (destruct (meta_description page) as [d|]; [destruct (truthy d)|]);
    destruct (1 <? h1_count page)%nat;
    (destruct (canonical page) as [c|]; [destruct (truthy c)|]);
    reflexivity.
Qed.

Lemma scan_page_canonicals st page :
  canonical_seen (scan_page st page)
  = (match canonical page with
     | Some c => if truthy c then canonical_seen st ∪ {[c]} else canonical_seen st
     | None => canonical_seen st
     end) /\
  seen_invalid_canonicals (scan_page st page)
  = seen_invalid_canonicals st
    ++ match canonical page with
       | Some c =>
           if truthy c && bool_decide (c ∈ canonical_seen st)
              && negb (String.eqb c (url page))
           then [url page] else []
       | None => []
       end.
Proof.
  unfold scan_page, scan_canonical, scan_h1, scan_meta, scan_title.
  destruct (title page) as [t|]; [destruct (truthy t)|];
    (destruct (meta_description page) as [d|]; [destruct (truthy d)|]);
    destruct (1 <? h1_count page)%nat;
    (destruct (canonical page) as [c|]; [destruct (truthy c)|]);
    simpl; rewrite ?app_nil_r; try done;
    by destruct (bool_decide _ && negb _); rewrite ?app_nil_r.
Qed.

Lemma scan_snoc pages page :
  foldl scan_page start (pages ++ [page])
  = scan_page (foldl scan_page start pages) page.
Proof. by rewrite foldl_app. Qed.

(** The counter of a field after the loop. *)
Lemma counter_lookup (field : PageData -> option string)
    (counter : Scan -> gmap string nat) :
  (forall st page,
     counter (scan_page st page)
     = match field page with
       | Some k => if truthy k then count_up (counter st) k else counter st
       | None => counter st
       end) ->
  counter start = ∅ ->
  forall pages key,
    counter (foldl scan_page start pages) !! key
    = if truthy key
      then some_count (length (urls_with field key pages)) else None.
Proof.
  intros Hstep Hstart pages key.
  induction pages as [|page pages IH] using rev_ind.
  - simpl. rewrite Hstart, lookup_empty. by destruct (truthy key).
  - rewrite scan_snoc, Hstep, GroupingFacts.urls_with_snoc, length_app.
    destruct (field page) as [k|] eqn:Hf.
    + destruct (decide (Some k = Some key)) as [[= ->] | Hne].
      * destruct (truthy key) eqn:Ht; [|exact IH].
        unfold count_up. rewrite lookup_insert_eq, IH. simpl.
        rewrite Nat.add_1_r.
        by destruct (length (urls_with field key pages)).
      * simpl. rewrite Nat.add_0_r. destruct (truthy k); [|exact IH].
        unfold count_up. rewrite lookup_insert_ne by congruence. exact IH.
    + destruct (decide (None = Some key)); [done|].
      simpl. by rewrite Nat.add_0_r.
Qed.

Lemma duplicates_of_lookup field pages counter key urls :
  (forall k, counter !! k
     = if truthy k then some_count (length (urls_with field k pages)) else None) ->
  duplicates_of field pages counter !! key = Some urls <->
  key <> "" /\ urls = urls_with field key pages /\ 2 <= length urls.
Proof.
  intros Hcounter. unfold duplicates_of. rewrite map_lookup_imap, Hcounter.
  fold (urls_with field key pages).
  destruct (truthy key) eqn:Ht; simpl.
  - destruct (length (urls_with field key pages)) as [|[|n]] eqn:Hlen; simpl.
    + split; [done|]. intros (_ & -> & H). lia.
    + split; [done|]. intros (_ & -> & H). lia.
    + split.
      * intros [= <-]. split; [by destruct key|]. split; [done|lia].
      * by intros (_ & -> & _).
  - split; [done|]. intros (Hne & _). by destruct key.
Qed.

(** X25: [missing_titles], [missing_meta] and [multiple_h1] list, in the
    order of the pages, the URLs of the pages without a title (or with an
    empty one), without a meta description, and with more than one
    [h1]. *)
Theorem seo_lists_follow_the_pages pages :
  missing_titles (analyze_seo pages)
  = map url (filter (fun page => truthy_str (title page) = false) pages) /\
  missing_meta (analyze_seo pages)
  = map url (filter (fun page => truthy_str (meta_description page) = false)
               pages) /\
  multiple_h1 (analyze_seo pages)
  = map url (filter (fun page => 1 < h1_count page) pages).
Proof.
  unfold analyze_seo. simpl.
  induction pages as [|page pages (IH1 & IH2 & IH3)] using rev_ind; [done|].
  rewrite scan_snoc, scan_page_missing_titles, scan_page_missing_meta,
    scan_page_multiple_h1, IH1, IH2, IH3.
  rewrite !filter_app, !map_app, !filter_cons, !filter_nil.
  split; [|split]; f_equal.
  - destruct (truthy_str (title page)); by destruct (decide _).
  - destruct (truthy_str (meta_description page)); by destruct (decide _).
  - destruct (Nat.ltb_spec 1 (h1_count page)); destruct (decide _); done || lia.
Qed.

(** X26: [duplicate_titles] maps a title to the URLs of all the pages
    with that title, in the order of the pages, for exactly the non-empty
    titles that two pages or more carry; [duplicate_meta] does the same
    with the meta descriptions. *)
Theorem duplicate_titles_and_meta_group_the_pages pages key urls :
  (duplicate_titles (analyze_seo pages) !! key = Some urls <->
   key <> "" /\ urls = urls_with title key pages /\ 2 <= length urls) /\
  (duplicate_meta (analyze_seo pages) !! key = Some urls <->
   key <> "" /\ urls = urls_with meta_description key pages /\
   2 <= length urls).
Proof.
  unfold analyze_seo. simpl. split; apply duplicates_of_lookup; intros k.
  - apply (counter_lookup title title_counter); [|done].
    apply scan_page_title_counter.
  - apply (counter_lookup meta_description meta_counter); [|done].
    apply scan_page_meta_counter.
Qed.

Lemma canonical_seen_spec pages c :
  c ∈ canonical_seen (foldl scan_page start pages) <->
  c <> "" /\ exists other, other ∈ pages /\ canonical other = Some c.
Proof.
  induction pages as [|page pages IH] using rev_ind.
  - simpl. split; [set_solver|]. intros (_ & other & Hin & _).
    by apply elem_of_nil in Hin.
  - rewrite scan_snoc. destruct (scan_page_canonicals
      (foldl scan_page start pages) page) as [-> _].
    assert (Hold : c ∈ canonical_seen (foldl scan_page start pages) ->
              c <> "" /\ exists other, other ∈ pages ++ [page] /\
                          canonical other = Some c).
    { rewrite IH. intros (Hne & other & Hin & Hc). split; [done|].
      exists other. split; [|done]. apply elem_of_app. by left. }
    assert (Hback : forall other, other ∈ pages ++ [page] ->
              canonical other = Some c -> c <> "" ->
              canonical page = Some c \/
              c ∈ canonical_seen (foldl scan_page start pages)).
    { intros other [Hin | ->%list_elem_of_singleton]%elem_of_app Hc Hne;
        [|by left]. right. rewrite IH. eauto. }
    destruct (canonical page) as [c'|] eqn:Hcan.
    + destruct (truthy c') eqn:Ht.
      * rewrite elem_of_union, elem_of_singleton. split.
        -- intros [Hin | ->]; [by apply Hold|]. split; [by destruct c'|].
           exists page. split; [|done]. apply elem_of_app. right. by left.
        -- intros (Hne & other & Hin & Hc).
           destruct (Hback _ Hin Hc Hne) as [[= ->] | H]; [by right|by left].
      * split; [exact Hold|]. intros (Hne & other & Hin & Hc).
        destruct (Hback _ Hin Hc Hne) as [[= ->] | H]; [|done].
        by destruct c.
    + split; [exact Hold|]. intros (Hne & other & Hin & Hc).
      by destruct (Hback _ Hin Hc Hne).
Qed.

(** X27: a URL is among the [invalid_canonicals] exactly when one of its
    pages names a non-empty canonical URL other than its own that a page
    earlier in the list has named as well; the first page to name a
    canonical, and a page that names itself, are never reported. *)
Theorem invalid_canonicals_repeat_an_earlier_canonical pages u :
  u ∈ invalid_canonicals (analyze_seo pages) <->
  exists earlier page later c,
    pages = earlier ++ page :: later /\ url page = u /\
    canonical page = Some c /\ c <> "" /\ c <> u /\
    exists other, other ∈ earlier /\ canonical other = Some c.
Proof.
  unfold analyze_seo. simpl.
  induction pages as [|page pages IH] using rev_ind.
  - simpl. split; [by intros ?%elem_of_nil|].
    intros (earlier & page & later & c & H & _). by destruct earlier.
  - rewrite scan_snoc. destruct (scan_page_canonicals
      (foldl scan_page start pages) page) as [_ ->].
    rewrite elem_of_app, IH. split.
    + intros [(earlier & p & later & c & -> & Hrest) | Hnew].
      * exists earlier, p, (later ++ [page]), c.
        split; [by rewrite <- app_assoc|exact Hrest].
      * destruct (canonical page) as [c|] eqn:Hcan;
          [|by apply elem_of_nil in Hnew].
        destruct (truthy c) eqn:Ht; simpl in Hnew;
          [|by apply elem_of_nil in Hnew].
        destruct (bool_decide_reflect
                    (c ∈ canonical_seen (foldl scan_page start pages)))
          as [Hseen | Hseen]; simpl in Hnew; [|by apply elem_of_nil in Hnew].
        destruct (String.eqb_spec c (url page)) as [Heq | Hne]; simpl in Hnew;
          [by apply elem_of_nil in Hnew|].
        apply list_elem_of_singleton in Hnew. subst u.
        apply canonical_seen_spec in Hseen as (Hne' & other & Hin & Hc).
        exists pages, page, [], c. repeat split; try done. eauto.
    + intros (earlier & p & later & c & Heq & Hu & Hc & Hne & Hdiff & other &
              Hin & Hoc).
      destruct later as [|q later _] using rev_ind.
      * apply app_inj_tail in Heq as [-> ->]. right. rewrite Hc.
        assert (Ht : truthy c = true) by (by destruct c).
        rewrite Ht. simpl.
        rewrite bool_decide_eq_true_2
          by (apply canonical_seen_spec; eauto).
        rewrite Hu. apply String.eqb_neq in Hdiff. rewrite Hdiff. simpl.
        by left.
      * rewrite app_comm_cons, app_assoc in Heq.
        apply app_inj_tail in Heq as [-> ->]. left.
        exists earlier, p, later, c. repeat split; try done. eauto.
Qed.

End SeoFacts.

(** * Properties of the configuration *)

Module ConfigFacts.
Import Py Config.

Lemma default_keys :
  dom DEFAULT_CONFIG
  = {["max_depth"; "threads"; "user_agent"; "export"; "timeout"]}.
Proof.
  unfold DEFAULT_CONFIG. rewrite dom_list_to_map_L. simpl.
  apply set_eq. intros k. set_solver.
Qed.

Section WithLibraries.
Context {BI : Builtins} {FS : Files}.

(** The mapping read from the file, empty without a file. *)
Lemma merged_lookup config_file overrides data path :
  merged config_file overrides = Done (data, path) ->
  exists file_data,
    (path = None /\ file_data = ∅ \/
     exists file, config_file = Some file /\ file <> "" /\ path = Some file /\
       load_config_file file = Done file_data) /\
    forall key,
      data !! key = decisive file_data (default ∅ overrides) key.
Proof.
  unfold merged.
  assert (Hover : forall base file_data : gmap string value,
            (forall key, base !! key
               = match file_data !! key with
                 | Some v => Some v
                 | None => DEFAULT_CONFIG !! key
                 end) ->
            forall key,
              match overrides with
              | Some given =>
                  if negb (bool_decide (given = ∅))
                  then update base
                         (filter (fun kv => is_not_none (snd kv) = true) given)
                  else base
              | None => base
              end !! key
              = decisive file_data (default ∅ overrides) key).
  { intros base file_data Hbase key. unfold decisive.
    destruct overrides as [given|]; simpl;
      [|rewrite lookup_empty; apply Hbase].
    destruct (bool_decide_reflect (given = ∅)) as [-> | Hne]; simpl;
      [rewrite lookup_empty; apply Hbase|].
    unfold update. rewrite lookup_union.
    destruct (given !! key) as [v|] eqn:Hg.
    - destruct (is_not_none v) eqn:Hv.
      + rewrite (proj2 (map_lookup_filter_Some _ given key v))
          by (split; [done|exact Hv]).
        rewrite Hbase. destruct v; try discriminate;
          by destruct (match file_data !! key with
                       | Some v => Some v
                       | None => DEFAULT_CONFIG !! key
                       end).
      + rewrite (proj2 (map_lookup_filter_None _ given key))
          by (right; intros v' Hv'; rewrite Hg in Hv'; inversion Hv'; subst;
              simpl; congruence).
        rewrite Hbase. destruct v; try discriminate.
        by destruct (match file_data !! key with
                     | Some v => Some v
                     | None => DEFAULT_CONFIG !! key
                     end).
    - rewrite (proj2 (map_lookup_filter_None _ given key)) by (by left).
      rewrite Hbase.
      by destruct (match file_data !! key with
                   | Some v => Some v
                   | None => DEFAULT_CONFIG !! key
                   end). }
  assert (Hnone : forall key, DEFAULT_CONFIG !! key
            = match (∅ : gmap string value) !! key with
              | Some v => Some v
              | None => DEFAULT_CONFIG !! key
              end).
  { intros key. by rewrite lookup_empty. }
  destruct config_file as [file|].
  - destruct (truthy file) eqn:Ht.
    + destruct (load_config_file file) as [file_data|e] eqn:Hload;
        [|discriminate].
      intros [= <- <-]. exists file_data. split.
      * right. exists file. repeat split; try done. by destruct file.
      * apply Hover. intros key. unfold update. rewrite lookup_union.
        destruct (file_data !! key); by destruct (DEFAULT_CONFIG !! key).
    + intros [= <- <-]. exists ∅. split; [by left|]. by apply Hover.
  - intros [= <- <-]. exists ∅. split; [by left|]. by apply Hover.
Qed.

Lemma get_decisive data file_data overrides key :
  (forall k, data !! k = decisive file_data overrides k) ->
  key ∈ dom DEFAULT_CONFIG ->
  decisive file_data overrides key = Some (get data key (default_of key)).
Proof.
  intros Hdata Hkey. unfold get. rewrite Hdata.
  destruct (decisive file_data overrides key) as [v|] eqn:Hd; [done|].
  exfalso. unfold decisive in Hd. apply elem_of_dom in Hkey as [d Hdef].
  rewrite Hdef in Hd.
  destruct (overrides !! key) as [[]|]; destruct (file_data !! key); done.
Qed.

(** X28: the settings of a [RuntimeConfig] come, key by key, from an
    override that is not [None], else from the configuration file, else
    from [DEFAULT_CONFIG]; the value goes through [int] or [str], and
    [extra] holds the merged keys that the defaults do not have. *)
Theorem overrides_beat_the_file_and_the_file_the_defaults
    config_file overrides config :
  from_sources config_file overrides = Done config ->
  exists file_data,
    (config_path config = None /\ file_data = ∅ \/
     exists file, config_file = Some file /\ file <> "" /\
       config_path config = Some file /\
       load_config_file file = Done file_data) /\
    let chosen := decisive file_data (default ∅ overrides) in
    (exists v, chosen "max_depth" = Some v /\ py_int v = Done (max_depth config)) /\
    (exists v, chosen "threads" = Some v /\ py_int v = Done (threads config)) /\
    (exists v, chosen "user_agent" = Some v /\ py_str v = user_agent config) /\
    (exists v, chosen "export" = Some v /\ py_str v = export config) /\
    (exists v, chosen "timeout" = Some v /\ py_int v = Done (timeout config)) /\
    (forall key v, extra config !! key = Some v <->
       (key ∉ dom DEFAULT_CONFIG) /\ chosen key = Some v).
Proof.
  unfold from_sources.
  destruct (merged config_file overrides) as [[data path]|e] eqn:Hm;
    [|discriminate].
  apply merged_lookup in Hm as (file_data & Hfile & Hdata).
  destruct (py_int (get data "max_depth" _)) as [md|] eqn:Hmd; [|discriminate].
  destruct (py_int (get data "threads" _)) as [th|] eqn:Hth; [|discriminate].
  destruct (py_int (get data "timeout" _)) as [tm|] eqn:Htm; [|discriminate].
  intros [= <-]. simpl. exists file_data. split; [exact Hfile|].
  assert (Hkey : forall key, key ∈ dom DEFAULT_CONFIG ->
            decisive file_data (default ∅ overrides) key
            = Some (get data key (default_of key))).
  { intros key. by apply get_decisive. }
  rewrite default_keys in Hkey.
  split; [eexists; split; [apply Hkey; set_solver|exact Hmd]|].
  split; [eexists; split; [apply Hkey; set_solver|exact Hth]|].
  split; [eexists; split; [apply Hkey; set_solver|reflexivity]|].
  split; [eexists; split; [apply Hkey; set_solver|reflexivity]|].
  split; [eexists; split; [apply Hkey; set_solver|exact Htm]|].
  intros key v. rewrite map_lookup_filter_Some, Hdata. simpl. tauto.
Qed.

(** X29: in the [crawl] command an option given on the command line
    decides its setting, and [export], whose option is never [None],
    always does: the [export] of a configuration file has no effect. *)
Theorem command_line_options_decide config_file max_depth_option
    threads_option export_option config :
  from_sources config_file
    (Some (crawl_overrides max_depth_option threads_option (Some export_option)))
  = Done config ->
  export config = export_option /\
  (forall n, max_depth_option = Some n -> max_depth config = n) /\
  (forall n, threads_option = Some n -> threads config = n).
Proof.
  unfold from_sources.
  destruct (merged config_file _) as [[data path]|e] eqn:Hm; [|discriminate].
  apply merged_lookup in Hm as (file_data & _ & Hdata).
  assert (Hget : forall key v,
            crawl_overrides max_depth_option threads_option (Some export_option)
              !! key = Some v ->
            is_not_none v = true -> get data key (default_of key) = v).
  { intros key v Hk Hv. unfold get. rewrite Hdata. unfold decisive. simpl.
    rewrite Hk. by destruct v. }
  destruct (py_int (get data "max_depth" _)) as [md|] eqn:Hmd; [|discriminate].
  destruct (py_int (get data "threads" _)) as [th|] eqn:Hth; [|discriminate].
  destruct (py_int (get data "timeout" _)) as [tm|] eqn:Htm; [|discriminate].
  intros [= <-]. simpl. split; [|split].
  - by rewrite (Hget "export" (VStr export_option)).
  - intros n ->. rewrite (Hget "max_depth" (VInt n)) in Hmd by done.
    by inversion Hmd.
  - intros n ->. rewrite (Hget "threads" (VInt n)) in Hth by done.
    by inversion Hth.
Qed.

(** X30: what [load_config_file] does with a file. A missing file raises
    [FileNotFoundError]; a YAML file without PyYAML raises
    [RuntimeError]; a YAML document that is false (empty, [null], [0],
    [[]]) reads as the empty mapping, and an empty JSON file is read as the
    JSON text of an empty object; a true YAML document, or the document
    of a non-empty JSON file, that is no mapping raises [ValueError]. *)
Theorem load_config_file_edge_cases path :
  (path_exists path = false -> load_config_file path = Raised FileNotFoundError) /\
  (forall text, path_exists path = true -> read_text path = Done text ->
     (in_list (lower (suffix path)) [".yaml"; ".yml"] = true ->
      (yaml_safe_load = None -> load_config_file path = Raised RuntimeError) /\
      (forall safe_load d, yaml_safe_load = Some safe_load ->
         safe_load text = Done d -> document_truth d = false ->
         load_config_file path = Done ∅) /\
      (forall safe_load, yaml_safe_load = Some safe_load ->
         safe_load text = Done (NoMapping true) ->
         load_config_file path = Raised ValueError)) /\
     (in_list (lower (suffix path)) [".yaml"; ".yml"] = false ->
      (forall m, text = "" -> json_loads "{}" = Done (Mapping m) ->
         load_config_file path = Done m) /\
      (forall truth, text <> "" -> json_loads text = Done (NoMapping truth) ->
         load_config_file path = Raised ValueError))).
Proof.
  unfold load_config_file. split.
  - by intros ->.
  - intros text -> ->. simpl. split.
    + intros ->. split; [by intros ->|]. split.
      * intros safe_load d -> -> Hd. unfold or_empty. by rewrite Hd.
      * intros safe_load -> ->. reflexivity.
    + intros ->. split.
      * intros m -> Hj. simpl. by rewrite Hj.
      * intros truth Hne Hj.
        assert (Ht : truthy text = true) by (by destruct text).
        by rewrite Ht, Hj.
Qed.

End WithLibraries.

Lemma overrides_beat_the_file_and_the_file_the_defaults_witness :
  match Fixture.from_sources (Some "sfrog.json")
          (Some (crawl_overrides None (Some 8%Z) (Some "csv"))) with
  | Done config =>
      exists file_data,
        (config_path config = None /\ file_data = ∅ \/
         exists file, Some "sfrog.json" = Some file /\ file <> "" /\
           config_path config = Some file /\
           @load_config_file Fixture.files file = Done file_data) /\
        let chosen :=
          decisive file_data (crawl_overrides None (Some 8%Z) (Some "csv")) in
        (exists v, chosen "max_depth" = Some v /\
           @py_int Fixture.builtins v = Done (max_depth config)) /\
        (exists v, chosen "threads" = Some v /\
           @py_int Fixture.builtins v = Done (threads config)) /\
        (exists v, chosen "user_agent" = Some v /\
           @py_str Fixture.builtins v = user_agent config) /\
        (exists v, chosen "export" = Some v /\
           @py_str Fixture.builtins v = export config) /\
        (exists v, chosen "timeout" = Some v /\
           @py_int Fixture.builtins v = Done (timeout config)) /\
        (forall key v, extra config !! key = Some v <->
           (key ∉ dom DEFAULT_CONFIG) /\ chosen key = Some v)
  | Raised _ => False
  end.
Proof.
  destruct (Fixture.from_sources (Some "sfrog.json")
              (Some (crawl_overrides None (Some 8%Z) (Some "csv"))))
    as [config|e] eqn:H.
  - exact (overrides_beat_the_file_and_the_file_the_defaults _ _ _ H).
  - vm_compute in H. discriminate H.
Defined.

(** On the fixture file, which asks for 4 threads and for JSON, the
    command line with [--threads 8] gives 8 threads, the default depth
    and, since [export] is always passed, CSV. *)
Example file_and_command_line :
  match Fixture.from_sources (Some "sfrog.json")
          (Some (crawl_overrides None (Some 8%Z) (Some "csv"))) with
  | Done config =>
      Some (max_depth config, threads config, export config,
            map_to_list (extra config))
  | Raised _ => None
  end
  = Some (2%Z, 8%Z, "csv", [("proxy", VStr "http://localhost:3128")]).
Proof. vm_compute. reflexivity. Qed.

Lemma command_line_options_decide_witness :
  match Fixture.from_sources (Some "sfrog.json")
          (Some (crawl_overrides None (Some 8%Z) (Some "csv"))) with
  | Done config =>
      export config = "csv" /\
      (forall n, None = Some n -> max_depth config = n) /\
      (forall n, Some 8%Z = Some n -> threads config = n)
  | Raised _ => False
  end.
Proof.
  destruct (Fixture.from_sources (Some "sfrog.json")
              (Some (crawl_overrides None (Some 8%Z) (Some "csv"))))
    as [config|e] eqn:H.
  - exact (command_line_options_decide _ _ _ _ _ H).
  - vm_compute in H. discriminate H.
Defined.

Lemma load_config_file_edge_cases_witness :
  @load_config_file Fixture.files "missing.json" = Raised FileNotFoundError /\
  @load_config_file Fixture.files "empty.yaml" = Done ∅.
Proof.
  split.
  - apply (proj1 (@load_config_file_edge_cases Fixture.files "missing.json")).
    reflexivity.
  - apply (proj1 (proj2 (proj1
             (proj2 (@load_config_file_edge_cases Fixture.files "empty.yaml")
                "" eq_refl eq_refl) eq_refl))
             (fun _ => Done (NoMapping false)) (NoMapping false)
             eq_refl eq_refl eq_refl).
Defined.

End ConfigFacts.
